(** * AutoModeService: the feature orchestration engine

    A shallow embedding of the service class (registry of running
    features, the feature list store, the per-feature context log, the
    three state-machine invocations, the run / verify / resume entry
    points, the autonomous loop) as functions in a state-and-exception
    monad over an explicit world, followed by the properties of the
    engine. *)

From Stdlib Require Import ZArith String Ascii List Bool Lia.
From stdpp Require Import base option list gmap strings pretty.

Local Open Scope string_scope.
Local Open Scope Z_scope.
Local Open Scope list_scope.

(** ** Data model *)

(** A record of [feature_list.json].  Every field of a JavaScript object
    may be missing ([undefined]), hence the options.  [transient] stands
    for whatever other properties a record carries (name, raw value):
    they survive a load (object spread) and are dropped by a save. *)
Record Feature := mkFeature {
  id : option string;
  category : option string;
  description : option string;
  steps : option (list string);
  status : option string;
  transient : list (string * string);
}.

(** What [JSON.parse] makes of the text of the feature list file. *)
Inductive FeatureListContent :=
| Malformed (raw : string)          (* JSON.parse throws a SyntaxError *)
| NotAnArray (raw : string)         (* valid JSON without a usable [map]:
                                       not an array, or with a null entry *)
| FeatureArray (records : list Feature).

(** A node of the file system at the path of a feature list. *)
Inductive FeatureListNode :=
| FLDirectory
| FLFile (writable : bool) (content : FeatureListContent).

(** A node at the path of a context file [<featureId>.md]. *)
Inductive ContextNode :=
| CtxDirectory
| CtxFile (content : string).

(** The value stored in [runningFeatures]; [abortController] and [query]
    are references into the heaps of the world.  The [sendToRenderer]
    field of the source is never read back and is left out. *)
Record Execution := mkExecution {
  abortController : option nat;
  query : option nat;
  projectPath : string;
}.

Inductive QueryKind := Implement | Verify | Resume.

(** One call of the SDK's [query({ prompt, options })].  The prompt is a
    fixed template filled with the feature and, for a resume, the previous
    context, so the call is recorded by these. *)
Record QueryCall := mkQueryCall {
  q_kind : QueryKind;
  q_feature : Feature;
  q_context : option string;
  q_cwd : string;
  q_maxTurns : Z;
  q_allowedTools : list string;
  q_abortController : nat;
}.

(** The payloads handed to [sendToRenderer]. *)
Inductive Event :=
| auto_mode_feature_start (featureId : option string) (feature : Feature)
| auto_mode_phase (featureId : option string) (phase message : string)
| auto_mode_progress (featureId : option string) (content : string)
| auto_mode_tool (featureId : option string) (tool input : string)
| auto_mode_feature_complete (featureId : option string) (passes : bool)
    (message : string)
| auto_mode_complete (message : string)
| auto_mode_error (error : string) (featureId : option string).

Inductive JsError :=
| Error (message : string)
| TypeError (message : string)
| AbortError
| FsError (code : string).

Definition error_message (e : JsError) : string :=
  match e with
  | Error m => m
  | TypeError m => m
  | AbortError => "The operation was aborted"
  | FsError c => c
  end.

(** [error instanceof AbortError || error?.name === "AbortError"] *)
Definition is_abort (e : JsError) : bool :=
  match e with AbortError => true | _ => false end.

(** A promise left running on its own: the loop launched by [start]. *)
Inductive Task :=
| LoopTask (projectPath : string).

(** ** The world

    The fields of the service object ([runningFeatures], [autoLoopRunning],
    [autoLoopAbortController]), the two object heaps its references point
    into, the files under [.automaker], the clock read by [Date.now()],
    and what the engine has emitted.  The clock advances in [sleep] and
    while the engine waits for the delegate, so two loads in a row give a
    record without an id the same generated id; the properties that
    compare loads are stated for records that carry their id in the
    file, for which the clock does not matter. *)
Record World := mkWorld {
  runningFeatures : gmap string nat;
  executions : list Execution;
  controllers : list bool;             (* AbortController heap: aborted? *)
  autoLoopRunning : bool;
  autoLoopAbortController : option nat;
  featureLists : gmap string FeatureListNode;         (* by projectPath *)
  contextFiles : gmap (string * string) ContextNode;  (* by path and id *)
  clock : Z;
  queries : list QueryCall;            (* delegate calls made so far *)
  rendered : list Event;               (* events delivered to the renderer *)
  console : list string;               (* console.error lines *)
  detached : list Task;
}.

Definition set_runningFeatures (f : gmap string nat → gmap string nat) (w : World) :=
  mkWorld (f (runningFeatures w)) (executions w) (controllers w)
    (autoLoopRunning w) (autoLoopAbortController w) (featureLists w)
    (contextFiles w) (clock w) (queries w) (rendered w) (console w) (detached w).
Definition set_executions (f : list Execution → list Execution) (w : World) :=
  mkWorld (runningFeatures w) (f (executions w)) (controllers w)
    (autoLoopRunning w) (autoLoopAbortController w) (featureLists w)
    (contextFiles w) (clock w) (queries w) (rendered w) (console w) (detached w).
Definition set_controllers (f : list bool → list bool) (w : World) :=
  mkWorld (runningFeatures w) (executions w) (f (controllers w))
    (autoLoopRunning w) (autoLoopAbortController w) (featureLists w)
    (contextFiles w) (clock w) (queries w) (rendered w) (console w) (detached w).
Definition set_autoLoopRunning (b : bool) (w : World) :=
  mkWorld (runningFeatures w) (executions w) (controllers w)
    b (autoLoopAbortController w) (featureLists w)
    (contextFiles w) (clock w) (queries w) (rendered w) (console w) (detached w).
Definition set_autoLoopAbortController (c : option nat) (w : World) :=
  mkWorld (runningFeatures w) (executions w) (controllers w)
    (autoLoopRunning w) c (featureLists w)
    (contextFiles w) (clock w) (queries w) (rendered w) (console w) (detached w).
Definition set_featureLists
    (f : gmap string FeatureListNode → gmap string FeatureListNode) (w : World) :=
  mkWorld (runningFeatures w) (executions w) (controllers w)
    (autoLoopRunning w) (autoLoopAbortController w) (f (featureLists w))
    (contextFiles w) (clock w) (queries w) (rendered w) (console w) (detached w).
Definition set_contextFiles
    (f : gmap (string * string) ContextNode → gmap (string * string) ContextNode)
    (w : World) :=
  mkWorld (runningFeatures w) (executions w) (controllers w)
    (autoLoopRunning w) (autoLoopAbortController w) (featureLists w)
    (f (contextFiles w)) (clock w) (queries w) (rendered w) (console w) (detached w).
Definition set_clock (f : Z → Z) (w : World) :=
  mkWorld (runningFeatures w) (executions w) (controllers w)
    (autoLoopRunning w) (autoLoopAbortController w) (featureLists w)
    (contextFiles w) (f (clock w)) (queries w) (rendered w) (console w) (detached w).
Definition set_queries (f : list QueryCall → list QueryCall) (w : World) :=
  mkWorld (runningFeatures w) (executions w) (controllers w)
    (autoLoopRunning w) (autoLoopAbortController w) (featureLists w)
    (contextFiles w) (clock w) (f (queries w)) (rendered w) (console w) (detached w).
Definition set_rendered (f : list Event → list Event) (w : World) :=
  mkWorld (runningFeatures w) (executions w) (controllers w)
    (autoLoopRunning w) (autoLoopAbortController w) (featureLists w)
    (contextFiles w) (clock w) (queries w) (f (rendered w)) (console w) (detached w).
Definition set_console (f : list string → list string) (w : World) :=
  mkWorld (runningFeatures w) (executions w) (controllers w)
    (autoLoopRunning w) (autoLoopAbortController w) (featureLists w)
    (contextFiles w) (clock w) (queries w) (rendered w) (f (console w)) (detached w).
Definition set_detached (f : list Task → list Task) (w : World) :=
  mkWorld (runningFeatures w) (executions w) (controllers w)
    (autoLoopRunning w) (autoLoopAbortController w) (featureLists w)
    (contextFiles w) (clock w) (queries w) (rendered w) (console w) (f (detached w)).

(** The state of a freshly constructed service (the constructor) over a
    given file system and clock. *)
Definition constructor (fl : gmap string FeatureListNode)
    (cf : gmap (string * string) ContextNode) (now : Z) : World :=
  mkWorld ∅ [] [] false None fl cf now [] [] [] [].

(** ** What the delegate does

    During a streamed query the delegate, and whoever else runs between
    two awaits of the engine, changes the world.  These changes are
    attached to the stream items in front of which they happen. *)
Inductive ToolStatus := backlog | in_progress | verified.

Definition status_string (s : ToolStatus) : string :=
  match s with
  | backlog => "backlog"
  | in_progress => "in_progress"
  | verified => "verified"
  end.

Inductive Effect :=
| CallUpdateFeatureStatus (featureId : string) (status : ToolStatus)
    (* the delegate calls the MCP tool; the zod schema admits three values *)
| Elapse (ms : Z)                       (* time passes *)
| ConcurrentStop                        (* another task calls [stop()] *)
| OverwriteFeatureList (projectPath : string) (node : option FeatureListNode)
| OverwriteContextFile (projectPath featureId : string)
    (node : option ContextNode).       (* the delegate edits files itself *)

Inductive Block :=
| text_block (text : string)
| tool_use_block (name input : string)
| other_block.

Inductive Message :=
| assistant (content : list Block)      (* type "assistant" with content *)
| other_message.

Inductive StreamEnd := Done | Raise (e : JsError).

Record Stream := mkStream {
  items : list (list Effect * Message);
  last_effects : list Effect;
  ending : StreamEnd;
}.

(** ** The monad: state passing with exceptions that keep the state *)

Inductive Res (A : Type) :=
| Ok (a : A)
| Throw (e : JsError).
Arguments Ok {A} a.
Arguments Throw {A} e.

Definition M (A : Type) := World → Res A * World.

Definition ret {A} (a : A) : M A := λ w, (Ok a, w).
Definition throw {A} (e : JsError) : M A := λ w, (Throw e, w).
Definition bind {A B} (m : M A) (k : A → M B) : M B :=
  λ w, match m w with
       | (Ok a, w') => k a w'
       | (Throw e, w') => (Throw e, w')
       end.
Definition try_catch {A} (body : M A) (handler : JsError → M A) : M A :=
  λ w, match body w with
       | (Ok a, w') => (Ok a, w')
       | (Throw e, w') => handler e w'
       end.
(** [try { body } finally { cleanup }] with a cleanup that cannot throw. *)
Definition try_finally {A} (body : M A) (cleanup : World → World) : M A :=
  λ w, let '(r, w') := body w in (r, cleanup w').
Definition get {A} (f : World → A) : M A := λ w, (Ok (f w), w).
Definition modify (f : World → World) : M unit := λ w, (Ok tt, f w).

Notation "'let!' x ':=' m 'in' k" := (bind m (λ x, k))
  (at level 10, x name, m at level 100, k at level 200,
   format "'[v' 'let!'  x  ':='  m  'in' '/' k ']'").
Notation "'do!' m 'in' k" := (bind m (λ _, k))
  (at level 10, m at level 100, k at level 200,
   format "'[v' 'do!'  m  'in' '/' k ']'").

Definition console_error (line : string) : M unit :=
  modify (set_console (λ l, l ++ [line])).

(** [this.sleep(ms)] *)
Definition sleep (ms : Z) : M unit := modify (set_clock (λ t, t + ms)).

(** [for (const x of l) { acc = body(x, acc) }] *)
Fixpoint for_of {A St} (body : A → St → M St) (l : list A) (acc : St) : M St :=
  match l with
  | [] => ret acc
  | x :: rest => let! acc' := body x acc in for_of body rest acc'
  end.

(** ** Small pieces of JavaScript *)

Definition nl : string := String (ascii_of_nat 10) "".
Definition dq : string := String (ascii_of_nat 34) "".

(** A value inside a template literal. *)
Definition template (v : option string) : string := default "undefined" v.

(** [!!v] for a string or undefined. *)
Definition truthy (v : option string) : bool :=
  match v with
  | Some s => negb (bool_decide (s = ""))
  | None => false
  end.

(** [v === s] *)
Definition strict_eq (v : option string) (s : string) : bool :=
  bool_decide (v = Some s).

(** The result of one state-machine invocation. *)
Record PhaseResult := mkPhaseResult {
  passes : bool;
  message : string;
}.

(** [{ success: true, passes }] of the entry points. *)
Record RunResult := mkRunResult {
  success : bool;
  result_passes : bool;
}.

(** ** File system primitives ([fs/promises]) *)

Definition readFeatureList (projectPath : string) : M FeatureListContent :=
  λ w, match featureLists w !! projectPath with
       | Some (FLFile _ c) => (Ok c, w)
       | Some FLDirectory => (Throw (FsError "EISDIR"), w)
       | None => (Throw (FsError "ENOENT"), w)
       end.

Definition writeFeatureList (projectPath : string) (l : list Feature) : M unit :=
  λ w, match featureLists w !! projectPath with
       | Some FLDirectory => (Throw (FsError "EISDIR"), w)
       | Some (FLFile false _) => (Throw (FsError "EACCES"), w)
       | Some (FLFile true _) | None =>
           (Ok tt, set_featureLists <[projectPath := FLFile true (FeatureArray l)]> w)
       end.

Definition readContext (projectPath featureId : string) : M string :=
  λ w, match contextFiles w !! (projectPath, featureId) with
       | Some (CtxFile c) => (Ok c, w)
       | Some CtxDirectory => (Throw (FsError "EISDIR"), w)
       | None => (Throw (FsError "ENOENT"), w)
       end.

Definition writeContext (projectPath featureId content : string) : M unit :=
  λ w, match contextFiles w !! (projectPath, featureId) with
       | Some CtxDirectory => (Throw (FsError "EISDIR"), w)
       | _ => (Ok tt,
               set_contextFiles <[(projectPath, featureId) := CtxFile content]> w)
       end.

Definition unlinkContext (projectPath featureId : string) : M unit :=
  λ w, match contextFiles w !! (projectPath, featureId) with
       | Some (CtxFile _) =>
           (Ok tt, set_contextFiles (delete (projectPath, featureId)) w)
       | Some CtxDirectory => (Throw (FsError "EISDIR"), w)
       | None => (Throw (FsError "ENOENT"), w)
       end.

(** [JSON.parse(content)] followed by the first use of the value as an
    array of records. *)
Definition parse_features (c : FeatureListContent) : M (list Feature) :=
  match c with
  | Malformed _ => throw (Error "Unexpected token in JSON")
  | NotAnArray _ => throw (TypeError "features.map is not a function")
  | FeatureArray l => ret l
  end.

(** ** Feature store and execution log *)

(** [{ ...f, id: f.id || `feature-${index}-${Date.now()}` }] *)
Definition with_id (now : Z) (index : nat) (f : Feature) : Feature :=
  mkFeature
    (if truthy (id f) then id f
     else Some ("feature-" +:+ pretty index +:+ "-" +:+ pretty now))
    (category f) (description f) (steps f) (status f) (transient f).

Definition loadFeatures (projectPath : string) : M (list Feature) :=
  try_catch
    (let! content := readFeatureList projectPath in
     let! features := parse_features content in
     let! now := get clock in
     ret (imap (with_id now) features))
    (λ error,
       do! console_error "[AutoMode] Failed to load features:" in
       ret []).

(** [features.find((f) => f.status !== "verified")] *)
Definition selectNextFeature (features : list Feature) : option Feature :=
  List.find (λ f, negb (strict_eq (status f) "verified")) features.

Definition writeToContextFile (projectPath featureId content : string) : M unit :=
  if bool_decide (projectPath = "") then ret tt
  else
    try_catch
      (try_catch
         (let! existing := readContext projectPath featureId in
          writeContext projectPath featureId (existing +:+ content))
         (λ _, writeContext projectPath featureId content))
      (λ error, console_error "[AutoMode] Failed to write to context file:").

Definition readContextFile (projectPath featureId : string) : M (option string) :=
  try_catch
    (let! content := readContext projectPath featureId in ret (Some content))
    (λ error, ret None).

Definition deleteContextFile (projectPath featureId : string) : M unit :=
  if bool_decide (projectPath = "") then ret tt
  else
    try_catch
      (unlinkContext projectPath featureId)
      (λ error,
         match error with
         | FsError "ENOENT" => ret tt
         | _ => console_error "[AutoMode] Failed to delete context file:"
         end).

(** The record written back for [f]: the five stable fields only. *)
Definition toSave (f : Feature) : Feature :=
  mkFeature (id f) (category f) (description f) (steps f) (status f) [].

Definition set_status (s : string) (f : Feature) : Feature :=
  mkFeature (id f) (category f) (description f) (steps f) (Some s) (transient f).

(** [features.find((f) => f.id === key)], with the position of the record
    found, which [updateFeatureStatus] mutates in place. *)
Definition find_feature (key : option string) (features : list Feature)
    : option (nat * Feature) :=
  list_find (λ f, id f = key) features.

Definition find_by_id (featureId : string) (features : list Feature)
    : option Feature :=
  snd <$> find_feature (Some featureId) features.

Definition updateFeatureStatus (featureId status projectPath : string) : M unit :=
  let! features := loadFeatures projectPath in
  match find_feature (Some featureId) features with
  | None =>
      console_error ("[AutoMode] Feature " +:+ featureId +:+ " not found")
  | Some (i, feature) =>
      let features := <[i := set_status status feature]> features in
      do! writeFeatureList projectPath (map toSave features) in
      if bool_decide (status = "verified")
      then deleteContextFile projectPath featureId
      else ret tt
  end.

(** The handler of the [UpdateFeatureStatus] tool of
    [createFeatureToolsServer]; its value is the text shown to the
    delegate. *)
Definition UpdateFeatureStatus (projectPath featureId : string)
    (status : ToolStatus) : M string :=
  try_catch
    (do! updateFeatureStatus featureId (status_string status) projectPath in
     ret ("Successfully updated feature " +:+ featureId +:+ " to status "
          +:+ dq +:+ status_string status +:+ dq))
    (λ error,
       do! console_error "[AutoMode] UpdateFeatureStatus tool error:" in
       ret ("Failed to update feature status: " +:+ error_message error)).

(** ** Execution registry *)

(** [this.runningFeatures.has(key)]; a missing id is the key [undefined],
    which no entry has. *)
Definition has (key : option string) (w : World) : bool :=
  bool_decide (is_Some (key ≫= λ k, runningFeatures w !! k)).

(** [this.runningFeatures.set(featureId, { abortController: null,
    query: null, projectPath, sendToRenderer })]: a new object. *)
Definition register (featureId projectPath : string) : M unit :=
  modify (λ w,
    set_runningFeatures <[featureId := length (executions w)]>
      (set_executions (λ h, h ++ [mkExecution None None projectPath]) w)).

(** [this.runningFeatures.delete(featureId)] *)
Definition unregister (featureId : string) : World → World :=
  set_runningFeatures (delete featureId).

(** [new AbortController()] *)
Definition new_AbortController : M nat :=
  λ w, (Ok (length (controllers w)), set_controllers (λ h, h ++ [false]) w).

(** [controller.abort()] *)
Definition abort (c : nat) (h : list bool) : list bool := <[c := true]> h.

(** [execution.abortController = c] and [execution.query = q], on the
    object itself, whether or not the registry still holds it. *)
Definition assign_abortController (execution : nat) (c : option nat) : M unit :=
  modify (set_executions
    (alter (λ e, mkExecution c (query e) (projectPath e)) execution)).
Definition assign_query (execution : nat) (q : option nat) : M unit :=
  modify (set_executions
    (alter (λ e, mkExecution (abortController e) q (projectPath e)) execution)).

(** The body of the loop of [stop] for one registry entry. *)
Definition abort_execution (h : list Execution) (execution : nat)
    (cs : list bool) : list bool :=
  match h !! execution ≫= abortController with
  | Some c => abort c cs
  | None => cs
  end.

Definition stop : M bool :=
  do! modify (set_autoLoopRunning false) in
  let! loopController := get autoLoopAbortController in
  do! match loopController with
      | Some c =>
          do! modify (set_controllers (abort c)) in
          modify (set_autoLoopAbortController None)
      | None => ret tt
      end in
  do! modify (λ w,
        set_controllers
          (λ cs, foldr (abort_execution (executions w)) cs
                   (snd <$> map_to_list (runningFeatures w))) w) in
  do! modify (set_runningFeatures (λ _, ∅)) in
  ret true.

(** ** The state machine

    [sdk_query] is the delegate: the stream it answers a call with, which
    may depend on the world at the time of the call.  [renderer] is the
    [sendToRenderer] callback: [None] when it takes the event, [Some e]
    when it throws [e]. *)
Section Service.

Variable sdk_query : QueryCall → World → Stream.
Variable renderer : Event → option JsError.

Definition sendToRenderer (ev : Event) : M unit :=
  match renderer ev with
  | None => modify (set_rendered (λ l, l ++ [ev]))
  | Some e => throw e
  end.

(** [query({ prompt, options })]: the call is recorded and the stream of
    the delegate handed back with its reference. *)
Definition query_sdk (call : QueryCall) : M (nat * Stream) :=
  λ w, (Ok (length (queries w), sdk_query call w),
        set_queries (λ l, l ++ [call]) w).

(** What happens between two items of a stream. *)
Definition run_effect (projectPath : string) (e : Effect) : M unit :=
  match e with
  | CallUpdateFeatureStatus featureId status =>
      do! UpdateFeatureStatus projectPath featureId status in ret tt
  | Elapse ms => sleep ms
  | ConcurrentStop => do! stop in ret tt
  | OverwriteFeatureList pp node =>
      modify (set_featureLists
        (λ m, match node with Some n => <[pp := n]> m | None => delete pp m end))
  | OverwriteContextFile pp featureId node =>
      modify (set_contextFiles
        (λ m, match node with
              | Some n => <[(pp, featureId) := n]> m
              | None => delete (pp, featureId) m
              end))
  end.

Definition run_effects (projectPath : string) (l : list Effect) : M unit :=
  for_of (λ e _, run_effect projectPath e) l tt.

(** [for await (const msg of currentQuery) { if (!this.runningFeatures
    .has(feature.id)) break; body }] *)
Fixpoint for_await {St} (projectPath : string) (featureId : option string)
    (body : Message → St → M St) (l : list (list Effect * Message))
    (last : list Effect) (e : StreamEnd) (acc : St) : M St :=
  match l with
  | [] =>
      do! run_effects projectPath last in
      match e with
      | Done => ret acc
      | Raise error => throw error
      end
  | (effects, msg) :: rest =>
      do! run_effects projectPath effects in
      let! registered := get (has featureId) in
      if negb registered then ret acc
      else
        let! acc' := body msg acc in
        for_await projectPath featureId body rest last e acc'
  end.

Definition consume {St} (projectPath : string) (featureId : option string)
    (body : Message → St → M St) (s : Stream) (acc : St) : M St :=
  for_await projectPath featureId body (items s) (last_effects s) (ending s) acc.

(** The computed part of the three prompt templates,
    [feature.steps.map((step, i) => `${i + 1}. ${step}`).join("\n")]:
    reading [map] off a missing [steps] throws. *)
Definition numbered_steps (feature : Feature) : M string :=
  match steps feature with
  | Some l =>
      ret (String.concat nl (imap (λ i step, pretty (S i) +:+ ". " +:+ step) l))
  | None => throw (TypeError "Cannot read properties of undefined")
  end.

Definition tools_of (k : QueryKind) : list string :=
  match k with
  | Verify =>
      ["Read"; "Write"; "Edit"; "Glob"; "Grep"; "Bash";
       "mcp__automaker-tools__UpdateFeatureStatus"]
  | _ =>
      ["Read"; "Write"; "Edit"; "Glob"; "Grep"; "Bash"; "WebSearch";
       "WebFetch"; "mcp__automaker-tools__UpdateFeatureStatus"]
  end.

Definition options (k : QueryKind) (feature : Feature)
    (context : option string) (projectPath : string) (c : nat) : QueryCall :=
  mkQueryCall k feature context projectPath 1000 (tools_of k) c.

(** The body of the stream loop shared by [verifyFeatureTests] and
    [resumeFeatureWithContext]; the accumulator is [responseText]. *)
Definition on_block (projectPath : string) (feature : Feature)
    (block : Block) (responseText : string) : M string :=
  match block with
  | text_block text =>
      do! writeToContextFile projectPath (template (id feature)) text in
      do! sendToRenderer (auto_mode_progress (id feature) text) in
      ret (responseText +:+ text)
  | tool_use_block name input =>
      do! writeToContextFile projectPath (template (id feature))
            (nl +:+ "🔧 Tool: " +:+ name +:+ nl) in
      do! sendToRenderer (auto_mode_tool (id feature) name input) in
      ret responseText
  | other_block => ret responseText
  end.

Definition on_message (projectPath : string) (feature : Feature)
    (msg : Message) (responseText : string) : M string :=
  match msg with
  | assistant content => for_of (on_block projectPath feature) content responseText
  | other_message => ret responseText
  end.

(** The same for [implementFeature], which also tracks
    [hasStartedToolUse]. *)
Definition on_block_implement (projectPath : string) (feature : Feature)
    (block : Block) (acc : string * bool) : M (string * bool) :=
  let '(responseText, hasStartedToolUse) := acc in
  match block with
  | text_block text =>
      do! writeToContextFile projectPath (template (id feature)) text in
      do! sendToRenderer (auto_mode_progress (id feature) text) in
      ret (responseText +:+ text, hasStartedToolUse)
  | tool_use_block name input =>
      do! (if hasStartedToolUse then ret tt
           else
             let startMsg := "Starting code implementation..." +:+ nl in
             do! writeToContextFile projectPath (template (id feature)) startMsg in
             sendToRenderer (auto_mode_progress (id feature) startMsg)) in
      do! writeToContextFile projectPath (template (id feature))
            (nl +:+ "🔧 Tool: " +:+ name +:+ nl) in
      do! sendToRenderer (auto_mode_tool (id feature) name input) in
      ret (responseText, true)
  | other_block => ret acc
  end.

Definition on_message_implement (projectPath : string) (feature : Feature)
    (msg : Message) (acc : string * bool) : M (string * bool) :=
  match msg with
  | assistant content => for_of (on_block_implement projectPath feature) content acc
  | other_message => ret acc
  end.

(** [updatedFeatures.find((f) => f.id === feature.id)?.status === "verified"]
    on a fresh load. *)
Definition reload_verified (feature : Feature) (projectPath : string) : M bool :=
  let! updatedFeatures := loadFeatures projectPath in
  let updatedFeature := snd <$> find_feature (id feature) updatedFeatures in
  ret (strict_eq (updatedFeature ≫= status) "verified").

(** The [catch] block shared by the three invocations. *)
Definition on_error (execution : nat) (aborted : string) (logged : string)
    (error : JsError) : M PhaseResult :=
  if is_abort error then
    do! assign_abortController execution None in
    do! assign_query execution None in
    ret (mkPhaseResult false aborted)
  else
    do! console_error logged in
    do! assign_abortController execution None in
    do! assign_query execution None in
    throw error.

Definition not_registered (feature : Feature) : JsError :=
  Error ("Feature " +:+ template (id feature)
         +:+ " not registered in runningFeatures").

Definition implementFeature (feature : Feature) (projectPath : string)
    : M PhaseResult :=
  let fid := template (id feature) in
  let! execution := get (λ w, id feature ≫= λ k, runningFeatures w !! k) in
  match execution with
  | None => throw (not_registered feature)
  | Some execution =>
    try_catch
      ((* phase 1: planning *)
       do! writeToContextFile projectPath fid
             ("📋 Planning implementation for: "
              +:+ template (description feature) +:+ nl) in
       do! sendToRenderer (auto_mode_phase (id feature) "planning"
             ("Planning implementation for: " +:+ template (description feature))) in
       let! abortController := new_AbortController in
       do! assign_abortController execution (Some abortController) in
       let! prompt := numbered_steps feature in
       do! sendToRenderer (auto_mode_progress (id feature)
             "Analyzing codebase structure and creating implementation plan...") in
       do! sleep 500 in
       (* phase 2: action *)
       do! writeToContextFile projectPath fid
             ("⚡ Executing implementation for: "
              +:+ template (description feature) +:+ nl) in
       do! sendToRenderer (auto_mode_phase (id feature) "action"
             ("Executing implementation for: " +:+ template (description feature))) in
       let! currentQuery :=
         query_sdk (options Implement feature None projectPath abortController) in
       do! assign_query execution (Some (fst currentQuery)) in
       let! acc := consume projectPath (id feature)
                     (on_message_implement projectPath feature)
                     (snd currentQuery) ("", false) in
       let responseText := fst acc in
       do! assign_query execution None in
       do! assign_abortController execution None in
       (* phase 3: verification *)
       do! writeToContextFile projectPath fid
             ("✅ Verifying implementation for: "
              +:+ template (description feature) +:+ nl) in
       do! sendToRenderer (auto_mode_phase (id feature) "verification"
             ("Verifying implementation for: " +:+ template (description feature))) in
       let checkingMsg :=
         "Verifying implementation and checking test results..." +:+ nl in
       do! writeToContextFile projectPath fid checkingMsg in
       do! sendToRenderer (auto_mode_progress (id feature) checkingMsg) in
       let! passes := reload_verified feature projectPath in
       let resultMsg :=
         if passes then "✓ Verification successful: All tests passed" +:+ nl
         else "✗ Verification: Tests need attention" +:+ nl in
       do! writeToContextFile projectPath fid resultMsg in
       do! sendToRenderer (auto_mode_progress (id feature) resultMsg) in
       ret (mkPhaseResult passes (substring 0 500 responseText)))
      (on_error execution "Auto mode aborted"
         "[AutoMode] Error implementing feature:")
  end.

Definition verifyFeatureTests (feature : Feature) (projectPath : string)
    : M PhaseResult :=
  let fid := template (id feature) in
  let! execution := get (λ w, id feature ≫= λ k, runningFeatures w !! k) in
  match execution with
  | None => throw (not_registered feature)
  | Some execution =>
    try_catch
      (do! writeToContextFile projectPath fid
             (nl +:+ "✅ Verifying tests for: "
              +:+ template (description feature) +:+ nl) in
       do! sendToRenderer (auto_mode_phase (id feature) "verification"
             ("Verifying tests for: " +:+ template (description feature))) in
       let! abortController := new_AbortController in
       do! assign_abortController execution (Some abortController) in
       let! prompt := numbered_steps feature in
       let runningTestsMsg :=
         "Running Playwright tests to verify feature implementation..." +:+ nl in
       do! writeToContextFile projectPath fid runningTestsMsg in
       do! sendToRenderer (auto_mode_progress (id feature) runningTestsMsg) in
       let! currentQuery :=
         query_sdk (options Verify feature None projectPath abortController) in
       do! assign_query execution (Some (fst currentQuery)) in
       let! responseText := consume projectPath (id feature)
                              (on_message projectPath feature)
                              (snd currentQuery) "" in
       do! assign_query execution None in
       do! assign_abortController execution None in
       let! passes := reload_verified feature projectPath in
       let finalMsg :=
         if passes then "✓ Verification successful: All tests passed" +:+ nl
         else "✗ Tests failed or not all passing - feature remains in progress"
              +:+ nl in
       do! writeToContextFile projectPath fid finalMsg in
       do! sendToRenderer (auto_mode_progress (id feature) finalMsg) in
       ret (mkPhaseResult passes (substring 0 500 responseText)))
      (on_error execution "Verification aborted"
         "[AutoMode] Error verifying feature:")
  end.

Definition resumeFeatureWithContext (feature : Feature) (projectPath : string)
    (previousContext : option string) : M PhaseResult :=
  let fid := template (id feature) in
  let! execution := get (λ w, id feature ≫= λ k, runningFeatures w !! k) in
  match execution with
  | None => throw (not_registered feature)
  | Some execution =>
    try_catch
      (do! writeToContextFile projectPath fid
             (nl +:+ "🔄 Resuming implementation for: "
              +:+ template (description feature) +:+ nl) in
       do! sendToRenderer (auto_mode_phase (id feature) "action"
             ("Resuming implementation for: " +:+ template (description feature))) in
       let! abortController := new_AbortController in
       do! assign_abortController execution (Some abortController) in
       let! prompt := numbered_steps feature in
       let! currentQuery :=
         query_sdk (options Resume feature previousContext projectPath
                      abortController) in
       do! assign_query execution (Some (fst currentQuery)) in
       let! responseText := consume projectPath (id feature)
                              (on_message projectPath feature)
                              (snd currentQuery) "" in
       do! assign_query execution None in
       do! assign_abortController execution None in
       let! passes := reload_verified feature projectPath in
       let finalMsg :=
         if passes then "✓ Feature successfully verified and completed" +:+ nl
         else "⚠ Feature still in progress - may need additional work" +:+ nl in
       do! writeToContextFile projectPath fid finalMsg in
       do! sendToRenderer (auto_mode_progress (id feature) finalMsg) in
       ret (mkPhaseResult passes (substring 0 500 responseText)))
      (on_error execution "Resume aborted" "[AutoMode] Error resuming feature:")
  end.

(** ** Entry points *)

Definition already_running (featureId : string) : JsError :=
  Error ("Feature " +:+ featureId +:+ " is already running").

Definition not_found (featureId : string) : JsError :=
  Error ("Feature " +:+ featureId +:+ " not found").

(** The [catch] block of the three entry points. *)
Definition report (logged featureId : string) (error : JsError) : M RunResult :=
  do! console_error logged in
  do! sendToRenderer (auto_mode_error (error_message error) (Some featureId)) in
  throw error.

Definition runFeature (projectPath featureId : string) : M RunResult :=
  let! running := get (has (Some featureId)) in
  if running then throw (already_running featureId)
  else
    do! register featureId projectPath in
    try_finally
      (try_catch
         (let! features := loadFeatures projectPath in
          match find_by_id featureId features with
          | None => throw (not_found featureId)
          | Some feature =>
              do! updateFeatureStatus featureId "in_progress" projectPath in
              do! sendToRenderer (auto_mode_feature_start (id feature) feature) in
              let! result := implementFeature feature projectPath in
              let newStatus := if passes result then "verified" else "backlog" in
              do! updateFeatureStatus (template (id feature)) newStatus
                    projectPath in
              do! sendToRenderer (auto_mode_feature_complete (id feature)
                    (passes result) (message result)) in
              ret (mkRunResult true (passes result))
          end)
         (report "[AutoMode] Error running feature:" featureId))
      (unregister featureId).

Definition verifyFeature (projectPath featureId : string) : M RunResult :=
  let! running := get (has (Some featureId)) in
  if running then throw (already_running featureId)
  else
    do! register featureId projectPath in
    try_finally
      (try_catch
         (let! features := loadFeatures projectPath in
          match find_by_id featureId features with
          | None => throw (not_found featureId)
          | Some feature =>
              do! sendToRenderer (auto_mode_feature_start (id feature) feature) in
              let! result := verifyFeatureTests feature projectPath in
              let newStatus :=
                if passes result then "verified" else "in_progress" in
              do! updateFeatureStatus featureId newStatus projectPath in
              do! sendToRenderer (auto_mode_feature_complete (id feature)
                    (passes result) (message result)) in
              ret (mkRunResult true (passes result))
          end)
         (report "[AutoMode] Error verifying feature:" featureId))
      (unregister featureId).

Definition maxAttempts : nat := 3.

(** [while (!finalResult.passes && attempts < maxAttempts) { ... }] of
    [resumeFeature]; [remaining] is [maxAttempts - attempts]. *)
Fixpoint retry (remaining attempts : nat) (feature : Feature)
    (projectPath featureId : string) (finalResult : PhaseResult)
    : M PhaseResult :=
  match remaining with
  | O => ret finalResult
  | S remaining =>
      if passes finalResult then ret finalResult
      else
        let! updatedFeatures := loadFeatures projectPath in
        let updatedFeature := find_by_id featureId updatedFeatures in
        if strict_eq (updatedFeature ≫= status) "in_progress" then
          let attempts := S attempts in
          do! writeToContextFile projectPath featureId
                (nl +:+ nl +:+ "🔄 Auto-retry #" +:+ pretty attempts
                 +:+ " - Continuing implementation..." +:+ nl +:+ nl) in
          do! sendToRenderer (auto_mode_progress (id feature)
                (nl +:+ "🔄 Auto-retry #" +:+ pretty attempts
                 +:+ " - Agent ended early, continuing..." +:+ nl)) in
          let! retryContext := readContextFile projectPath featureId in
          let! finalResult :=
            resumeFeatureWithContext feature projectPath retryContext in
          retry remaining attempts feature projectPath featureId finalResult
        else ret finalResult
  end.

Definition resumeFeature (projectPath featureId : string) : M RunResult :=
  let! running := get (has (Some featureId)) in
  if running then throw (already_running featureId)
  else
    do! register featureId projectPath in
    try_finally
      (try_catch
         (let! features := loadFeatures projectPath in
          match find_by_id featureId features with
          | None => throw (not_found featureId)
          | Some feature =>
              do! sendToRenderer (auto_mode_feature_start (id feature) feature) in
              let! previousContext := readContextFile projectPath featureId in
              let! result :=
                resumeFeatureWithContext feature projectPath previousContext in
              let! finalResult :=
                retry maxAttempts 0 feature projectPath featureId result in
              let newStatus :=
                if passes finalResult then "verified" else "in_progress" in
              do! updateFeatureStatus featureId newStatus projectPath in
              do! sendToRenderer (auto_mode_feature_complete (id feature)
                    (passes finalResult) (message finalResult)) in
              ret (mkRunResult true (passes finalResult))
          end)
         (report "[AutoMode] Error resuming feature:" featureId))
      (unregister featureId).

(** ** The autonomous loop *)

Inductive Step := Break | Continue.

(** The [catch] block of one iteration; [currentFeatureId] is what the
    variable holds when the error is caught. *)
Definition iteration_failed (currentFeatureId : option string)
    (error : JsError) : M Step :=
  do! console_error "[AutoMode] Error in loop iteration:" in
  do! sendToRenderer (auto_mode_error (error_message error) currentFeatureId) in
  do! match currentFeatureId with
      | Some k => if truthy currentFeatureId then modify (unregister k) else ret tt
      | None => ret tt
      end in
  do! sleep 5000 in
  ret Continue.

(** One pass through the body of [while (this.autoLoopRunning)].  The
    [try] block is cut where [currentFeatureId] is assigned, so that each
    half is caught with the value the variable has there. *)
Definition iteration (projectPath : string) : M Step :=
  let! selected :=
    try_catch
      (let! features := loadFeatures projectPath in
       match selectNextFeature features with
       | None =>
           do! sendToRenderer (auto_mode_complete "All features completed!") in
           ret (inl Break)
       | Some nextFeature => ret (inr nextFeature)
       end)
      (λ error, let! s := iteration_failed None error in ret (inl s)) in
  match selected with
  | inl s => ret s
  | inr nextFeature =>
      let currentFeatureId := id nextFeature in
      try_catch
        (let! running := get (has currentFeatureId) in
         if running then
           do! sleep 3000 in ret Continue
         else
           do! sendToRenderer
                 (auto_mode_feature_start (id nextFeature) nextFeature) in
           do! register (template currentFeatureId) projectPath in
           let! result := implementFeature nextFeature projectPath in
           let newStatus := if passes result then "verified" else "backlog" in
           do! updateFeatureStatus (template (id nextFeature)) newStatus
                 projectPath in
           do! sendToRenderer (auto_mode_feature_complete (id nextFeature)
                 (passes result) (message result)) in
           do! modify (unregister (template currentFeatureId)) in
           let! running := get autoLoopRunning in
           do! (if running then sleep 3000 else ret tt) in
           ret Continue)
        (iteration_failed currentFeatureId)
  end.

Inductive LoopExit := LoopEnded | StillLooping.

(** [runLoop], cut after [fuel] iterations. *)
Fixpoint runLoop (fuel : nat) (projectPath : string) : M LoopExit :=
  match fuel with
  | O => ret StillLooping
  | S fuel =>
      let! running := get autoLoopRunning in
      if running then
        let! s := iteration projectPath in
        match s with
        | Break =>
            do! modify (set_autoLoopRunning false) in ret LoopEnded
        | Continue => runLoop fuel projectPath
        end
      else
        do! modify (set_autoLoopRunning false) in ret LoopEnded
  end.

(** [this.runLoop(projectPath, sendToRenderer).catch((error) => {
    console.error(...); this.stop(); })], as it runs once launched. *)
Definition run_task (fuel : nat) (t : Task) : M unit :=
  match t with
  | LoopTask projectPath =>
      try_catch
        (do! runLoop fuel projectPath in ret tt)
        (λ error,
           do! console_error "[AutoMode] Loop error:" in
           do! stop in
           ret tt)
  end.

Definition start (projectPath : string) : M bool :=
  let! running := get autoLoopRunning in
  if running then throw (Error "Auto mode loop is already running")
  else
    do! modify (set_autoLoopRunning true) in
    do! modify (set_detached (λ l, l ++ [LoopTask projectPath])) in
    ret true.

End Service.
(** The records a load returns: a pure function of the file and the clock. *)
Definition stored (projectPath : string) (w : World) : list Feature :=
  match featureLists w !! projectPath with
  | Some (FLFile _ (FeatureArray l)) => imap (with_id (clock w)) l
  | _ => []
  end.

(** [triple P m Q]: from a world satisfying [P], [m] ends in a result and
    a world satisfying [Q].  [m] is a total function, so it always ends. *)
Definition triple {A} (P : World → Prop) (m : M A)
    (Q : Res A → World → Prop) : Prop :=
  ∀ w, P w → Q (m w).1 (m w).2.

(** [preserves I m]: [m] keeps the invariant [I], whether it returns or
    throws. *)
Definition preserves {A} (I : World → Prop) (m : M A) : Prop :=
  triple I m (λ _, I).

(** An invariant that does not look at a field survives any write to it. *)
Record stable_log (I : World → Prop) : Prop := {
  stable_contextFiles : ∀ f w, I w → I (set_contextFiles f w);
  stable_console : ∀ f w, I w → I (set_console f w);
  stable_rendered : ∀ f w, I w → I (set_rendered f w);
}.

Record stable_engine (I : World → Prop) : Prop := {
  stable_engine_log : stable_log I;
  stable_controllers : ∀ f w, I w → I (set_controllers f w);
  stable_executions : ∀ f w, I w → I (set_executions f w);
}.

(** [implementFeature] sleeps, so its invariants must also stand the
    passing of time. *)
Definition clock_stable (I : World → Prop) : Prop :=
  ∀ f w, I w → I (set_clock f w).

(** [spec I φ m]: [m] keeps the invariant [I], and throws only errors
    that satisfy [φ]. *)
Definition spec {A} (I : World → Prop) (φ : JsError → Prop) (m : M A) : Prop :=
  triple I m (λ r w, I w ∧ ∀ e, r = Throw e → φ e).

(** [total m]: [m] never throws. *)
Definition total {A} (m : M A) : Prop := ∀ w, ∃ a, (m w).1 = Ok a.

Definition identified (l : list Feature) : Prop :=
  Forall (λ f, truthy (id f) = true) l.

(** The list written back by [updateFeatureStatus]. *)
Definition saved (i : nat) (status : string) (feature : Feature)
    (features : list Feature) : list Feature :=
  map toSave (<[i := set_status status feature]> features).

(** What a fresh load shows: the records, and the status of one of them. *)
Definition reload (projectPath : string) (w : World) : list Feature :=
  match (loadFeatures projectPath w).1 with
  | Ok l => l
  | Throw _ => []
  end.

Definition stored_status (projectPath featureId : string) (w : World)
    : option string :=
  find_by_id featureId (reload projectPath w) ≫= status.

(** The record of [featureId] is in the list file under its own id, so a
    load finds it whatever the clock says. *)
Definition persisted (projectPath featureId : string) (w : World) : Prop :=
  featureId ≠ "" ∧
  ∃ wr l, featureLists w !! projectPath = Some (FLFile wr (FeatureArray l)) ∧
          Some featureId ∈ (id <$> l).

(** Every change the delegate makes while a stream is consumed. *)
Definition stream_effects (s : Stream) : list Effect :=
  concat (fst <$> items s) ++ last_effects s.

(** What an invariant has to stand for an invocation of the state machine
    to keep it: the writes of the engine, and whatever the delegate does
    during the streams it answers with. *)
Definition engine_invariant (sdk_query : QueryCall → World → Stream)
    (projectPath : string) (I : World → Prop) : Prop :=
  stable_engine I ∧
  (∀ f w, I w → I (set_queries f w)) ∧
  ∀ call w e, e ∈ stream_effects (sdk_query call w) →
              preserves I (run_effect projectPath e).

Definition non_abort (e : JsError) : Prop := is_abort e = false.

(** The errors the renderer throws, and those the streams of the delegate
    end with. *)
Definition renderer_throws (renderer : Event → option JsError)
    (φ : JsError → Prop) : Prop :=
  ∀ ev e, renderer ev = Some e → φ e.

Definition delegate_raises (sdk_query : QueryCall → World → Stream)
    (φ : JsError → Prop) : Prop :=
  ∀ call w e, ending (sdk_query call w) = Raise e → φ e.

(** [updatedFeature?.status === "verified"] on a fresh load, for the record
    with id [key]. *)
Definition verified_in_store (key : option string) (projectPath : string)
    (w : World) : bool :=
  strict_eq ((snd <$> find_feature key (reload projectPath w)) ≫= status)
    "verified".

(** The registry entry an invocation of the state machine works under. *)
Definition registered (key : option string) (execution : nat) (w : World)
    : Prop :=
  key ≫= (λ k, runningFeatures w !! k) = Some execution.

(** The list file cannot be read, or does not hold an array of records. *)
Definition load_fails (projectPath : string) (w : World) : Prop :=
  match featureLists w !! projectPath with
  | Some (FLFile _ (FeatureArray _)) => False
  | _ => True
  end.


(** The list file of the project can be written and holds the record of
    the feature under its id, and a load shows the feature with status
    "in_progress". *)
Definition in_progress_writable (projectPath featureId : string) (w : World)
    : Prop :=
  (∃ c, featureLists w !! projectPath = Some (FLFile true c)) ∧
  persisted projectPath featureId w ∧
  stored_status projectPath featureId w = Some "in_progress".

(** What a resume attempt starts from: the feature is registered and, in
    the store, in progress. *)
Definition resumable (projectPath featureId : string) (w : World) : Prop :=
  is_Some (runningFeatures w !! featureId) ∧
  in_progress_writable projectPath featureId w.

(** Delegate calls made to resume [feature]. *)
Definition resume_calls_of (feature : Feature) (calls : list QueryCall) : Prop :=
  Forall (λ c, q_kind c = Resume ∧ q_feature c = feature) calls.

(** The state machine ran on the feature and returned [res] in world
    [w6]; a passing [res] was read off the store, and without a
    cancellation [res] passes exactly when the store says "verified". *)
Definition invocation_result (sdk_query : QueryCall → World → Stream)
    (renderer : Event → option JsError) (projectPath fid : string)
    (res : PhaseResult) (w6 : World) : Prop :=
  (passes res = true → stored_status projectPath fid w6 = Some "verified") ∧
  (renderer_throws renderer non_abort → delegate_raises sdk_query non_abort →
   (passes res = true ↔ stored_status projectPath fid w6 = Some "verified")).


(** ** Concrete scenarios *)

Definition login : Feature :=
  mkFeature (Some "f1") (Some "core") (Some "Add login") (Some ["a"])
    (Some "backlog") [("note", "draft")].

Definition login_in_progress : Feature := set_status "in_progress" login.

(** A fresh service over a project [/p] with the given feature list, at
    time 1000. *)
Definition project (l : list Feature) : World :=
  constructor {["/p" := FLFile true (FeatureArray l)]} ∅ 1000.

(** The same with the context files of [f1] and of a feature [ghost] that
    the list does not have. *)
Definition project_with_logs (l : list Feature) : World :=
  constructor {["/p" := FLFile true (FeatureArray l)]}
    {[("/p", "f1") := CtxFile "log of f1";
      ("/p", "ghost") := CtxFile "log of ghost"]} 1000.

(** A service in which [f1] is being run, its stream open. *)
Definition busy : World :=
  mkWorld {["f1" := 0%nat]} [mkExecution (Some 0%nat) (Some 0%nat) "/p"]
    [false] true None {["/p" := FLFile true (FeatureArray [login])]} ∅ 1000
    [] [] [] [].

Definition takes_all : Event → option JsError := λ _, None.
Definition window_closed : Event → option JsError :=
  λ _, Some (Error "Object has been destroyed").

Definition does_nothing : QueryCall → World → Stream :=
  λ _ _, mkStream [] [] Done.
Definition verifies : QueryCall → World → Stream :=
  λ _ _, mkStream
           [([CallUpdateFeatureStatus "f1" verified],
             assistant [text_block "All tests pass."])] [] Done.
Definition gives_up : QueryCall → World → Stream :=
  λ _ _, mkStream [] [CallUpdateFeatureStatus "f1" backlog] Done.
Definition cancelled : QueryCall → World → Stream :=
  λ _ _, mkStream [([], assistant [text_block "Working"])] [ConcurrentStop]
           (Raise AbortError).

(** ** Status report *)

Record Status := mkStatus {
  status_autoLoopRunning : bool;
  status_runningFeatures : list string;
  runningCount : nat;
}.

(** [getStatus()].  The registry is a finite map, which does not keep the
    order in which a JavaScript [Map] lists its keys; the list of running
    ids is to be read up to its order. *)
Definition getStatus (w : World) : Status :=
  mkStatus (autoLoopRunning w) (fst <$> map_to_list (runningFeatures w))
    (size (runningFeatures w)).

(** ** Project analysis *)

(** One call of [query({ prompt, options })] for a project analysis: the
    prompt is fixed text around the project path. *)
Record AnalysisCall := mkAnalysisCall {
  a_cwd : string;
  a_maxTurns : Z;
  a_allowedTools : list string;
  a_abortController : nat;
}.

(** [{ success, message }] *)
Record AnalysisResult := mkAnalysisResult {
  analysis_success : bool;
  analysis_message : string;
}.

Section Analysis.

Variable sdk_analysis : AnalysisCall → World → Stream.
Variable renderer : Event → option JsError.

(** The stream of the delegate for an analysis.  The log [queries] of the
    world keeps the calls made for features; an analysis call leaves it
    as it is.  The stream is consumed like that of a feature: the
    effects attached to its items are what happens in the world while
    the engine waits for them (the analysis itself is given no status
    tool). *)
Definition query_analysis (call : AnalysisCall) : M (nat * Stream) :=
  λ w, (Ok (length (queries w), sdk_analysis call w), w).

Definition on_block_analysis (analysisId : string) (block : Block)
    (responseText : string) : M string :=
  match block with
  | text_block text =>
      do! sendToRenderer renderer (auto_mode_progress (Some analysisId) text) in
      ret (responseText +:+ text)
  | tool_use_block name input =>
      do! sendToRenderer renderer
            (auto_mode_tool (Some analysisId) name input) in
      ret responseText
  | other_block => ret responseText
  end.

Definition on_message_analysis (analysisId : string) (msg : Message)
    (responseText : string) : M string :=
  match msg with
  | assistant content => for_of (on_block_analysis analysisId) content responseText
  | other_message => ret responseText
  end.

Definition analysis_not_registered (analysisId : string) : JsError :=
  Error ("Analysis " +:+ analysisId +:+ " not registered in runningFeatures").

(** The [catch] block of [runProjectAnalysis]. *)
Definition on_analysis_error (execution : nat) (error : JsError)
    : M AnalysisResult :=
  if is_abort error then
    do! assign_abortController execution None in
    do! assign_query execution None in
    ret (mkAnalysisResult false "Analysis aborted")
  else
    do! console_error "[AutoMode] Error in project analysis:" in
    do! assign_abortController execution None in
    do! assign_query execution None in
    throw error.

Definition runProjectAnalysis (projectPath analysisId : string)
    : M AnalysisResult :=
  let! execution := get (λ w, runningFeatures w !! analysisId) in
  match execution with
  | None => throw (analysis_not_registered analysisId)
  | Some execution =>
    try_catch
      (do! sendToRenderer renderer (auto_mode_phase (Some analysisId) "planning"
             "Scanning project structure...") in
       let! abortController := new_AbortController in
       do! assign_abortController execution (Some abortController) in
       do! sendToRenderer renderer (auto_mode_progress (Some analysisId)
             ("Starting project analysis..." +:+ nl)) in
       let! currentQuery :=
         query_analysis (mkAnalysisCall projectPath 50
                           ["Read"; "Glob"; "Grep"; "Bash"] abortController) in
       do! assign_query execution (Some (fst currentQuery)) in
       let! responseText := consume projectPath (Some analysisId)
                              (on_message_analysis analysisId)
                              (snd currentQuery) "" in
       do! assign_query execution None in
       do! assign_abortController execution None in
       do! sendToRenderer renderer (auto_mode_phase (Some analysisId)
             "verification" "Project analysis complete") in
       ret (mkAnalysisResult true "Project analyzed successfully"))
      (on_analysis_error execution)
  end.

(** The feature shown for an analysis in its start event. *)
Definition analysis_feature (analysisId : string) : Feature :=
  mkFeature (Some analysisId) (Some "Project Analysis")
    (Some "Analyzing project structure and tech stack") None None [].

(** The [catch] block of [analyzeProject]. *)
Definition report_analysis (analysisId : string) (error : JsError)
    : M AnalysisResult :=
  do! console_error "[AutoMode] Error analyzing project:" in
  do! sendToRenderer renderer
        (auto_mode_error (error_message error) (Some analysisId)) in
  throw error.

Definition analyzeProject (projectPath : string) : M AnalysisResult :=
  let! now := get clock in
  let analysisId := "project-analysis-" +:+ pretty now in
  let! running := get (has (Some analysisId)) in
  if running then throw (Error "Project analysis is already running")
  else
    do! register analysisId projectPath in
    try_finally
      (try_catch
         (do! sendToRenderer renderer
                (auto_mode_feature_start (Some analysisId)
                   (analysis_feature analysisId)) in
          let! result := runProjectAnalysis projectPath analysisId in
          do! sendToRenderer renderer
                (auto_mode_feature_complete (Some analysisId)
                   (analysis_success result) (analysis_message result)) in
          ret (mkAnalysisResult true (analysis_message result)))
         (report_analysis analysisId))
      (unregister analysisId).

End Analysis.

(** ** Conditions used by the further properties *)

(** The list file of the project holds an array of records that all carry
    an id. *)
Definition identified_file (projectPath : string) (w : World) : Prop :=
  ∃ wr l, featureLists w !! projectPath = Some (FLFile wr (FeatureArray l)) ∧
          identified l.

(** The status tool is called for [featureId] only, and the list file of
    the project is not written behind the back of the engine. *)
Definition tool_calls_only (sdk_query : QueryCall → World → Stream)
    (projectPath featureId : string) : Prop :=
  ∀ call w e, e ∈ stream_effects (sdk_query call w) →
    (∀ node, e ≠ OverwriteFeatureList projectPath node) ∧
    (∀ fid st, e = CallUpdateFeatureStatus fid st → fid = featureId).

(** The list file is in order and shows [other] with status [s]. *)
Definition keeps_status (projectPath other : string) (s : option string)
    (w : World) : Prop :=
  identified_file projectPath w ∧ stored_status projectPath other w = s.

(** The execution object holds neither a controller nor a query. *)
Definition released (execution : nat) (w : World) : Prop :=
  ∀ e, executions w !! execution = Some e →
       abortController e = None ∧ query e = None.

(** The list file of the project can be written. *)
Definition writable (projectPath : string) (w : World) : Prop :=
  ∃ c, featureLists w !! projectPath = Some (FLFile true c).

(** It can be written and holds the record of [featureId] under its
    id. *)
Definition workable (projectPath featureId : string) (w : World) : Prop :=
  persisted projectPath featureId w ∧ writable projectPath w.

(** The streams of the delegate end normally or with a cancellation. *)
Definition ends_or_cancels (sdk_query : QueryCall → World → Stream) : Prop :=
  ∀ call w e, ending (sdk_query call w) = Raise e → is_abort e = true.

(** The delegate calls made so far begin with [calls]. *)
Definition calls_begin_with (calls : list QueryCall) (w : World) : Prop :=
  ∃ rest, queries w = calls ++ rest.

(** ** Further scenarios *)

(** A record without an id, a second feature, a feature without steps. *)
Definition untitled : Feature :=
  mkFeature None (Some "ui") (Some "Untitled") (Some ["a"]) (Some "backlog")
    [].
Definition signup : Feature :=
  mkFeature (Some "f2") (Some "core") (Some "Add signup") (Some ["b"])
    (Some "backlog") [].


(** A delegate whose stream breaks with an error of the service, and an
    analysis that is cancelled after its first message. *)
Definition crashes : QueryCall → World → Stream :=
  λ _ _, mkStream [([], assistant [text_block "Working"])] []
           (Raise (Error "overloaded")).
Definition analysis_cancelled : AnalysisCall → World → Stream :=
  λ _ _, mkStream [([], assistant [text_block "Scanning"])] []
           (Raise AbortError).

(** An analysis that runs to its end. *)
Definition analysis_done : AnalysisCall → World → Stream :=
  λ _ _, mkStream [([], assistant [text_block "Scanning"])] [] Done.

(** The service after [start] on a project whose list is [l]. *)
Definition started (projectPath : string) (l : list Feature) : World :=
  (start projectPath (project l)).2.

(** * Properties *)

(** ** Footprints of the store and log operations

    Each operation is characterised by its value and by the fields of the
    world it may write. *)

Ltac world_norm :=
  cbv [console_error sleep modify get ret throw
       set_runningFeatures set_executions set_controllers set_autoLoopRunning
       set_autoLoopAbortController set_featureLists set_contextFiles set_clock
       set_queries set_rendered set_console set_detached
       runningFeatures executions controllers autoLoopRunning
       autoLoopAbortController featureLists contextFiles clock queries
       rendered console detached].

Ltac footprint := repeat (eapply ex_intro); world_norm; reflexivity.

Lemma loadFeatures_run projectPath w :
  ∃ co, loadFeatures projectPath w
        = (Ok (stored projectPath w), set_console (λ _, co) w).
Proof.
  destruct w. unfold loadFeatures, try_catch, bind, readFeatureList, stored.
  simpl. destruct (_ !! projectPath) as [[|wr [raw|raw|l]]|]; footprint.
Qed.

Lemma writeToContextFile_run projectPath featureId content w :
  ∃ cf co, writeToContextFile projectPath featureId content w
           = (Ok tt, set_contextFiles (λ _, cf) (set_console (λ _, co) w)).
Proof.
  destruct w. unfold writeToContextFile. case_bool_decide; [footprint|].
  unfold try_catch, bind, readContext, writeContext. simpl.
  destruct (_ !! (projectPath, featureId)) as [[|c]|] eqn:E; simpl;
    rewrite ?E; footprint.
Qed.

Lemma readContextFile_run projectPath featureId w :
  ∃ c, readContextFile projectPath featureId w = (Ok c, w).
Proof.
  unfold readContextFile, try_catch, bind, readContext.
  destruct (contextFiles w !! (projectPath, featureId)) as [[|c]|]; by eexists.
Qed.

Lemma deleteContextFile_run projectPath featureId w :
  ∃ cf co, deleteContextFile projectPath featureId w
           = (Ok tt, set_contextFiles (λ _, cf) (set_console (λ _, co) w)).
Proof.
  destruct w. unfold deleteContextFile. case_bool_decide; [footprint|].
  unfold try_catch, unlinkContext. simpl.
  destruct (_ !! (projectPath, featureId)) as [[|c]|] eqn:E; footprint.
Qed.

(** ** A Hoare logic for the monad *)

Lemma triple_conseq {A} (P P' : World → Prop) (Q Q' : Res A → World → Prop) m :
  triple P' m Q' → (∀ w, P w → P' w) → (∀ r w, Q' r w → Q r w) →
  triple P m Q.
Proof. intros Hm HP HQ w Hw. apply HQ, Hm, HP, Hw. Qed.

Lemma triple_ret {A} (P : World → Prop) (Q : Res A → World → Prop) a :
  (∀ w, P w → Q (Ok a) w) → triple P (ret a) Q.
Proof. intros H w Hw. by apply H. Qed.

Lemma triple_throw {A} (P : World → Prop) (Q : Res A → World → Prop) e :
  (∀ w, P w → Q (Throw e) w) → triple P (throw e) Q.
Proof. intros H w Hw. by apply H. Qed.

Lemma triple_get {A} (P : World → Prop) (Q : Res A → World → Prop) (f : World → A) :
  (∀ w, P w → Q (Ok (f w)) w) → triple P (get f) Q.
Proof. intros H w Hw. by apply H. Qed.

Lemma triple_modify (P : World → Prop) (Q : Res unit → World → Prop) f :
  (∀ w, P w → Q (Ok tt) (f w)) → triple P (modify f) Q.
Proof. intros H w Hw. by apply H. Qed.

Lemma triple_bind {A B} (P : World → Prop) (R : Res A → World → Prop)
    (Q : Res B → World → Prop) (m : M A) (k : A → M B) :
  triple P m R →
  (∀ e w, R (Throw e) w → Q (Throw e) w) →
  (∀ a, triple (R (Ok a)) (k a) Q) →
  triple P (bind m k) Q.
Proof.
  intros Hm He Hk w Hw. unfold bind. specialize (Hm w Hw).
  destruct (m w) as [[a|e] w']; simpl in *; [by apply Hk | by apply He].
Qed.

Lemma triple_try_catch {A} (P : World → Prop) (R Q : Res A → World → Prop)
    (body : M A) (handler : JsError → M A) :
  triple P body R →
  (∀ a w, R (Ok a) w → Q (Ok a) w) →
  (∀ e, triple (R (Throw e)) (handler e) Q) →
  triple P (try_catch body handler) Q.
Proof.
  intros Hm Ha Hh w Hw. unfold try_catch. specialize (Hm w Hw).
  destruct (body w) as [[a|e] w']; simpl in *; [by apply Ha | by apply Hh].
Qed.

Lemma triple_try_finally {A} (P : World → Prop) (R Q : Res A → World → Prop)
    (body : M A) (cleanup : World → World) :
  triple P body R → (∀ r w, R r w → Q r (cleanup w)) →
  triple P (try_finally body cleanup) Q.
Proof.
  intros Hm Hc w Hw. unfold try_finally. specialize (Hm w Hw).
  destruct (body w) as [r w']; simpl in *. by apply Hc.
Qed.

(** The rules for an invariant. *)
Lemma preserves_ret {A} I (a : A) : preserves I (ret a).
Proof. by apply triple_ret. Qed.

Lemma preserves_throw {A} I e : preserves I (@throw A e).
Proof. by apply triple_throw. Qed.

Lemma preserves_get {A} I (f : World → A) : preserves I (get f).
Proof. by apply triple_get. Qed.

Lemma preserves_modify I f : (∀ w, I w → I (f w)) → preserves I (modify f).
Proof. intros. by apply triple_modify. Qed.

Lemma preserves_bind {A B} I (m : M A) (k : A → M B) :
  preserves I m → (∀ a, preserves I (k a)) → preserves I (bind m k).
Proof. intros Hm Hk. eapply triple_bind; [exact Hm| |exact Hk]. done. Qed.

Lemma preserves_try_catch {A} I (body : M A) handler :
  preserves I body → (∀ e, preserves I (handler e)) →
  preserves I (try_catch body handler).
Proof. intros Hm Hh. eapply triple_try_catch; [exact Hm| |exact Hh]. done. Qed.

Lemma preserves_try_finally {A} I (body : M A) cleanup :
  preserves I body → (∀ w, I w → I (cleanup w)) →
  preserves I (try_finally body cleanup).
Proof.
  intros Hm Hc. eapply triple_try_finally; [exact Hm|].
  intros r w Hw. by apply Hc.
Qed.

Lemma preserves_for_of {A St} I (body : A → St → M St) l acc :
  (∀ x a, x ∈ l → preserves I (body x a)) → preserves I (for_of body l acc).
Proof.
  revert acc. induction l as [|x l IH]; intros acc Hb; simpl.
  - apply preserves_ret.
  - apply preserves_bind; [apply Hb; left|].
    intros a. apply IH. intros y b Hy. apply Hb. by right.
Qed.

Lemma preserves_console_error I line :
  stable_log I → preserves I (console_error line).
Proof. intros [? ? ?]. apply preserves_modify. auto. Qed.

Lemma preserves_loadFeatures I projectPath :
  stable_log I → preserves I (loadFeatures projectPath).
Proof.
  intros [? ? ?] w Hw.
  destruct (loadFeatures_run projectPath w) as (co & ->). simpl. auto.
Qed.

Lemma preserves_writeToContextFile I projectPath featureId content :
  stable_log I → preserves I (writeToContextFile projectPath featureId content).
Proof.
  intros [? ? ?] w Hw.
  destruct (writeToContextFile_run projectPath featureId content w)
    as (cf & co & ->). simpl. auto.
Qed.

Lemma preserves_readContextFile I projectPath featureId :
  preserves I (readContextFile projectPath featureId).
Proof.
  intros w Hw. by destruct (readContextFile_run projectPath featureId w) as (c & ->).
Qed.

Lemma preserves_deleteContextFile I projectPath featureId :
  stable_log I → preserves I (deleteContextFile projectPath featureId).
Proof.
  intros [? ? ?] w Hw.
  destruct (deleteContextFile_run projectPath featureId w) as (cf & co & ->).
  simpl. auto.
Qed.

(** ** The feature store *)

Lemma truthy_Some s : truthy (Some s) = true ↔ s ≠ "".
Proof. simpl. rewrite negb_true_iff, bool_decide_eq_false. done. Qed.

Lemma with_id_truthy now i f : truthy (id f) = true → with_id now i f = f.
Proof. intros H. unfold with_id. rewrite H. by destruct f. Qed.

Lemma with_id_keeps now i f s :
  id f = Some s → s ≠ "" → id (with_id now i f) = Some s.
Proof.
  intros H Hs. rewrite with_id_truthy; [done|]. rewrite H. by apply truthy_Some.
Qed.

(** Every record a load returns has an id. *)
Lemma with_id_has_id now i f : truthy (id (with_id now i f)) = true.
Proof.
  unfold with_id. simpl. destruct (truthy (id f)) eqn:E; [done|]. reflexivity.
Qed.

Lemma imap_with_id_identified now (l : list Feature) :
  identified (imap (with_id now) l).
Proof.
  apply Forall_lookup. intros i f Hi.
  rewrite list_lookup_imap in Hi.
  destruct (l !! i) as [x|]; simplify_eq/=. apply with_id_has_id.
Qed.

Lemma imap_with_id_fixed now (l : list Feature) :
  identified l → imap (with_id now) l = l.
Proof.
  intros Hl. apply list_eq. intros i. rewrite list_lookup_imap.
  destruct (l !! i) as [x|] eqn:E; simpl; [|done].
  f_equal. apply with_id_truthy.
  by apply (proj1 (Forall_lookup _ l) Hl i x).
Qed.

Lemma stored_identified projectPath w : identified (stored projectPath w).
Proof.
  unfold stored.
  destruct (featureLists w !! projectPath) as [[|wr [raw|raw|l]]|];
    try apply Forall_nil_2. apply imap_with_id_identified.
Qed.

Lemma find_feature_Some key (l : list Feature) i f :
  find_feature key l = Some (i, f) ↔
  l !! i = Some f ∧ id f = key ∧ ∀ j y, l !! j = Some y → (j < i)%nat → id y ≠ key.
Proof. unfold find_feature. apply (list_find_Some (λ f, id f = key)). Qed.

Lemma find_feature_None key (l : list Feature) :
  find_feature key l = None ↔ Forall (λ f, id f ≠ key) l.
Proof. unfold find_feature. apply (list_find_None (λ f, id f = key)). Qed.

(** Finding by id only looks at the ids. *)
Lemma find_feature_ids key (l l' : list Feature) i f :
  id <$> l' = id <$> l →
  find_feature key l = Some (i, f) →
  ∃ f', find_feature key l' = Some (i, f') ∧ id f' = key.
Proof.
  intros Hids (Hi & Hf & Hlt)%find_feature_Some.
  assert (Hlook : ∀ j, id <$> (l' !! j) = id <$> (l !! j)).
  { intros j. by rewrite <- !list_lookup_fmap, Hids. }
  pose proof (Hlook i) as Hli. rewrite Hi in Hli.
  destruct (l' !! i) as [f'|] eqn:E; simplify_eq/=.
  exists f'. split; [|congruence].
  apply find_feature_Some. repeat split; [done|congruence|].
  intros j y Hj Hji. pose proof (Hlook j) as Hlj. rewrite Hj in Hlj.
  destruct (l !! j) as [x|] eqn:Ex; simplify_eq/=.
  rewrite Hlj. by eapply Hlt.
Qed.

Lemma find_feature_ids_None key (l l' : list Feature) :
  id <$> l' = id <$> l →
  find_feature key l = None → find_feature key l' = None.
Proof.
  intros Hids Hl. apply find_feature_None. apply find_feature_None in Hl.
  apply Forall_lookup. intros j y Hj.
  assert (Hlj : id <$> (l' !! j) = id <$> (l !! j)).
  { by rewrite <- !list_lookup_fmap, Hids. }
  rewrite Hj in Hlj. destruct (l !! j) as [x|] eqn:Ex; simplify_eq/=.
  rewrite Hlj. by apply (proj1 (Forall_lookup _ l) Hl j x).
Qed.

Lemma saved_ids i status feature features :
  features !! i = Some feature →
  id <$> saved i status feature features = id <$> features.
Proof.
  intros Hi. unfold saved. apply list_eq. intros j.
  rewrite !list_lookup_fmap.
  destruct (decide (i = j)) as [->|Hne].
  - rewrite list_lookup_insert_eq; [|by eapply lookup_lt_Some].
    by rewrite Hi.
  - rewrite list_lookup_insert_ne by done. by destruct (features !! j).
Qed.

Lemma saved_identified i status feature features :
  features !! i = Some feature → identified features →
  identified (saved i status feature features).
Proof.
  intros Hi Hl. apply Forall_lookup. intros j y Hj.
  assert (Hids : id <$> (saved i status feature features !! j)
                 = id <$> (features !! j)).
  { by rewrite <- !list_lookup_fmap, saved_ids. }
  rewrite Hj in Hids. destruct (features !! j) as [x|] eqn:Ex; simplify_eq/=.
  rewrite Hids. by apply (proj1 (Forall_lookup _ features) Hl j x).
Qed.

Lemma saved_lookup i status feature features :
  features !! i = Some feature →
  saved i status feature features !! i = Some (toSave (set_status status feature)).
Proof.
  intros Hi. unfold saved. rewrite list_lookup_fmap.
  rewrite list_lookup_insert_eq; [done|by eapply lookup_lt_Some].
Qed.

Lemma loadFeatures_array projectPath w wr l :
  featureLists w !! projectPath = Some (FLFile wr (FeatureArray l)) →
  loadFeatures projectPath w = (Ok (imap (with_id (clock w)) l), w).
Proof.
  intros H. unfold loadFeatures, try_catch, bind, readFeatureList.
  by rewrite H.
Qed.

Lemma stored_array projectPath w wr l :
  featureLists w !! projectPath = Some (FLFile wr (FeatureArray l)) →
  stored projectPath w = imap (with_id (clock w)) l.
Proof. intros H. unfold stored. by rewrite H. Qed.

Lemma found_array key projectPath w i f :
  find_feature key (stored projectPath w) = Some (i, f) →
  ∃ wr l, featureLists w !! projectPath = Some (FLFile wr (FeatureArray l)).
Proof.
  unfold stored.
  destruct (featureLists w !! projectPath) as [[|wr [raw|raw|l]]|];
    try discriminate. eauto.
Qed.

Lemma reload_stored projectPath w : reload projectPath w = stored projectPath w.
Proof.
  unfold reload. by destruct (loadFeatures_run projectPath w) as (co & ->).
Qed.

(** A file holding an identified list loads as that list, at any time. *)
Lemma stored_identified_file projectPath w wr l :
  featureLists w !! projectPath = Some (FLFile wr (FeatureArray l)) →
  identified l → stored projectPath w = l.
Proof.
  intros H Hl. rewrite (stored_array _ _ _ _ H). by apply imap_with_id_fixed.
Qed.

Lemma deleteContextFile_exact projectPath featureId w :
  deleteContextFile projectPath featureId w =
  (Ok tt,
   if bool_decide (projectPath = "") then w
   else match contextFiles w !! (projectPath, featureId) with
        | Some (CtxFile _) =>
            set_contextFiles (delete (projectPath, featureId)) w
        | Some CtxDirectory =>
            set_console
              (λ l, l ++ ["[AutoMode] Failed to delete context file:"]) w
        | None => w
        end).
Proof.
  unfold deleteContextFile. case_bool_decide; [done|].
  unfold try_catch, unlinkContext.
  by destruct (contextFiles w !! (projectPath, featureId)) as [[|c]|].
Qed.

Lemma updateFeatureStatus_missing featureId status projectPath w :
  find_feature (Some featureId) (stored projectPath w) = None →
  ∃ co, updateFeatureStatus featureId status projectPath w
        = (Ok tt, set_console (λ _, co) w).
Proof.
  intros H. unfold updateFeatureStatus, bind.
  destruct (loadFeatures_run projectPath w) as (co & ->). rewrite H.
  destruct w. footprint.
Qed.

Lemma updateFeatureStatus_found featureId status projectPath w i f wr c :
  find_feature (Some featureId) (stored projectPath w) = Some (i, f) →
  featureLists w !! projectPath = Some (FLFile wr c) →
  updateFeatureStatus featureId status projectPath w =
  if wr then
    let w1 :=
      set_featureLists
        <[projectPath :=
            FLFile true (FeatureArray (saved i status f (stored projectPath w)))]>
        w in
    if bool_decide (status = "verified")
    then deleteContextFile projectPath featureId w1
    else (Ok tt, w1)
  else (Throw (FsError "EACCES"), w).
Proof.
  intros H Hfile.
  destruct (found_array _ _ _ _ _ H) as (wr' & l & Hl).
  rewrite Hfile in Hl. simplify_eq.
  unfold updateFeatureStatus, bind.
  rewrite (loadFeatures_array _ _ _ _ Hfile).
  rewrite (stored_array _ _ _ _ Hfile) in H |- *. rewrite H.
  unfold writeFeatureList. rewrite Hfile.
  destruct wr'; [|done]. fold (saved i status f (imap (with_id (clock w)) l)).
  by case_bool_decide.
Qed.

Lemma persisted_stored projectPath featureId w :
  persisted projectPath featureId w →
  Some featureId ∈ (id <$> stored projectPath w).
Proof.
  intros (Hne & wr & l & Hfile & Hin).
  rewrite (stored_array _ _ _ _ Hfile).
  apply list_elem_of_fmap in Hin as (f & Hf & Hin).
  apply list_elem_of_lookup in Hin as (i & Hi).
  apply list_elem_of_fmap. exists (with_id (clock w) i f). split.
  - symmetry. by apply with_id_keeps.
  - apply list_elem_of_lookup. exists i. rewrite list_lookup_imap, Hi. done.
Qed.

Lemma elem_of_ids_found key (l : list Feature) :
  key ∈ (id <$> l) → ∃ i f, find_feature key l = Some (i, f).
Proof.
  intros (f & Hf & Hin)%list_elem_of_fmap.
  destruct (find_feature key l) as [[i x]|] eqn:E; [eauto|].
  apply find_feature_None in E.
  by destruct (proj1 (Forall_forall _ l) E f Hin).
Qed.

Lemma persisted_found projectPath featureId w :
  persisted projectPath featureId w →
  ∃ i f, find_feature (Some featureId) (stored projectPath w) = Some (i, f).
Proof. intros H. by apply elem_of_ids_found, persisted_stored. Qed.

Lemma found_persisted_after_write projectPath featureId w i f status m :
  find_feature (Some featureId) (stored projectPath w) = Some (i, f) →
  m !! projectPath
  = Some (FLFile true (FeatureArray (saved i status f (stored projectPath w)))) →
  ∀ w', featureLists w' = m →
  stored projectPath w' = saved i status f (stored projectPath w).
Proof.
  intros H Hm w' <-.
  apply find_feature_Some in H as (Hi & _).
  apply (stored_identified_file _ _ _ _ Hm).
  apply saved_identified; [done|apply stored_identified].
Qed.

Lemma featureLists_deleteContextFile projectPath featureId w :
  featureLists (deleteContextFile projectPath featureId w).2 = featureLists w.
Proof.
  rewrite deleteContextFile_exact. simpl. case_bool_decide; [done|].
  by destruct (contextFiles w !! (projectPath, featureId)) as [[|c]|].
Qed.

(** A status update that returns has written the status, unless the id is
    unknown. *)
Lemma updateFeatureStatus_written featureId status projectPath w w' i f :
  find_feature (Some featureId) (stored projectPath w) = Some (i, f) →
  updateFeatureStatus featureId status projectPath w = (Ok tt, w') →
  featureLists w' =
    <[projectPath :=
        FLFile true (FeatureArray (saved i status f (stored projectPath w)))]>
      (featureLists w).
Proof.
  intros Hfound Hrun.
  destruct (found_array _ _ _ _ _ Hfound) as (wr & l & Hfile).
  rewrite (updateFeatureStatus_found _ status _ _ _ _ _ _ Hfound Hfile) in Hrun.
  destruct wr; [|discriminate]. simpl in Hrun.
  case_bool_decide; [|by simplify_eq].
  match type of Hrun with ?m ?w1 = _ =>
    pose proof (featureLists_deleteContextFile projectPath featureId w1) as Hd
  end.
  rewrite Hrun in Hd. done.
Qed.

Lemma updateFeatureStatus_status featureId status projectPath w w' :
  is_Some (find_feature (Some featureId) (stored projectPath w)) →
  updateFeatureStatus featureId status projectPath w = (Ok tt, w') →
  persisted projectPath featureId w' ∧
  stored_status projectPath featureId w' = Some status.
Proof.
  intros [[i f] Hfound] Hrun.
  pose proof (updateFeatureStatus_written _ _ _ _ _ _ _ Hfound Hrun) as Hfl.
  assert (Hst : stored projectPath w' = saved i status f (stored projectPath w)).
  { eapply found_persisted_after_write; [done| |done]. apply lookup_insert_eq. }
  pose proof Hfound as (Hi & Hid & _)%find_feature_Some.
  pose proof (saved_ids i status f _ Hi) as Hids.
  destruct (find_feature_ids _ _ _ _ _ Hids Hfound) as (f' & Hf' & _).
  pose proof Hf' as (Hi' & _)%find_feature_Some.
  rewrite (saved_lookup _ status _ _ Hi) in Hi'. simplify_eq.
  split.
  - split.
    + pose proof (stored_identified projectPath w) as Hall.
      pose proof (proj1 (Forall_lookup _ _) Hall i f Hi) as Ht.
      simpl in Ht. rewrite Hid in Ht. by apply truthy_Some.
    + exists true, (saved i status f (stored projectPath w)). split.
      * rewrite Hfl. apply lookup_insert_eq.
      * rewrite Hids. apply list_elem_of_fmap. exists f. split; [done|].
        by eapply list_elem_of_lookup_2.
  - unfold stored_status, find_by_id. rewrite reload_stored, Hst, Hf'. done.
Qed.

Lemma preserves_updateFeatureStatus_log I featureId status projectPath :
  stable_log I → (∀ f w, I w → I (set_featureLists f w)) →
  preserves I (updateFeatureStatus featureId status projectPath).
Proof.
  intros HI Hfl w Hw.
  destruct (find_feature (Some featureId) (stored projectPath w))
    as [[i f]|] eqn:Hfound.
  - destruct (found_array _ _ _ _ _ Hfound) as (wr & l & Hfile).
    rewrite (updateFeatureStatus_found _ status _ _ _ _ _ _ Hfound Hfile).
    destruct wr; [|done]. simpl. case_bool_decide; [|by apply Hfl].
    apply preserves_deleteContextFile; [done|]. by apply Hfl.
  - destruct (updateFeatureStatus_missing _ status _ _ Hfound) as (co & ->).
    simpl. by apply HI.
Qed.

Lemma persisted_same_lists projectPath featureId w w' :
  featureLists w' = featureLists w →
  persisted projectPath featureId w → persisted projectPath featureId w'.
Proof. unfold persisted. by intros ->. Qed.

(** No status update, for whatever feature of whatever project, removes a
    persisted record. *)
Lemma preserves_updateFeatureStatus_persisted pp fid featureId status projectPath :
  preserves (persisted pp fid) (updateFeatureStatus featureId status projectPath).
Proof.
  intros w Hw.
  destruct (find_feature (Some featureId) (stored projectPath w))
    as [[i f]|] eqn:Hfound.
  - destruct (found_array _ _ _ _ _ Hfound) as (wr & l & Hfile).
    rewrite (updateFeatureStatus_found _ status _ _ _ _ _ _ Hfound Hfile).
    destruct wr; [|done]. simpl.
    match goal with |- persisted _ _ (if _ then ?m ?w1 else _).2 =>
      assert (persisted pp fid w1) as Hw1
    end.
    { destruct Hw as (Hne & wr & l0 & Hfile0 & Hin). split; [done|].
      simpl. destruct (decide (projectPath = pp)) as [->|Hpp].
      - rewrite lookup_insert_eq. do 2 eexists. split; [done|].
        pose proof Hfound as (Hi & _)%find_feature_Some.
        rewrite (saved_ids _ _ _ _ Hi).
        apply persisted_stored. split; [done|]. eauto.
      - rewrite lookup_insert_ne by done. eauto. }
    case_bool_decide; [|done].
    eapply persisted_same_lists; [|exact Hw1].
    apply featureLists_deleteContextFile.
  - destruct (updateFeatureStatus_missing _ status _ _ Hfound) as (co & ->).
    simpl. exact Hw.
Qed.

(** ** Invariants through the registry, the effects and the streams *)

Lemma stop_run w :
  ∃ cs, stop w
        = (Ok true,
           set_runningFeatures (λ _, ∅)
             (set_controllers (λ _, cs)
                (set_autoLoopAbortController None
                   (set_autoLoopRunning false w)))).
Proof.
  destruct w. unfold stop, bind. world_norm.
  destruct autoLoopAbortController0; footprint.
Qed.

Lemma preserves_stop I :
  (∀ f w, I w → I (set_runningFeatures f w)) →
  (∀ f w, I w → I (set_controllers f w)) →
  (∀ c w, I w → I (set_autoLoopAbortController c w)) →
  (∀ b w, I w → I (set_autoLoopRunning b w)) →
  preserves I stop.
Proof.
  intros H1 H2 H3 H4 w Hw. destruct (stop_run w) as (cs & ->). simpl. auto.
Qed.

Lemma preserves_sleep I ms :
  (∀ f w, I w → I (set_clock f w)) → preserves I (sleep ms).
Proof. intros H. apply preserves_modify. intros w Hw. by apply H. Qed.

Lemma preserves_UpdateFeatureStatus I projectPath featureId status :
  stable_log I →
  preserves I (updateFeatureStatus featureId (status_string status) projectPath) →
  preserves I (UpdateFeatureStatus projectPath featureId status).
Proof.
  intros HI Hu. unfold UpdateFeatureStatus.
  apply preserves_try_catch.
  - apply preserves_bind; [done|]. intros _. apply preserves_ret.
  - intros e. apply preserves_bind; [by apply preserves_console_error|].
    intros _. apply preserves_ret.
Qed.

Lemma run_effect_total projectPath e w :
  ∃ w', run_effect projectPath e w = (Ok tt, w').
Proof.
  destruct e as [featureId status|ms| |pp node|pp featureId node]; simpl;
    try (by eexists).
  - unfold bind, UpdateFeatureStatus, try_catch, bind.
    destruct (updateFeatureStatus _ _ _ w) as [[[]|e] w']; by eexists.
  - unfold bind. destruct (stop_run w) as (cs & ->). by eexists.
Qed.

Lemma run_effects_total projectPath l w :
  ∃ w', run_effects projectPath l w = (Ok tt, w').
Proof.
  unfold run_effects. revert w. induction l as [|e l IH]; intros w; simpl.
  - by eexists.
  - unfold bind. destruct (run_effect_total projectPath e w) as (w' & ->).
    apply IH.
Qed.

Lemma preserves_run_effects I projectPath l :
  (∀ e, e ∈ l → preserves I (run_effect projectPath e)) →
  preserves I (run_effects projectPath l).
Proof. intros H. apply preserves_for_of. intros e _ He. by apply H. Qed.

Lemma preserves_for_await {St} I projectPath featureId
    (body : Message → St → M St) l last e acc :
  (∀ x, x ∈ concat (fst <$> l) ++ last →
        preserves I (run_effect projectPath x)) →
  (∀ msg a, preserves I (body msg a)) →
  preserves I (for_await projectPath featureId body l last e acc).
Proof.
  intros He Hb. revert acc He.
  induction l as [|[effects msg] l IH]; intros acc He; simpl.
  - apply preserves_bind.
    + apply preserves_run_effects. intros x Hx. apply He. simpl. done.
    + intros _. destruct e; [apply preserves_ret|apply preserves_throw].
  - apply preserves_bind.
    + apply preserves_run_effects. intros x Hx. apply He.
      simpl. rewrite <- app_assoc. apply elem_of_app. by left.
    + intros _. apply preserves_bind; [apply preserves_get|].
      intros registered. destruct registered; simpl; [|apply preserves_ret].
      apply preserves_bind; [apply Hb|]. intros acc'. apply IH.
      intros x Hx. apply He. simpl. rewrite <- app_assoc.
      apply elem_of_app. by right.
Qed.

Lemma preserves_consume {St} I projectPath featureId
    (body : Message → St → M St) s acc :
  (∀ x, x ∈ stream_effects s → preserves I (run_effect projectPath x)) →
  (∀ msg a, preserves I (body msg a)) →
  preserves I (consume projectPath featureId body s acc).
Proof. intros. by apply preserves_for_await. Qed.

(** The effects that keep a record persisted: all but a direct overwrite
    of its list file. *)
Lemma preserves_run_effect_persisted pp fid projectPath e :
  (∀ node, e ≠ OverwriteFeatureList pp node) →
  preserves (persisted pp fid) (run_effect projectPath e).
Proof.
  intros Hne.
  destruct e as [featureId status|ms| |pp' node|pp' featureId node]; simpl.
  - apply preserves_bind; [|intros; apply preserves_ret].
    apply preserves_UpdateFeatureStatus; [by split|].
    apply preserves_updateFeatureStatus_persisted.
  - by apply preserves_sleep.
  - apply preserves_bind; [|intros; apply preserves_ret].
    by apply preserves_stop.
  - apply preserves_modify. intros w (Hfid & wr & l & Hfile & Hin).
    split; [done|]. exists wr, l. split; [|done]. simpl.
    destruct (decide (pp' = pp)) as [->|Hpp]; [by destruct (Hne node)|].
    destruct node; by rewrite ?lookup_insert_ne, ?lookup_delete_ne.
  - by apply preserves_modify.
Qed.

(** The effects that keep a registry entry: all but a concurrent stop. *)
Lemma preserves_run_effect_registered key execution projectPath e :
  e ≠ ConcurrentStop →
  preserves (registered key execution) (run_effect projectPath e).
Proof.
  intros Hne.
  destruct e as [featureId status|ms| |pp' node|pp' featureId node]; simpl;
    [|by apply preserves_modify|done|by apply preserves_modify..].
  apply preserves_bind; [|intros; apply preserves_ret].
  apply preserves_UpdateFeatureStatus; [by split|].
  by apply preserves_updateFeatureStatus_log; [split|].
Qed.

(** No effect is a delegate call. *)
Lemma preserves_run_effect_queries (q : list QueryCall) projectPath e :
  preserves (λ w, queries w = q) (run_effect projectPath e).
Proof.
  destruct e as [featureId status|ms| |pp' node|pp' featureId node]; simpl;
    [|by apply preserves_modify| |by apply preserves_modify..].
  - apply preserves_bind; [|intros; apply preserves_ret].
    apply preserves_UpdateFeatureStatus; [by split|].
    by apply preserves_updateFeatureStatus_log; [split|].
  - apply preserves_bind; [|intros; apply preserves_ret].
    by apply preserves_stop.
Qed.

(** ** Invariants and errors through the state machine *)

Lemma spec_preserves {A} I φ (m : M A) : spec I φ m → preserves I m.
Proof. intros H w Hw. by destruct (H w Hw). Qed.

Lemma spec_of_total {A} I φ (m : M A) : total m → preserves I m → spec I φ m.
Proof.
  intros Ht Hp w Hw. split; [by apply Hp|].
  intros e He. destruct (Ht w) as [a Ha]. congruence.
Qed.

Lemma spec_weaken {A} I (φ ψ : JsError → Prop) (m : M A) :
  (∀ e, φ e → ψ e) → spec I φ m → spec I ψ m.
Proof. intros Hi H w Hw. destruct (H w Hw) as [? He]. split; [done|]. eauto. Qed.

Lemma spec_ret {A} I φ (a : A) : spec I φ (ret a).
Proof. intros w Hw. by split. Qed.

Lemma spec_throw {A} I (φ : JsError → Prop) e : φ e → spec I φ (@throw A e).
Proof. intros H w Hw. split; [done|]. simpl. by intros ? [= <-]. Qed.

Lemma spec_get {A} I φ (f : World → A) : spec I φ (get f).
Proof. intros w Hw. by split. Qed.

Lemma spec_modify I φ f : (∀ w, I w → I (f w)) → spec I φ (modify f).
Proof. intros H w Hw. split; [by apply H|done]. Qed.

Lemma spec_bind {A B} I φ (m : M A) (k : A → M B) :
  spec I φ m → (∀ a, spec I φ (k a)) → spec I φ (bind m k).
Proof.
  intros Hm Hk w Hw. unfold bind. destruct (Hm w Hw) as [Hi He].
  destruct (m w) as [[a|e] w']; simpl in *; [by apply Hk|].
  split; [done|]. intros ? [= <-]. by apply He.
Qed.

Lemma spec_try_catch {A} I (φ ψ : JsError → Prop) (body : M A) handler :
  spec I ψ body → (∀ e, ψ e → spec I φ (handler e)) →
  spec I φ (try_catch body handler).
Proof.
  intros Hm Hh w Hw. unfold try_catch. destruct (Hm w Hw) as [Hi He].
  destruct (body w) as [[a|e] w']; simpl in *; [by split|].
  apply Hh; [by apply He|done].
Qed.

Lemma spec_try_finally {A} I φ (body : M A) cleanup :
  spec I φ body → (∀ w, I w → I (cleanup w)) →
  spec I φ (try_finally body cleanup).
Proof.
  intros Hm Hc w Hw. unfold try_finally. destruct (Hm w Hw) as [Hi He].
  destruct (body w) as [r w']; simpl in *. split; [by apply Hc|done].
Qed.

Lemma spec_for_of {A St} I φ (body : A → St → M St) l acc :
  (∀ x a, spec I φ (body x a)) → spec I φ (for_of body l acc).
Proof.
  intros Hb. revert acc. induction l as [|x l IH]; intros acc; simpl.
  - apply spec_ret.
  - apply spec_bind; [apply Hb|]. intros a. apply IH.
Qed.

Lemma total_loadFeatures projectPath : total (loadFeatures projectPath).
Proof. intros w. destruct (loadFeatures_run projectPath w) as (co & ->). by eexists. Qed.

Lemma total_writeToContextFile projectPath featureId content :
  total (writeToContextFile projectPath featureId content).
Proof.
  intros w.
  destruct (writeToContextFile_run projectPath featureId content w)
    as (cf & co & ->). by eexists.
Qed.

Lemma total_readContextFile projectPath featureId :
  total (readContextFile projectPath featureId).
Proof.
  intros w. destruct (readContextFile_run projectPath featureId w) as (c & ->).
  by eexists.
Qed.

Lemma total_run_effects projectPath l : total (run_effects projectPath l).
Proof. intros w. destruct (run_effects_total projectPath l w) as (w' & ->). by eexists. Qed.

Lemma spec_for_await {St} I φ projectPath featureId
    (body : Message → St → M St) l last e acc :
  (∀ x, x ∈ concat (fst <$> l) ++ last →
        preserves I (run_effect projectPath x)) →
  (∀ msg a, spec I φ (body msg a)) →
  (∀ error, e = Raise error → φ error) →
  spec I φ (for_await projectPath featureId body l last e acc).
Proof.
  intros He Hb Hend. revert acc He.
  induction l as [|[effects msg] l IH]; intros acc He; simpl.
  - apply spec_bind.
    + apply spec_of_total; [apply total_run_effects|].
      apply preserves_run_effects. intros x Hx. apply He. simpl. done.
    + intros _. destruct e; [apply spec_ret|apply spec_throw; by apply Hend].
  - apply spec_bind.
    + apply spec_of_total; [apply total_run_effects|].
      apply preserves_run_effects. intros x Hx. apply He.
      simpl. rewrite <- app_assoc. apply elem_of_app. by left.
    + intros _. apply spec_bind; [apply spec_get|].
      intros registered. destruct registered; simpl; [|apply spec_ret].
      apply spec_bind; [apply Hb|]. intros acc'. apply IH.
      intros x Hx. apply He. simpl. rewrite <- app_assoc.
      apply elem_of_app. by right.
Qed.

Ltac spec1 :=
  first
    [ apply spec_ret | apply spec_get
    | apply spec_bind; [|intros ?]
    | match goal with
      | |- spec _ _ (if ?b then _ else _) => destruct b
      | |- spec _ _ (match ?x with _ => _ end) => destruct x
      | H : stable_engine _ |- spec _ _ (writeToContextFile _ _ _) =>
          apply spec_of_total;
          [apply total_writeToContextFile|apply preserves_writeToContextFile, H]
      | H : stable_log _ |- spec _ _ (writeToContextFile _ _ _) =>
          apply spec_of_total;
          [apply total_writeToContextFile|apply preserves_writeToContextFile, H]
      | H : stable_engine _ |- spec _ _ (console_error _) =>
          apply spec_modify; intros; first [done|apply H; assumption]
      | H : stable_log _ |- spec _ _ (console_error _) =>
          apply spec_modify; intros; first [done|apply H; assumption]
      | H : stable_engine _ |- spec _ _ (loadFeatures _) =>
          apply spec_of_total;
          [apply total_loadFeatures|apply preserves_loadFeatures, H]
      | H : stable_log _ |- spec _ _ (loadFeatures _) =>
          apply spec_of_total;
          [apply total_loadFeatures|apply preserves_loadFeatures, H]
      | H : clock_stable _ |- spec _ _ (sleep _) =>
          apply spec_modify; intros; first [done|apply H; assumption]
      | H : stable_engine _ |- spec _ _ (assign_abortController _ _) =>
          apply spec_modify; intros; first [done|apply H; assumption]
      | H : stable_engine _ |- spec _ _ (assign_query _ _) =>
          apply spec_modify; intros; first [done|apply H; assumption]
      | |- spec _ _ (readContextFile _ _) =>
          apply spec_of_total;
          [apply total_readContextFile|apply preserves_readContextFile]
      end ].

Section Engine.

Variable sdk_query : QueryCall → World → Stream.
Variable renderer : Event → option JsError.

Lemma spec_sendToRenderer I φ ev :
  stable_log I → renderer_throws renderer φ →
  spec I φ (sendToRenderer renderer ev).
Proof.
  intros [? ? ?] Hr. unfold sendToRenderer.
  destruct (renderer ev) eqn:E; [apply spec_throw; eauto|].
  apply spec_modify. auto.
Qed.

Lemma spec_on_message I φ projectPath feature msg acc :
  stable_log I → renderer_throws renderer φ →
  spec I φ (on_message renderer projectPath feature msg acc).
Proof.
  intros HI Hr. destruct msg as [content|]; simpl; [|apply spec_ret].
  apply spec_for_of. intros block a. unfold on_block.
  repeat spec1; by apply spec_sendToRenderer.
Qed.

Lemma spec_on_message_implement I φ projectPath feature msg acc :
  stable_log I → renderer_throws renderer φ →
  spec I φ (on_message_implement renderer projectPath feature msg acc).
Proof.
  intros HI Hr. destruct msg as [content|]; simpl; [|apply spec_ret].
  apply spec_for_of. intros block [responseText started].
  unfold on_block_implement.
  repeat spec1; by apply spec_sendToRenderer.
Qed.

Lemma spec_new_AbortController I φ :
  (∀ f w, I w → I (set_controllers f w)) → spec I φ new_AbortController.
Proof. intros H w Hw. split; [by apply H|done]. Qed.

Lemma spec_numbered_steps I (φ : JsError → Prop) feature :
  (steps feature = None → ∀ m, φ (TypeError m)) →
  spec I φ (numbered_steps feature).
Proof.
  intros H. unfold numbered_steps.
  destruct (steps feature); [apply spec_ret|apply spec_throw; by apply H].
Qed.

Lemma spec_reload_verified I φ feature projectPath :
  stable_log I → spec I φ (reload_verified feature projectPath).
Proof. intros HI. unfold reload_verified. repeat spec1. Qed.

Lemma spec_on_error I (φ : JsError → Prop) execution aborted logged error :
  stable_engine I → (non_abort error → φ error) →
  spec I φ (on_error execution aborted logged error).
Proof.
  intros HI He. unfold on_error. destruct (is_abort error) eqn:E.
  - repeat spec1.
  - repeat spec1. apply spec_throw. by apply He.
Qed.

Lemma spec_bind_query {B} I φ call (k : nat * Stream → M B) :
  (∀ f w, I w → I (set_queries f w)) →
  (∀ q w0, spec I φ (k (q, sdk_query call w0))) →
  spec I φ (bind (query_sdk sdk_query call) k).
Proof. intros Hq Hk w Hw. unfold bind, query_sdk. by apply Hk, Hq. Qed.

Lemma spec_consume {St} I φ projectPath featureId
    (body : Message → St → M St) s acc :
  (∀ x, x ∈ stream_effects s → preserves I (run_effect projectPath x)) →
  (∀ msg a, spec I φ (body msg a)) →
  (∀ e, ending s = Raise e → φ e) →
  spec I φ (consume projectPath featureId body s acc).
Proof. intros. by apply spec_for_await. Qed.

End Engine.

Ltac spec_engine Hs Hq He Hr Hd Ht :=
  repeat first
    [ apply spec_bind_query; [apply Hq | intros ? ?; simpl]
    | spec1
    | apply spec_sendToRenderer; [apply Hs|apply Hr]
    | apply spec_new_AbortController, Hs
    | apply spec_numbered_steps; apply Ht
    | apply spec_reload_verified, Hs
    | apply spec_consume; [by apply He|intros ? ?|by apply Hd]
    | apply spec_on_message; [apply Hs|apply Hr]
    | apply spec_on_message_implement; [apply Hs|apply Hr] ].

(** The same for the trivial invariant, which every effect keeps. *)
Ltac spec_engine_True Hs Hr Hd Ht :=
  repeat first
    [ apply spec_bind_query; [done | intros ? ?; simpl]
    | spec1
    | apply spec_sendToRenderer; [apply Hs|apply Hr]
    | apply spec_new_AbortController; done
    | apply spec_numbered_steps; apply Ht
    | apply spec_reload_verified, Hs
    | apply spec_consume; [done|intros ? ?|by apply Hd]
    | apply spec_on_message; [apply Hs|apply Hr]
    | apply spec_on_message_implement; [apply Hs|apply Hr] ].

Section EngineSpec.

Variable sdk_query : QueryCall → World → Stream.
Variable renderer : Event → option JsError.

Lemma spec_implementFeature I (φ : JsError → Prop) feature projectPath :
  engine_invariant sdk_query projectPath I → clock_stable I →
  φ (not_registered feature) →
  renderer_throws renderer (λ e, non_abort e → φ e) →
  delegate_raises sdk_query (λ e, non_abort e → φ e) →
  (steps feature = None → ∀ m, φ (TypeError m)) →
  spec I φ (implementFeature sdk_query renderer feature projectPath).
Proof.
  intros (Hs & Hq & He) Hc Hn Hr Hd Ht. unfold implementFeature.
  apply spec_bind; [apply spec_get|]. intros [execution|];
    [|by apply spec_throw].
  apply spec_try_catch with (ψ := λ e, non_abort e → φ e).
  - assert (Ht' : steps feature = None → ∀ m, non_abort (TypeError m) → φ (TypeError m))
      by (intros; by apply Ht).
    spec_engine Hs Hq He Hr Hd Ht'.
  - intros e Hφ. by apply spec_on_error.
Qed.

Lemma spec_verifyFeatureTests I (φ : JsError → Prop) feature projectPath :
  engine_invariant sdk_query projectPath I →
  φ (not_registered feature) →
  renderer_throws renderer (λ e, non_abort e → φ e) →
  delegate_raises sdk_query (λ e, non_abort e → φ e) →
  (steps feature = None → ∀ m, φ (TypeError m)) →
  spec I φ (verifyFeatureTests sdk_query renderer feature projectPath).
Proof.
  intros (Hs & Hq & He) Hn Hr Hd Ht. unfold verifyFeatureTests.
  apply spec_bind; [apply spec_get|]. intros [execution|];
    [|by apply spec_throw].
  apply spec_try_catch with (ψ := λ e, non_abort e → φ e).
  - assert (Ht' : steps feature = None → ∀ m, non_abort (TypeError m) → φ (TypeError m))
      by (intros; by apply Ht).
    spec_engine Hs Hq He Hr Hd Ht'.
  - intros e Hφ. by apply spec_on_error.
Qed.

Lemma spec_resumeFeatureWithContext I (φ : JsError → Prop) feature
    projectPath context :
  engine_invariant sdk_query projectPath I →
  φ (not_registered feature) →
  renderer_throws renderer (λ e, non_abort e → φ e) →
  delegate_raises sdk_query (λ e, non_abort e → φ e) →
  (steps feature = None → ∀ m, φ (TypeError m)) →
  spec I φ
    (resumeFeatureWithContext sdk_query renderer feature projectPath context).
Proof.
  intros (Hs & Hq & He) Hn Hr Hd Ht. unfold resumeFeatureWithContext.
  apply spec_bind; [apply spec_get|]. intros [execution|];
    [|by apply spec_throw].
  apply spec_try_catch with (ψ := λ e, non_abort e → φ e).
  - assert (Ht' : steps feature = None → ∀ m, non_abort (TypeError m) → φ (TypeError m))
      by (intros; by apply Ht).
    spec_engine Hs Hq He Hr Hd Ht'.
  - intros e Hφ. by apply spec_on_error.
Qed.

End EngineSpec.

(** ** What an invocation returns *)

Lemma spec_trivial {A} (m : M A) : spec (λ _, True) (λ _, True) m.
Proof. by intros w _. Qed.

Lemma triple_bind_spec {A B} I φ (m : M A) (k : A → M B)
    (Q : Res B → World → Prop) :
  spec I φ m →
  (∀ e w, I w → φ e → Q (Throw e) w) →
  (∀ a, triple I (k a) Q) →
  triple I (bind m k) Q.
Proof.
  intros Hm He Hk.
  eapply triple_bind with (R := λ r w, I w ∧ ∀ e, r = Throw e → φ e).
  - exact Hm.
  - intros e w [Hi Hφ]. apply He; [done|]. by apply Hφ.
  - intros a. eapply triple_conseq; [apply Hk| |done]. by intros w [? _].
Qed.

(** A prefix that cannot matter for a postcondition about returned
    values. *)
Lemma triple_skip {A B} (m : M A) (k : A → M B) (Q : Res B → World → Prop) :
  (∀ e w, Q (Throw e) w) →
  (∀ a, triple (λ _, True) (k a) Q) →
  triple (λ _, True) (bind m k) Q.
Proof.
  intros He Hk. eapply triple_bind_spec; [apply spec_trivial| |exact Hk].
  intros. apply He.
Qed.

Lemma triple_ok_throw {A} P (m : M A) (Qok : A → World → Prop)
    (φ : JsError → Prop) :
  triple P m (λ r w, ∀ a, r = Ok a → Qok a w) →
  triple P m (λ r w, ∀ e, r = Throw e → φ e) →
  triple P m (λ r w, match r with Ok a => Qok a w | Throw e => φ e end).
Proof.
  intros H1 H2 w Hw. specialize (H1 w Hw). specialize (H2 w Hw).
  destruct (m w).1; eauto.
Qed.

Lemma spec_throws {A} I φ (m : M A) :
  spec I φ m → triple I m (λ r w, ∀ e, r = Throw e → φ e).
Proof. intros H w Hw. by destruct (H w Hw). Qed.

Lemma verified_in_store_ext key projectPath w w' :
  featureLists w' = featureLists w → clock w' = clock w →
  verified_in_store key projectPath w' = verified_in_store key projectPath w.
Proof.
  intros Hf Hc. unfold verified_in_store. rewrite !reload_stored.
  unfold stored. by rewrite Hf, Hc.
Qed.

Lemma stable_log_verified key projectPath b :
  stable_log (λ w, verified_in_store key projectPath w = b).
Proof.
  split; intros f w <-; by apply verified_in_store_ext.
Qed.

Lemma reload_verified_run feature projectPath w :
  ∃ co, reload_verified feature projectPath w
        = (Ok (verified_in_store (id feature) projectPath w),
           set_console (λ _, co) w).
Proof.
  unfold reload_verified, bind, verified_in_store. rewrite reload_stored.
  destruct (loadFeatures_run projectPath w) as (co & ->). by exists co.
Qed.

Section Returns.

Variable sdk_query : QueryCall → World → Stream.
Variable renderer : Event → option JsError.

(** The last steps of an invocation: the reload decides [passes]. *)
Lemma triple_conclude feature projectPath (finalMsg : bool → string)
    responseText :
  triple (λ _, True)
    (let! passes := reload_verified feature projectPath in
     do! writeToContextFile projectPath (template (id feature))
           (finalMsg passes) in
     do! sendToRenderer renderer
           (auto_mode_progress (id feature) (finalMsg passes)) in
     ret (mkPhaseResult passes (substring 0 500 responseText)))
    (λ r w, ∀ res, r = Ok res →
            passes res = verified_in_store (id feature) projectPath w).
Proof.
  eapply triple_bind
    with (R := λ r w, ∀ b, r = Ok b →
                      verified_in_store (id feature) projectPath w = b).
  - intros w _. destruct (reload_verified_run feature projectPath w) as (co & ->).
    simpl. intros b [= <-]. by apply verified_in_store_ext.
  - done.
  - intros b.
    eapply triple_conseq
      with (P' := λ w, verified_in_store (id feature) projectPath w = b);
      [|by intros w Hw; apply Hw|by intros r w Hr; exact Hr].
    pose proof (stable_log_verified (id feature) projectPath b) as Hs.
    eapply triple_bind_spec with (φ := λ _, True);
      [apply spec_of_total;
         [apply total_writeToContextFile|by apply preserves_writeToContextFile]
      |done|intros _].
    eapply triple_bind_spec with (φ := λ _, True);
      [by apply spec_sendToRenderer|done|intros _].
    apply triple_ret. by intros w Hw res [= <-].
Qed.

Lemma on_error_returns execution aborted logged error
    (Q : Res PhaseResult → World → Prop) :
  (is_abort error = true → ∀ w, Q (Ok (mkPhaseResult false aborted)) w) →
  (is_abort error = false → ∀ w, Q (Throw error) w) →
  triple (λ _, True) (on_error execution aborted logged error) Q.
Proof.
  intros Ha Hn w _. unfold on_error.
  destruct (is_abort error); [by apply Ha|by apply Hn].
Qed.

End Returns.

Ltac skip_prefix :=
  repeat (cbv zeta;
          lazymatch goal with
          | |- triple _ (bind (reload_verified _ _) _) _ => fail
          | |- triple _ (bind _ _) _ => apply triple_skip; [by intros|intros ?]
          end).

(** A passing result was read off the store. *)
Ltac passes_reflects feature projectPath :=
  apply triple_skip; [done|];
  intros [execution|]; [|by apply triple_throw];
  eapply triple_try_catch
    with (R := λ r w, ∀ res, r = Ok res →
                 passes res = verified_in_store (id feature) projectPath w);
  [ skip_prefix; apply triple_conclude
  | intros res w Hres ? [= <-] ?; by rewrite <- (Hres res eq_refl)
  | intros e; eapply triple_conseq;
    [apply on_error_returns with (Q := λ r _, ∀ res, r = Ok res →
                                         passes res = true → False)
    |done
    |intros r w Hr res Hres Hp; by destruct (Hr res Hres Hp)];
    [by intros _ w res [= <-]|done] ].

Section Reflects.

Variable sdk_query : QueryCall → World → Stream.
Variable renderer : Event → option JsError.

Lemma implementFeature_passes feature projectPath :
  triple (λ _, True) (implementFeature sdk_query renderer feature projectPath)
    (λ r w, ∀ res, r = Ok res → passes res = true →
            verified_in_store (id feature) projectPath w = true).
Proof. unfold implementFeature. passes_reflects feature projectPath. Qed.

Lemma verifyFeatureTests_passes feature projectPath :
  triple (λ _, True) (verifyFeatureTests sdk_query renderer feature projectPath)
    (λ r w, ∀ res, r = Ok res → passes res = true →
            verified_in_store (id feature) projectPath w = true).
Proof. unfold verifyFeatureTests. passes_reflects feature projectPath. Qed.

Lemma resumeFeatureWithContext_passes feature projectPath context :
  triple (λ _, True)
    (resumeFeatureWithContext sdk_query renderer feature projectPath context)
    (λ r w, ∀ res, r = Ok res → passes res = true →
            verified_in_store (id feature) projectPath w = true).
Proof. unfold resumeFeatureWithContext. passes_reflects feature projectPath. Qed.

End Reflects.

Lemma stable_engine_True : stable_engine (λ _, True).
Proof. by repeat split. Qed.

Lemma engine_invariant_True sdk_query projectPath :
  engine_invariant sdk_query projectPath (λ _, True).
Proof. split; [apply stable_engine_True|]. by split. Qed.

(** Without a cancellation, a result says what the store says. *)
Ltac passes_exact feature projectPath Hr Hd :=
  apply triple_skip; [done|];
  intros [execution|]; [|by apply triple_throw];
  eapply triple_try_catch
    with (R := λ r w, match r with
                      | Ok res =>
                          passes res
                          = verified_in_store (id feature) projectPath w
                      | Throw e => non_abort e
                      end);
  [ apply triple_ok_throw;
    [ skip_prefix; apply triple_conclude
    | apply spec_throws;
      let Hs := fresh "Hs" in
      let Ht := fresh "Ht" in
      pose proof stable_engine_True as Hs;
      assert (clock_stable (λ _ : World, True)) by done;
      match goal with |- spec _ _ ?body =>
        match body with context [numbered_steps ?f] =>
          assert (Ht : steps f = None → ∀ m, non_abort (TypeError m)) by done
        end
      end;
      spec_engine_True Hs Hr Hd Ht ]
  | intros res w Hres ? [= <-]; exact Hres
  | intros e w He; unfold on_error; rewrite He; by simpl ].

Section Exact.

Variable sdk_query : QueryCall → World → Stream.
Variable renderer : Event → option JsError.

Lemma implementFeature_passes_exact feature projectPath :
  renderer_throws renderer non_abort → delegate_raises sdk_query non_abort →
  triple (λ _, True) (implementFeature sdk_query renderer feature projectPath)
    (λ r w, ∀ res, r = Ok res →
            passes res = verified_in_store (id feature) projectPath w).
Proof. intros Hr Hd. unfold implementFeature. passes_exact feature projectPath Hr Hd. Qed.

Lemma verifyFeatureTests_passes_exact feature projectPath :
  renderer_throws renderer non_abort → delegate_raises sdk_query non_abort →
  triple (λ _, True) (verifyFeatureTests sdk_query renderer feature projectPath)
    (λ r w, ∀ res, r = Ok res →
            passes res = verified_in_store (id feature) projectPath w).
Proof. intros Hr Hd. unfold verifyFeatureTests. passes_exact feature projectPath Hr Hd. Qed.

Lemma resumeFeatureWithContext_passes_exact feature projectPath context :
  renderer_throws renderer non_abort → delegate_raises sdk_query non_abort →
  triple (λ _, True)
    (resumeFeatureWithContext sdk_query renderer feature projectPath context)
    (λ r w, ∀ res, r = Ok res →
            passes res = verified_in_store (id feature) projectPath w).
Proof. intros Hr Hd. unfold resumeFeatureWithContext. passes_exact feature projectPath Hr Hd. Qed.

End Exact.

(** * The claims *)

(** ** Registration is exclusive *)

(** C1: for a feature id already present in [runningFeatures], each of
    [runFeature], [verifyFeature] and [resumeFeature] throws the
    already-running error and leaves the whole world as it was: no delegate
    call is made, the stored status is not written, and the registry still
    maps the id to the one execution it had. *)
Theorem C1_already_running_rejected sdk_query renderer projectPath featureId w :
  is_Some (runningFeatures w !! featureId) →
  runFeature sdk_query renderer projectPath featureId w
    = (Throw (already_running featureId), w) ∧
  verifyFeature sdk_query renderer projectPath featureId w
    = (Throw (already_running featureId), w) ∧
  resumeFeature sdk_query renderer projectPath featureId w
    = (Throw (already_running featureId), w).
Proof.
  intros Hreg.
  assert (Hhas : has (Some featureId) w = true).
  { unfold has. simpl. by apply bool_decide_eq_true_2. }
  unfold runFeature, verifyFeature, resumeFeature, bind, get.
  by rewrite Hhas.
Qed.

(** ** Stopping *)

Lemma abort_lookup_true c c' (cs : list bool) :
  cs !! c = Some true → abort c' cs !! c = Some true.
Proof.
  intros H. unfold abort. destruct (decide (c' = c)) as [->|Hne].
  - rewrite list_lookup_insert_eq; [done|by eapply lookup_lt_Some].
  - by rewrite list_lookup_insert_ne.
Qed.

Lemma abort_all_length h refs (cs : list bool) :
  length (foldr (abort_execution h) cs refs) = length cs.
Proof.
  induction refs as [|r refs IH]; simpl; [done|].
  unfold abort_execution at 1.
  destruct (h !! r ≫= abortController); [|done].
  unfold abort. by rewrite length_insert.
Qed.

Lemma abort_all_keeps h refs (cs : list bool) c :
  cs !! c = Some true → foldr (abort_execution h) cs refs !! c = Some true.
Proof.
  intros H. induction refs as [|r refs IH]; simpl; [done|].
  unfold abort_execution at 1.
  destruct (h !! r ≫= abortController); [|done]. by apply abort_lookup_true.
Qed.

Lemma abort_all_aborts h refs (cs : list bool) r c :
  r ∈ refs → h !! r ≫= abortController = Some c → (c < length cs)%nat →
  foldr (abort_execution h) cs refs !! c = Some true.
Proof.
  intros Hr Hc Hlen. induction refs as [|r' refs IH]; [by inversion Hr|].
  simpl. apply elem_of_cons in Hr as [<-|Hr].
  - unfold abort_execution at 1. rewrite Hc. unfold abort.
    apply list_lookup_insert_eq. by rewrite abort_all_length.
  - unfold abort_execution at 1.
    destruct (h !! r' ≫= abortController); [|by apply IH].
    apply abort_lookup_true. by apply IH.
Qed.

Lemma stop_exact w :
  stop w =
  (Ok true,
   set_runningFeatures (λ _, ∅)
     (set_controllers
        (λ cs, foldr (abort_execution (executions w))
                 (match autoLoopAbortController w with
                  | Some c => abort c cs
                  | None => cs
                  end)
                 (snd <$> map_to_list (runningFeatures w)))
        (set_autoLoopAbortController None (set_autoLoopRunning false w)))).
Proof. by destruct w as [rf ex cs alr [c|] fl cf cl qs rd co dt]. Qed.

(** C7: [stop] returns, clears the loop flag, aborts the controller of
    every execution the registry holds, and leaves the registry empty; the
    loop-level controller, if there is one, is dropped.  Files, queries and
    executions are not touched. *)
Theorem C7_stop_cancels_everything w :
  ∃ w', stop w = (Ok true, w') ∧
    autoLoopRunning w' = false ∧
    runningFeatures w' = ∅ ∧
    autoLoopAbortController w' = None ∧
    (∀ featureId execution e c,
       runningFeatures w !! featureId = Some execution →
       executions w !! execution = Some e →
       abortController e = Some c →
       (c < length (controllers w))%nat →
       controllers w' !! c = Some true) ∧
    executions w' = executions w ∧ queries w' = queries w ∧
    featureLists w' = featureLists w ∧ contextFiles w' = contextFiles w.
Proof.
  rewrite stop_exact. eexists. split; [done|]. simpl. repeat split; try done.
  intros featureId execution e c Hrf Hex Hc Hlen.
  eapply abort_all_aborts with (r := execution).
  - apply list_elem_of_fmap. exists (featureId, execution). split; [done|].
    by apply elem_of_map_to_list.
  - by rewrite Hex.
  - destruct (autoLoopAbortController w); [|done].
    unfold abort. by rewrite length_insert.
Qed.

(** ** Starting *)

(** C8, as the code has it: [start] throws when the loop flag is set;
    otherwise it sets the flag, launches the loop as a detached task and
    returns at once, touching nothing else: in particular the loop-level
    controller is left as it was.  The launched task catches whatever
    [runLoop] throws and calls [stop]. *)
Theorem C8_start sdk_query renderer projectPath w :
  (autoLoopRunning w = true →
   start projectPath w
     = (Throw (Error "Auto mode loop is already running"), w)) ∧
  (autoLoopRunning w = false →
   start projectPath w
     = (Ok true,
        set_detached (λ l, l ++ [LoopTask projectPath])
          (set_autoLoopRunning true w))) ∧
  (∀ fuel error w1,
     runLoop sdk_query renderer fuel projectPath w = (Throw error, w1) →
     run_task sdk_query renderer fuel (LoopTask projectPath) w
       = (Ok tt,
          (stop (set_console (λ l, l ++ ["[AutoMode] Loop error:"]) w1)).2)).
Proof.
  split; [|split].
  - intros H. unfold start, bind, get. by rewrite H.
  - intros H. unfold start, bind, get. by rewrite H.
  - intros fuel error w1 H. unfold run_task, try_catch, bind. rewrite H.
    unfold console_error, modify.
    match goal with |- context [stop ?w0] =>
      destruct (stop_run w0) as (cs & ->)
    end. done.
Qed.

(** ** Loading the feature list *)

(** C5: [loadFeatures] never throws.  When the list file is missing,
    unreadable, malformed or not an array it returns the empty list, and
    the only trace is a line on the console; otherwise it returns one
    record per record of the file, in order, and a record without an id
    gets the id [feature-<index>-<timestamp>], the other fields and the ids
    that are there being returned as they are. *)
Theorem C5_loadFeatures_total projectPath w :
  ∃ l co,
    loadFeatures projectPath w = (Ok l, set_console (λ _, co) w) ∧
    (load_fails projectPath w → l = []) ∧
    (∀ wr records,
       featureLists w !! projectPath = Some (FLFile wr (FeatureArray records)) →
       co = console w ∧
       length l = length records ∧
       ∀ i r, records !! i = Some r →
         ∃ r', l !! i = Some r' ∧
           category r' = category r ∧ description r' = description r ∧
           steps r' = steps r ∧ status r' = status r ∧
           transient r' = transient r ∧
           (truthy (id r) = true → id r' = id r) ∧
           (truthy (id r) = false →
            id r' = Some ("feature-" +:+ pretty i +:+ "-" +:+ pretty (clock w)))).
Proof.
  unfold load_fails.
  destruct (featureLists w !! projectPath) as [[|wr [raw|raw|records]]|] eqn:E.
  1-3, 5: destruct (loadFeatures_run projectPath w) as (co & Hrun);
    exists (stored projectPath w), co; split; [done|];
    unfold stored; rewrite E; by split.
  exists (imap (with_id (clock w)) records), (console w).
  split; [|split; [done|]].
  - rewrite (loadFeatures_array _ _ _ _ E). by destruct w.
  - intros wr' records' [= <- <-]. split; [done|].
    split; [by rewrite length_imap|].
    intros i r Hi. exists (with_id (clock w) i r).
    rewrite list_lookup_imap, Hi. split; [done|].
    unfold with_id. simpl. repeat split; try done.
    + by intros ->.
    + by intros ->.
Qed.

(** ** Updating a status *)

(** C4, as the code has it: for a feature id found in a writable list file
    of a non-empty project path, [updateFeatureStatus] returns, the stored
    status is the new one, and the context file of the feature is removed
    exactly when the new status is "verified"; when the removal fails (a
    directory sits at the path) the failure is logged and the call still
    returns with the status written.  With another status no context file
    changes.  For an id the list does not have, the call returns with no
    file written and none removed, whatever the status. *)
Theorem C4_log_deleted_when_verified featureId status projectPath w :
  projectPath ≠ "" →
  (∀ c,
     featureLists w !! projectPath = Some (FLFile true c) →
     is_Some (find_by_id featureId (reload projectPath w)) →
     ∃ w', updateFeatureStatus featureId status projectPath w = (Ok tt, w') ∧
       stored_status projectPath featureId w' = Some status ∧
       (∀ content,
          contextFiles w !! (projectPath, featureId) = Some (CtxFile content) →
          (contextFiles w' !! (projectPath, featureId) = None
           ↔ status = "verified")) ∧
       (status ≠ "verified" → contextFiles w' = contextFiles w) ∧
       (contextFiles w !! (projectPath, featureId) = Some CtxDirectory →
        contextFiles w' = contextFiles w ∧
        (status = "verified" →
         console w'
           = console w ++ ["[AutoMode] Failed to delete context file:"]))) ∧
  (find_by_id featureId (reload projectPath w) = None →
   ∃ w', updateFeatureStatus featureId status projectPath w = (Ok tt, w') ∧
     featureLists w' = featureLists w ∧ contextFiles w' = contextFiles w).
Proof.
  intros Hpp. split.
  - intros c Hfile Hfound. rewrite reload_stored in Hfound.
    unfold find_by_id in Hfound.
    destruct (find_feature (Some featureId) (stored projectPath w))
      as [[i f]|] eqn:Hf; [|by destruct Hfound as [? [=]]].
    pose proof (updateFeatureStatus_found _ status _ _ _ _ _ _ Hf Hfile)
      as Hrun.
    simpl in Hrun.
    destruct (updateFeatureStatus featureId status projectPath w)
      as [r w'] eqn:E.
    assert (Hok : r = Ok tt).
    { case_bool_decide; [|by simplify_eq].
      rewrite deleteContextFile_exact in Hrun. by simplify_eq. }
    subst r. exists w'. split; [done|]. split.
    { eapply updateFeatureStatus_status; [|exact E]. by rewrite Hf. }
    case_bool_decide as Hv.
    + rewrite deleteContextFile_exact in Hrun.
      rewrite bool_decide_eq_false_2 in Hrun by done. simpl in Hrun.
      destruct (contextFiles w !! (projectPath, featureId))
        as [[|content]|] eqn:Ec;
        simplify_eq; simpl; repeat split; try done;
        intros; by rewrite ?lookup_delete_eq.
    + simplify_eq. simpl. repeat split; try done; intros; congruence.
  - intros Hnone. rewrite reload_stored in Hnone. unfold find_by_id in Hnone.
    destruct (find_feature (Some featureId) (stored projectPath w))
      as [[i f]|] eqn:Hf; [done|].
    destruct (updateFeatureStatus_missing _ status _ _ Hf) as [co ->].
    eexists. split; [reflexivity|]. by destruct w.
Qed.

(** ** Unknown feature ids *)

Lemma register_unregister featureId projectPath w :
  runningFeatures w !! featureId = None →
  runningFeatures (unregister featureId (register featureId projectPath w).2)
  = runningFeatures w.
Proof.
  intros H. simpl. rewrite delete_insert_eq. by apply delete_id.
Qed.

Section Unknown.

Variable sdk_query : QueryCall → World → Stream.
Variable renderer : Event → option JsError.


End Unknown.


(** ** Cancellation *)

Lemma triple_bind_get {A B} (P : World → Prop) (f : World → A) (k : A → M B)
    (Q : Res B → World → Prop) :
  (∀ a, triple (λ w, P w ∧ f w = a) (k a) Q) →
  triple P (bind (get f) k) Q.
Proof. intros H w Hw. unfold bind, get. by apply (H (f w)). Qed.

Lemma stable_engine_registered key execution :
  stable_engine (registered key execution).
Proof. by repeat split. Qed.

Lemma clock_stable_registered key execution :
  clock_stable (registered key execution).
Proof. by intros f w H. Qed.

Lemma registered_has key execution w :
  registered key execution w → has key w = true.
Proof.
  unfold registered, has. intros ->. by apply bool_decide_eq_true_2.
Qed.

(** A stream that raises is consumed up to the error, as long as the
    registry entry stays and the body of the loop does not throw. *)
Lemma for_await_raises {St} I projectPath key
    (body : Message → St → M St) l last error acc :
  (∀ w, I w → has key w = true) →
  (∀ x, x ∈ concat (fst <$> l) → preserves I (run_effect projectPath x)) →
  (∀ msg a, spec I (λ _, False) (body msg a)) →
  triple I (for_await projectPath key body l last (Raise error) acc)
    (λ r _, r = Throw error).
Proof.
  intros Hhas He Hb. revert acc He.
  induction l as [|[effects msg] l IH]; intros acc He; simpl.
  - intros w Hw. unfold bind.
    destruct (run_effects_total projectPath last w) as (w' & ->). done.
  - eapply triple_bind_spec with (φ := λ _, False); [|done|intros _].
    { apply spec_of_total; [apply total_run_effects|].
      apply preserves_run_effects. intros x Hx. apply He.
      simpl. apply elem_of_app. by left. }
    apply triple_bind_get. intros registered.
    destruct registered; simpl.
    + eapply triple_conseq with (P' := I);
        [|by intros w [? _]|intros ? ? H; exact H].
      eapply triple_bind_spec with (φ := λ _, False); [apply Hb|done|].
      intros acc'. apply IH. intros x Hx. apply He. simpl.
      apply elem_of_app. by right.
    + intros w [Hw Hf]. rewrite (Hhas w Hw) in Hf. discriminate.
Qed.

Ltac returns_step Hs Hr Ht :=
  lazymatch goal with
  | |- triple _ (bind (query_sdk _ _) _) _ => fail
  | |- triple _ (bind (consume _ _ _ _ _) _) _ => fail
  | |- triple _ (bind (reload_verified _ _) _) _ => fail
  | |- triple _ (bind _ _) _ =>
      eapply triple_bind_spec with (φ := λ _, False);
      [ first [ apply spec_sendToRenderer; [apply Hs|apply Hr]
              | apply spec_new_AbortController, Hs
              | apply spec_numbered_steps; apply Ht
              | spec1 ]
      | done
      | intros ? ]
  end.

Lemma triple_bind_query {B} sdk_query (I : World → Prop) call
    (k : nat * Stream → M B) (Q : Res B → World → Prop) :
  (∀ f w, I w → I (set_queries f w)) →
  (∀ q w0, triple I (k (q, sdk_query call w0)) Q) →
  triple I (bind (query_sdk sdk_query call) k) Q.
Proof. intros Hq Hk w Hw. unfold bind, query_sdk. by apply Hk, Hq. Qed.

(** A stream that ends with an error [e] makes the [try] block throw [e]:
    the steps before it return, the stream is consumed to its end. *)
Ltac body_raises Hs Hc Hr Ht Hitems Hend :=
  repeat returns_step Hs Hr Ht;
  apply triple_bind_query; [done|]; intros ? ?; simpl;
  repeat returns_step Hs Hr Ht;
  eapply triple_bind with (R := λ r _, ∃ e, r = Throw e ∧ is_abort e = true);
  [ unfold consume;
    match goal with
    | |- triple ?P (for_await _ _ _ (items (?sdk ?call ?w0)) _ _ _) _ =>
        destruct (Hend call w0) as (error & Herr & Habort); rewrite Herr;
        eapply triple_conseq with (P' := P);
        [ apply for_await_raises with (I := P);
          [ apply registered_has
          | intros x Hx; apply preserves_run_effect_registered;
            intros ->; by apply (Hitems call w0)
          | intros ? ?;
            first [ apply spec_on_message; [apply Hs|apply Hr]
                  | apply spec_on_message_implement; [apply Hs|apply Hr] ] ]
        | intros ? H; exact H
        | intros r ? Hraise; simpl in Hraise; subst r; by exists error ]
    end
  | intros ? ? Hraise; simpl in Hraise;
    let e' := fresh "e" in
    let Heq := fresh "Heq" in
    let Hab := fresh "Hab" in
    destruct Hraise as (e' & Heq & Hab); exists e'; split;
    [by inversion Heq|done]
  | intros ? ? Hraise; simpl in Hraise; by destruct Hraise as (? & [=] & _) ].

Lemma has_not_registered key w :
  has key w = true → key ≫= (λ k, runningFeatures w !! k) ≠ None.
Proof.
  unfold has. intros H Hn. rewrite Hn in H.
  apply bool_decide_eq_true_1 in H. by destruct H.
Qed.

Lemma renderer_never_throws renderer :
  (∀ ev, renderer ev = None) → renderer_throws renderer (λ _, False).
Proof. intros H ev e. by rewrite H. Qed.

Ltac aborted feature Hsteps Hrender Hitems Hend :=
  apply triple_bind_get; intros [execution|];
  [|intros ? [Hhas Hnone]; by destruct (has_not_registered _ _ Hhas)];
  eapply triple_conseq with (P' := registered (id feature) execution);
    [|by intros ? [_ ?]|intros ? ? H; exact H];
  pose proof (stable_engine_registered (id feature) execution) as Hs;
  pose proof (clock_stable_registered (id feature) execution) as Hc;
  pose proof (renderer_never_throws _ Hrender) as Hr;
  assert (Ht : steps feature = None → ∀ m : string, False)
    by (intros Hn; rewrite Hn in Hsteps; by destruct Hsteps);
  eapply triple_try_catch
    with (R := λ r _, ∃ e, r = Throw e ∧ is_abort e = true);
  [ body_raises Hs Hc Hr Ht Hitems Hend
  | intros ? ? H; simpl in H; by destruct H as (? & [=] & _)
  | intros ? ? H; simpl in H;
    let Habort := fresh "Habort" in
    destruct H as (? & [= <-] & Habort);
    unfold on_error; by rewrite Habort ].

Section Cancellation.

Variable sdk_query : QueryCall → World → Stream.
Variable renderer : Event → option JsError.

Hypothesis renderer_takes_all : ∀ ev, renderer ev = None.

(** Every stream ends with a cancellation, and the registry is not
    emptied while its items arrive. *)
Hypothesis streams_abort :
  ∀ call w, ∃ e, ending (sdk_query call w) = Raise e ∧ is_abort e = true.
Hypothesis no_stop_before_items :
  ∀ call w, ConcurrentStop ∉ concat (fst <$> items (sdk_query call w)).

Lemma implementFeature_aborted feature projectPath :
  is_Some (steps feature) →
  triple (λ w, has (id feature) w = true)
    (implementFeature sdk_query renderer feature projectPath)
    (λ r _, r = Ok (mkPhaseResult false "Auto mode aborted")).
Proof.
  intros Hsteps. unfold implementFeature.
  aborted feature Hsteps renderer_takes_all no_stop_before_items streams_abort.
Qed.

Lemma verifyFeatureTests_aborted feature projectPath :
  is_Some (steps feature) →
  triple (λ w, has (id feature) w = true)
    (verifyFeatureTests sdk_query renderer feature projectPath)
    (λ r _, r = Ok (mkPhaseResult false "Verification aborted")).
Proof.
  intros Hsteps. unfold verifyFeatureTests.
  aborted feature Hsteps renderer_takes_all no_stop_before_items streams_abort.
Qed.

Lemma resumeFeatureWithContext_aborted feature projectPath context :
  is_Some (steps feature) →
  triple (λ w, has (id feature) w = true)
    (resumeFeatureWithContext sdk_query renderer feature projectPath context)
    (λ r _, r = Ok (mkPhaseResult false "Resume aborted")).
Proof.
  intros Hsteps. unfold resumeFeatureWithContext.
  aborted feature Hsteps renderer_takes_all no_stop_before_items streams_abort.
Qed.

End Cancellation.

Section NeverPropagated.

Variable sdk_query : QueryCall → World → Stream.
Variable renderer : Event → option JsError.

(** Whatever the delegate and the renderer do, an invocation of the state
    machine throws no cancellation error. *)
Lemma never_propagates_abort feature projectPath context :
  spec (λ _, True) non_abort
    (implementFeature sdk_query renderer feature projectPath) ∧
  spec (λ _, True) non_abort
    (verifyFeatureTests sdk_query renderer feature projectPath) ∧
  spec (λ _, True) non_abort
    (resumeFeatureWithContext sdk_query renderer feature projectPath context).
Proof.
  pose proof (engine_invariant_True sdk_query projectPath) as Hi.
  split; [|split].
  - apply spec_implementFeature; try done; by intros ? **.
  - apply spec_verifyFeatureTests; try done; by intros ? **.
  - apply spec_resumeFeatureWithContext; try done; by intros ? **.
Qed.

End NeverPropagated.

(** C6: an invocation of the state machine never throws a cancellation
    error to its caller, whatever the delegate and the renderer do; and
    when the stream of the delegate raises one (the steps before the stream
    having gone through: the feature is registered and has steps, the
    renderer takes the events, the registry entry is there while the items
    arrive), [implementFeature], [verifyFeatureTests] and
    [resumeFeatureWithContext] return [passes: false] with the message
    "Auto mode aborted", "Verification aborted" and "Resume aborted". *)
Theorem C6_cancellation_is_a_result sdk_query renderer feature projectPath
    previousContext w :
  (∀ e,
     ((implementFeature sdk_query renderer feature projectPath w).1 = Throw e ∨
      (verifyFeatureTests sdk_query renderer feature projectPath w).1 = Throw e ∨
      (resumeFeatureWithContext sdk_query renderer feature projectPath
         previousContext w).1 = Throw e) →
     is_abort e = false) ∧
  ((∀ ev, renderer ev = None) →
   (∀ call w, ∃ e, ending (sdk_query call w) = Raise e ∧ is_abort e = true) →
   (∀ call w, ConcurrentStop ∉ concat (fst <$> items (sdk_query call w))) →
   is_Some (steps feature) →
   has (id feature) w = true →
   (implementFeature sdk_query renderer feature projectPath w).1
     = Ok (mkPhaseResult false "Auto mode aborted") ∧
   (verifyFeatureTests sdk_query renderer feature projectPath w).1
     = Ok (mkPhaseResult false "Verification aborted") ∧
   (resumeFeatureWithContext sdk_query renderer feature projectPath
      previousContext w).1
     = Ok (mkPhaseResult false "Resume aborted")).
Proof.
  split.
  - destruct (never_propagates_abort sdk_query renderer feature projectPath
                previousContext) as (Hi & Hv & Hr).
    intros e [He|[He|He]].
    + by apply (proj2 (Hi w I) e).
    + by apply (proj2 (Hv w I) e).
    + by apply (proj2 (Hr w I) e).
  - intros Hr Hend Hitems Hsteps Hreg. split; [|split].
    + by apply (implementFeature_aborted _ _ Hr Hend Hitems _ _ Hsteps w).
    + by apply (verifyFeatureTests_aborted _ _ Hr Hend Hitems _ _ Hsteps w).
    + by apply
        (resumeFeatureWithContext_aborted _ _ Hr Hend Hitems _ _ _ Hsteps w).
Qed.

(** ** Bounded retries *)

Lemma stable_engine_queries (q : list QueryCall) :
  stable_engine (λ w, queries w = q).
Proof. by repeat split. Qed.

Lemma spec_invariant {A} I φ (m : M A) :
  spec I φ m → triple I m (λ _ w, I w).
Proof. intros H w Hw. by destruct (H w Hw). Qed.

Ltac prefix_step φ0 Hs Hr Ht side :=
  lazymatch goal with
  | |- triple _ (bind (query_sdk _ _) _) _ => fail
  | |- triple _ (bind (consume _ _ _ _ _) _) _ => fail
  | |- triple _ (bind (reload_verified _ _) _) _ => fail
  | |- triple _ (bind _ _) _ =>
      eapply triple_bind_spec with (φ := φ0);
      [ first [ apply spec_sendToRenderer; [apply Hs|apply Hr]
              | apply spec_new_AbortController, Hs
              | apply spec_numbered_steps; apply Ht
              | spec1 ]
      | side
      | intros ? ]
  end.

Lemma triple_bind_query2 {B} sdk_query (I0 I1 : World → Prop) call
    (k : nat * Stream → M B) (Q : Res B → World → Prop) :
  (∀ w, I0 w → I1 (set_queries (λ l, l ++ [call]) w)) →
  (∀ q w0, triple I1 (k (q, sdk_query call w0)) Q) →
  triple I0 (bind (query_sdk sdk_query call) k) Q.
Proof. intros Hq Hk w Hw. unfold bind, query_sdk. by apply Hk, Hq. Qed.

Section OneQuery.

Variable sdk_query : QueryCall → World → Stream.
Variable renderer : Event → option JsError.

Hypothesis renderer_takes_all : ∀ ev, renderer ev = None.

(** A resume attempt that returns has called the delegate exactly once. *)
Lemma resumeFeatureWithContext_one_query feature projectPath context q0 :
  triple (λ w, queries w = q0)
    (resumeFeatureWithContext sdk_query renderer feature projectPath context)
    (λ r w, ∀ res, r = Ok res →
       ∃ call, queries w = q0 ++ [call] ∧ q_kind call = Resume ∧
               q_feature call = feature ∧ q_context call = context).
Proof.
  unfold resumeFeatureWithContext.
  apply triple_bind_get. intros [execution|]; [|by apply triple_throw].
  eapply triple_conseq with (P' := λ w, queries w = q0);
    [|by intros w [? _]|intros ? ? H; exact H].
  pose proof (stable_engine_queries q0) as Hs.
  assert (Hr : renderer_throws renderer non_abort)
    by (intros ev e; by rewrite renderer_takes_all).
  assert (Ht : steps feature = None → ∀ m : string, non_abort (TypeError m))
    by done.
  eapply triple_try_catch
    with (R := λ r w,
            let I1 := ∃ call, queries w = q0 ++ [call] ∧ q_kind call = Resume ∧
                        q_feature call = feature ∧ q_context call = context in
            match r with
            | Ok _ => I1
            | Throw e => is_abort e = true → I1
            end).
  - repeat prefix_step non_abort Hs Hr Ht
      ltac:(intros ? ? _ Hna Hab; unfold non_abort in Hna; congruence).
    match goal with |- triple _ (bind (query_sdk _ ?c) _) _ =>
      set (call := c);
      apply triple_bind_query2 with (I1 := λ w, queries w = q0 ++ [call])
    end.
    { intros w Hw. simpl. by rewrite Hw. }
    intros q w0. simpl.
    eapply triple_conseq
      with (P' := λ w, queries w = q0 ++ [call])
           (Q' := λ _ w, queries w = q0 ++ [call]);
      [|intros ? H; exact H|].
    + apply spec_invariant with (φ := λ _, True).
      pose proof (stable_engine_queries (q0 ++ [call])) as Hs1.
      assert (Hq1 : True) by done.
      assert (He1 : ∀ (c : QueryCall) (w : World) e,
                e ∈ stream_effects (sdk_query c w) →
                preserves (λ w, queries w = q0 ++ [call])
                  (run_effect projectPath e))
        by (intros; apply preserves_run_effect_queries).
      assert (Hr1 : renderer_throws renderer (λ _, True)) by done.
      assert (Hd1 : delegate_raises sdk_query (λ _, True)) by done.
      assert (Ht1 : steps feature = None → ∀ m : string, True) by done.
      spec_engine Hs1 Hq1 He1 Hr1 Hd1 Ht1.
    + intros r w Hw. simpl.
      assert (∃ c, queries w = q0 ++ [c] ∧ q_kind c = Resume ∧
                   q_feature c = feature ∧ q_context c = context)
        by (by exists call).
      by destruct r.
  - intros res w H ? _. exact H.
  - intros e w H. simpl in H. unfold on_error.
    destruct (is_abort e); simpl; [|done].
    intros res _. by apply H.
Qed.

End OneQuery.

Lemma bind_run {A B} (m : M A) (k : A → M B) w a w1 :
  m w = (Ok a, w1) → bind m k w = k a w1.
Proof. intros H. unfold bind. by rewrite H. Qed.

Lemma stored_status_ext projectPath featureId w w' :
  featureLists w' = featureLists w → clock w' = clock w →
  stored_status projectPath featureId w' = stored_status projectPath featureId w.
Proof.
  intros Hf Hc. unfold stored_status. rewrite !reload_stored.
  unfold stored. by rewrite Hf, Hc.
Qed.

Lemma resumable_ext projectPath featureId w w' :
  runningFeatures w' = runningFeatures w →
  featureLists w' = featureLists w → clock w' = clock w →
  resumable projectPath featureId w → resumable projectPath featureId w'.
Proof.
  intros Hr Hf Hc (Hreg & Hfile & Hp & Hst). split; [by rewrite Hr|].
  split; [by rewrite Hf|]. split; [by apply (persisted_same_lists _ _ w)|].
  by rewrite (stored_status_ext _ _ _ _ Hf Hc).
Qed.

Lemma stored_status_found projectPath featureId w s :
  stored_status projectPath featureId w = Some s →
  is_Some (find_feature (Some featureId) (stored projectPath w)).
Proof.
  unfold stored_status, find_by_id. rewrite reload_stored.
  destruct (find_feature _ _); [by eexists|done].
Qed.

(** A status update of a feature that a load finds, in a writable file. *)
Lemma updateFeatureStatus_writable featureId status projectPath w c :
  featureLists w !! projectPath = Some (FLFile true c) →
  is_Some (find_feature (Some featureId) (stored projectPath w)) →
  ∃ w', updateFeatureStatus featureId status projectPath w = (Ok tt, w') ∧
        stored_status projectPath featureId w' = Some status ∧
        queries w' = queries w ∧ runningFeatures w' = runningFeatures w.
Proof.
  intros Hfile [[i f] Hf].
  pose proof (updateFeatureStatus_found _ status _ _ _ _ _ _ Hf Hfile) as Hrun.
  simpl in Hrun.
  destruct (updateFeatureStatus featureId status projectPath w) as [r w'] eqn:E.
  assert (r = Ok tt ∧ queries w' = queries w ∧
          runningFeatures w' = runningFeatures w) as (-> & Hq & Hr).
  { case_bool_decide; [|by simplify_eq].
    rewrite deleteContextFile_exact in Hrun. simplify_eq.
    case_bool_decide; [done|]. simpl.
    by destruct (contextFiles w !! (projectPath, featureId)) as [[|?]|]. }
  exists w'. split; [done|]. split; [|done].
  eapply updateFeatureStatus_status; [|exact E]. by rewrite Hf.
Qed.

Section Retries.

Variable sdk_query : QueryCall → World → Stream.
Variable renderer : Event → option JsError.
Variables (projectPath featureId : string) (feature : Feature).

Hypothesis renderer_takes_all : ∀ ev, renderer ev = None.

(** The delegate always ends while the feature remains in progress. *)
Hypothesis always_stalls :
  ∀ context w, resumable projectPath featureId w →
    ∃ res w',
      resumeFeatureWithContext sdk_query renderer feature projectPath context w
        = (Ok res, w') ∧
      passes res = false ∧ resumable projectPath featureId w'.

Lemma attempt_stalls context w :
  resumable projectPath featureId w →
  ∃ res w' call,
    resumeFeatureWithContext sdk_query renderer feature projectPath context w
      = (Ok res, w') ∧
    passes res = false ∧ resumable projectPath featureId w' ∧
    queries w' = queries w ++ [call] ∧ resume_calls_of feature [call].
Proof.
  intros Hw. destruct (always_stalls context w Hw) as (res & w' & Hrun & Hp & Hw').
  pose proof (resumeFeatureWithContext_one_query sdk_query renderer
                renderer_takes_all feature projectPath context (queries w) w
                eq_refl) as Hq.
  rewrite Hrun in Hq. simpl in Hq.
  destruct (Hq res eq_refl) as (call & Hcalls & Hk & Hf & _).
  exists res, w', call. split; [done|]. split; [done|]. split; [done|].
  split; [done|]. by apply Forall_singleton.
Qed.

Lemma sendToRenderer_run ev w :
  sendToRenderer renderer ev w = (Ok tt, set_rendered (λ l, l ++ [ev]) w).
Proof. unfold sendToRenderer. by rewrite renderer_takes_all. Qed.

Lemma retry_stalls remaining attempts res w :
  resumable projectPath featureId w → passes res = false →
  ∃ res' w' calls,
    retry sdk_query renderer remaining attempts feature projectPath featureId
      res w = (Ok res', w') ∧
    passes res' = false ∧ resumable projectPath featureId w' ∧
    queries w' = queries w ++ calls ∧ length calls = remaining ∧
    resume_calls_of feature calls.
Proof.
  revert attempts res w.
  induction remaining as [|remaining IH]; intros attempts res w Hw Hp.
  - exists res, w, []. simpl. rewrite app_nil_r.
    split; [done|]. split; [done|]. split; [done|]. split; [done|].
    split; [done|]. apply Forall_nil_2.
  - simpl. rewrite Hp.
    destruct (loadFeatures_run projectPath w) as (co & Hload).
    rewrite (bind_run _ _ _ _ _ Hload).
    assert (Hst : strict_eq
                    (find_by_id featureId (stored projectPath w) ≫= status)
                    "in_progress" = true).
    { destruct Hw as (_ & _ & _ & Hs). unfold stored_status in Hs.
      rewrite reload_stored in Hs. rewrite Hs. by apply bool_decide_eq_true_2. }
    rewrite Hst.
    match goal with |- context [bind (writeToContextFile ?p ?f ?c) _ ?w0] =>
      destruct (writeToContextFile_run p f c w0) as (cf & co' & Hwrite)
    end.
    rewrite (bind_run _ _ _ _ _ Hwrite).
    rewrite (bind_run _ _ _ _ _ (sendToRenderer_run _ _)).
    match goal with |- context [bind (readContextFile ?p ?f) _ ?w0] =>
      destruct (readContextFile_run p f w0) as (c & Hread);
      assert (Hw0 : resumable projectPath featureId w0)
        by (by eapply resumable_ext; [..|exact Hw])
    end.
    rewrite (bind_run _ _ _ _ _ Hread).
    destruct (attempt_stalls c _ Hw0)
      as (res1 & w1 & call & Hrun & Hp1 & Hw1 & Hq1 & Hc1).
    rewrite (bind_run _ _ _ _ _ Hrun).
    destruct (IH (S attempts) res1 w1 Hw1 Hp1)
      as (res' & w' & calls & Hrun' & Hp' & Hw' & Hq' & Hlen & Hcs).
    exists res', w', (call :: calls). split; [done|].
    split; [done|]. split; [done|]. split; [|split].
    + rewrite Hq', Hq1. simpl. by rewrite <- app_assoc.
    + simpl. by rewrite Hlen.
    + apply Forall_cons. split; [|done].
      by apply (proj1 (Forall_singleton _ _) Hc1).
Qed.

End Retries.

(** C2: take a delegate that always ends while the feature remains in
    progress: from any world in which the feature is registered and stored
    under its id as "in_progress" in a writable list file, a resume attempt
    returns a result that does not pass and leaves such a world.  Then, the renderer
    taking its events, [resumeFeature] on a feature that is stored as
    "in_progress" and not running returns [passes: false] after exactly
    four calls of the delegate, the first attempt and [maxAttempts] = 3
    retries, all of them resume calls for that feature. *)
Theorem C2_resume_retries_bounded sdk_query renderer projectPath featureId
    feature w :
  (∀ ev, renderer ev = None) →
  runningFeatures w !! featureId = None →
  find_by_id featureId (reload projectPath w) = Some feature →
  in_progress_writable projectPath featureId w →
  (∀ context w1, resumable projectPath featureId w1 →
     ∃ res w2,
       resumeFeatureWithContext sdk_query renderer feature projectPath
         context w1 = (Ok res, w2) ∧
       passes res = false ∧ resumable projectPath featureId w2) →
  ∃ w' calls,
    resumeFeature sdk_query renderer projectPath featureId w
      = (Ok (mkRunResult true false), w') ∧
    queries w' = queries w ++ calls ∧ length calls = 4%nat ∧
    resume_calls_of feature calls ∧
    stored_status projectPath featureId w' = Some "in_progress".
Proof.
  intros Hr Hreg Hfeature Hin Hstall.
  assert (Hhas : has (Some featureId) w = false).
  { unfold has. simpl. rewrite Hreg. apply bool_decide_eq_false_2.
    by intros [? [=]]. }
  unfold resumeFeature.
  rewrite (bind_run (get (has (Some featureId))) _ w _ w eq_refl), Hhas.
  unfold bind at 1, register at 1, modify.
  set (w1 := set_runningFeatures _ _).
  assert (Hw1 : resumable projectPath featureId w1).
  { split; [simpl; rewrite lookup_insert_eq; by eexists|].
    destruct Hin as (Hfile & Hp & Hst). split; [exact Hfile|].
    split; [exact Hp|]. rewrite <- Hst. by apply stored_status_ext. }
  unfold try_finally, try_catch.
  destruct (loadFeatures_run projectPath w1) as (co & Hload).
  rewrite (bind_run _ _ _ _ _ Hload).
  rewrite reload_stored in Hfeature.
  change (stored projectPath w1) with (stored projectPath w).
  rewrite Hfeature.
  rewrite (bind_run _ _ _ _ _ (sendToRenderer_run _ Hr _ _)).
  match goal with |- context [bind (readContextFile ?p ?f) _ ?w0] =>
    destruct (readContextFile_run p f w0) as (c & Hread);
    assert (Hw0 : resumable projectPath featureId w0)
      by (by eapply resumable_ext; [..|exact Hw1])
  end.
  rewrite (bind_run _ _ _ _ _ Hread).
  destruct (attempt_stalls _ _ _ _ _ Hr Hstall c _ Hw0)
    as (res1 & w2 & call & Hrun & Hp1 & Hw2 & Hq2 & Hc2).
  rewrite (bind_run _ _ _ _ _ Hrun).
  destruct (retry_stalls _ _ _ _ _ Hr Hstall maxAttempts 0%nat res1 w2 Hw2 Hp1)
    as (res' & w3 & calls & Hrun' & Hp' & Hw3 & Hq3 & Hlen & Hcs).
  rewrite (bind_run _ _ _ _ _ Hrun'). rewrite Hp'.
  destruct Hw3 as (Hreg3 & [c3 Hfile3] & _ & Hst3).
  destruct (updateFeatureStatus_writable featureId "in_progress" projectPath
              w3 c3 Hfile3 (stored_status_found _ _ _ _ Hst3))
    as (w4 & Hupd & Hst4 & Hq4 & _).
  rewrite (bind_run _ _ _ _ _ Hupd).
  rewrite (bind_run _ _ _ _ _ (sendToRenderer_run _ Hr _ _)).
  simpl. eexists. exists (call :: calls). split; [done|]. simpl.
  split; [|split; [|split]].
  - rewrite Hq4, Hq3, Hq2. simpl. by rewrite <- app_assoc.
  - by rewrite Hlen.
  - apply Forall_cons. split; [|done].
    by apply (proj1 (Forall_singleton _ _) Hc2).
  - rewrite <- Hst4. by apply stored_status_ext.
Qed.

(** ** Status resolution *)

Lemma bind_Ok {A B} (m : M A) (k : A → M B) w b w' :
  bind m k w = (Ok b, w') →
  ∃ a w1, m w = (Ok a, w1) ∧ k a w1 = (Ok b, w').
Proof.
  unfold bind. destruct (m w) as [[a|e] w1]; [eauto|discriminate].
Qed.

Lemma try_finally_inv {A} (body : M A) cleanup w r w' :
  try_finally body cleanup w = (r, w') →
  ∃ w1, body w = (r, w1) ∧ w' = cleanup w1.
Proof.
  unfold try_finally. destruct (body w) as [r1 w1]. intros [= <- <-]. eauto.
Qed.

Lemma find_by_id_id featureId l f :
  find_by_id featureId l = Some f → id f = Some featureId.
Proof.
  unfold find_by_id. destruct (find_feature _ _) as [[i x]|] eqn:E; [|done].
  intros [= <-]. by apply find_feature_Some in E as (_ & ? & _).
Qed.

Lemma find_by_id_found featureId l f :
  find_by_id featureId l = Some f → is_Some (find_feature (Some featureId) l).
Proof.
  unfold find_by_id. destruct (find_feature _ _); [by eexists|done].
Qed.

Lemma verified_in_store_status featureId projectPath w :
  verified_in_store (Some featureId) projectPath w = true ↔
  stored_status projectPath featureId w = Some "verified".
Proof.
  unfold verified_in_store, stored_status, find_by_id, strict_eq.
  apply bool_decide_eq_true.
Qed.

Lemma updateFeatureStatus_keeps_log featureId status projectPath w :
  status ≠ "verified" →
  contextFiles (updateFeatureStatus featureId status projectPath w).2
  = contextFiles w.
Proof.
  intros Hs.
  destruct (find_feature (Some featureId) (stored projectPath w))
    as [[i f]|] eqn:Hfound.
  - destruct (found_array _ _ _ _ _ Hfound) as (wr & l & Hfile).
    rewrite (updateFeatureStatus_found _ status _ _ _ _ _ _ Hfound Hfile).
    destruct wr; [|done]. simpl. by rewrite bool_decide_eq_false_2.
  - by destruct (updateFeatureStatus_missing _ status _ _ Hfound) as (co & ->).
Qed.

Lemma stable_engine_persisted pp fid : stable_engine (persisted pp fid).
Proof. split; [split|..]; intros f w H; exact H. Qed.

Section Resolution.

Variable sdk_query : QueryCall → World → Stream.
Variable renderer : Event → option JsError.
Variable projectPath : string.

(** The delegate changes the list file through the status tool only. *)
Hypothesis tool_only :
  ∀ call w node,
    OverwriteFeatureList projectPath node ∉ stream_effects (sdk_query call w).

Lemma engine_invariant_persisted fid :
  engine_invariant sdk_query projectPath (persisted projectPath fid).
Proof.
  split; [apply stable_engine_persisted|]. split; [done|].
  intros call w e He. apply preserves_run_effect_persisted.
  intros node ->. by apply (tool_only call w node).
Qed.

Lemma report_Ok (body : M RunResult) logged featureId w r w' :
  try_catch body (report renderer logged featureId) w = (Ok r, w') →
  body w = (Ok r, w').
Proof.
  unfold try_catch. destruct (body w) as [[a|e] w1]; [done|].
  unfold report, bind, console_error, modify, sendToRenderer.
  by destruct (renderer _).
Qed.

Lemma sendToRenderer_Ok ev w w' :
  sendToRenderer renderer ev w = (Ok tt, w') →
  w' = set_rendered (λ l, l ++ [ev]) w.
Proof.
  unfold sendToRenderer. destruct (renderer ev); [done|]. by intros [= <-].
Qed.

Lemma get_Ok {A} (f : World → A) w a w' :
  get f w = (Ok a, w') → a = f w ∧ w' = w.
Proof. by intros [= <- <-]. Qed.

Lemma persisted_keeps_found fid w :
  persisted projectPath fid w →
  is_Some (find_feature (Some fid) (stored projectPath w)).
Proof. intros H. destruct (persisted_found _ _ _ H) as (i & f & ->). by eexists. Qed.

(** What the entry points do once the state machine has returned. *)
Lemma resolve fid feature res fail_status w6 r w2 :
  id feature = Some fid →
  fail_status ≠ "verified" →
  persisted projectPath fid w6 →
  (let newStatus := if passes res then "verified" else fail_status in
   do! updateFeatureStatus fid newStatus projectPath in
   do! sendToRenderer renderer (auto_mode_feature_complete (id feature)
         (passes res) (message res)) in
   ret (mkRunResult true (passes res))) w6 = (Ok r, w2) →
  result_passes r = passes res ∧
  stored_status projectPath fid w2
    = Some (if passes res then "verified" else fail_status) ∧
  (passes res = false → contextFiles w2 = contextFiles w6) ∧
  runningFeatures w2 = runningFeatures w6 ∧ queries w2 = queries w6.
Proof.
  intros Hid Hfail Hp6 H. simpl in H.
  apply bind_Ok in H as ([] & w7 & Hupd & H).
  apply bind_Ok in H as ([] & w8 & Hsend & H).
  apply sendToRenderer_Ok in Hsend as ->. injection H as <- <-.
  destruct (updateFeatureStatus_status _ _ _ _ _
              (persisted_keeps_found _ _ Hp6) Hupd) as [_ Hst].
  split; [done|]. split; [|split; [|split]].
  - rewrite <- Hst. by apply stored_status_ext.
  - intros Hpass. rewrite Hpass in Hupd. simpl.
    pose proof (updateFeatureStatus_keeps_log fid fail_status projectPath w6
                  Hfail) as Hk.
    by rewrite Hupd in Hk.
  - simpl.
    destruct (persisted_keeps_found _ _ Hp6) as [[i f] Hf].
    destruct (found_array _ _ _ _ _ Hf) as (wr & l & Hfile).
    destruct wr.
    + destruct (updateFeatureStatus_writable fid
                  (if passes res then "verified" else fail_status)
                  projectPath w6 _ Hfile (persisted_keeps_found _ _ Hp6))
        as (w7' & Hupd' & _ & _ & Hrf).
      rewrite Hupd in Hupd'. by simplify_eq.
    + rewrite (updateFeatureStatus_found _ _ _ _ _ _ _ _ Hf Hfile) in Hupd.
      discriminate.
  - simpl.
    destruct (persisted_keeps_found _ _ Hp6) as [[i f] Hf].
    destruct (found_array _ _ _ _ _ Hf) as (wr & l & Hfile).
    destruct wr.
    + destruct (updateFeatureStatus_writable fid
                  (if passes res then "verified" else fail_status)
                  projectPath w6 _ Hfile (persisted_keeps_found _ _ Hp6))
        as (w7' & Hupd' & _ & Hq & _).
      rewrite Hupd in Hupd'. by simplify_eq.
    + rewrite (updateFeatureStatus_found _ _ _ _ _ _ _ _ Hf Hfile) in Hupd.
      discriminate.
Qed.

Lemma implementFeature_result fid feature w5 res w6 :
  id feature = Some fid →
  implementFeature sdk_query renderer feature projectPath w5 = (Ok res, w6) →
  invocation_result sdk_query renderer projectPath fid res w6.
Proof.
  intros Hid Hrun. split.
  - intros Hp. apply verified_in_store_status. rewrite <- Hid.
    pose proof (implementFeature_passes sdk_query renderer feature projectPath
                  w5 Logic.I) as H.
    rewrite Hrun in H. by apply (H res).
  - intros Hr Hd. rewrite <- verified_in_store_status, <- Hid.
    pose proof (implementFeature_passes_exact sdk_query renderer feature
                  projectPath Hr Hd w5 Logic.I) as H.
    rewrite Hrun in H. by rewrite (H res eq_refl).
Qed.

Lemma verifyFeatureTests_result fid feature w5 res w6 :
  id feature = Some fid →
  verifyFeatureTests sdk_query renderer feature projectPath w5 = (Ok res, w6) →
  invocation_result sdk_query renderer projectPath fid res w6.
Proof.
  intros Hid Hrun. split.
  - intros Hp. apply verified_in_store_status. rewrite <- Hid.
    pose proof (verifyFeatureTests_passes sdk_query renderer feature
                  projectPath w5 Logic.I) as H.
    rewrite Hrun in H. by apply (H res).
  - intros Hr Hd. rewrite <- verified_in_store_status, <- Hid.
    pose proof (verifyFeatureTests_passes_exact sdk_query renderer feature
                  projectPath Hr Hd w5 Logic.I) as H.
    rewrite Hrun in H. by rewrite (H res eq_refl).
Qed.

Lemma runFeature_resolved fid w r w' :
  runFeature sdk_query renderer projectPath fid w = (Ok r, w') →
  ∃ feature w5 res w6,
    id feature = Some fid ∧
    implementFeature sdk_query renderer feature projectPath w5 = (Ok res, w6) ∧
    invocation_result sdk_query renderer projectPath fid res w6 ∧
    result_passes r = passes res ∧
    stored_status projectPath fid w'
      = Some (if passes res then "verified" else "backlog") ∧
    (passes res = false → contextFiles w' = contextFiles w6).
Proof.
  intros H. unfold runFeature in H.
  apply bind_Ok in H as (running & w0 & Hget & H).
  apply get_Ok in Hget as [-> ->].
  destruct (has (Some fid) w); [discriminate|].
  apply bind_Ok in H as ([] & w1 & _ & H).
  apply try_finally_inv in H as (w2 & H & ->).
  apply report_Ok in H.
  apply bind_Ok in H as (features & w3 & Hload & H).
  destruct (loadFeatures_run projectPath w1) as (co & Hload').
  rewrite Hload in Hload'. injection Hload' as -> ->.
  destruct (find_by_id fid (stored projectPath w1)) as [feature|] eqn:Hfind;
    [|discriminate].
  pose proof (find_by_id_id _ _ _ Hfind) as Hid.
  apply bind_Ok in H as ([] & w4 & Hupd & H).
  destruct (updateFeatureStatus_status fid "in_progress" projectPath
              (set_console (λ _, co) w1) w4
              (find_by_id_found _ _ _ Hfind) Hupd) as [Hp4 _].
  apply bind_Ok in H as ([] & w5 & Hsend & H).
  apply sendToRenderer_Ok in Hsend.
  assert (Hp5 : persisted projectPath fid w5) by (by subst w5).
  apply bind_Ok in H as (res & w6 & Hrun & H).
  assert (Hp6 : persisted projectPath fid w6).
  { pose proof (spec_preserves _ _ _
        (spec_implementFeature sdk_query renderer (persisted projectPath fid)
           (λ _, True) feature projectPath (engine_invariant_persisted fid)
           (λ f w Hw, Hw) Logic.I (λ _ _ _ _, Logic.I) (λ _ _ _ _ _, Logic.I)
           (λ _ _, Logic.I))) as Hpres.
    specialize (Hpres _ Hp5). by rewrite Hrun in Hpres. }
  rewrite Hid in H. simpl in H. rewrite <- Hid in H.
  change (template (Some fid)) with fid in H.
  destruct (resolve fid feature res "backlog" w6 r w2 Hid) as
    (Hr & Hst & Hlog & _); [done|done| |].
  { rewrite <- H. by rewrite Hid. }
  exists feature, w5, res, w6. split; [done|]. split; [exact Hrun|].
  split; [by eapply implementFeature_result|]. split; [done|].
  split; [|done]. rewrite <- Hst. by apply stored_status_ext.
Qed.

Lemma resumeFeatureWithContext_result fid feature context w5 res w6 :
  id feature = Some fid →
  resumeFeatureWithContext sdk_query renderer feature projectPath context w5
    = (Ok res, w6) →
  invocation_result sdk_query renderer projectPath fid res w6.
Proof.
  intros Hid Hrun. split.
  - intros Hp. apply verified_in_store_status. rewrite <- Hid.
    pose proof (resumeFeatureWithContext_passes sdk_query renderer feature
                  projectPath context w5 Logic.I) as H.
    rewrite Hrun in H. by apply (H res).
  - intros Hr Hd. rewrite <- verified_in_store_status, <- Hid.
    pose proof (resumeFeatureWithContext_passes_exact sdk_query renderer
                  feature projectPath context Hr Hd w5 Logic.I) as H.
    rewrite Hrun in H. by rewrite (H res eq_refl).
Qed.

Lemma preserves_persisted_verifyFeatureTests fid feature :
  preserves (persisted projectPath fid)
    (verifyFeatureTests sdk_query renderer feature projectPath).
Proof.
  eapply spec_preserves.
  by apply (spec_verifyFeatureTests sdk_query renderer
              (persisted projectPath fid) (λ _, True) feature projectPath
              (engine_invariant_persisted fid)).
Qed.

Lemma preserves_persisted_resumeFeatureWithContext fid feature context :
  spec (persisted projectPath fid) (λ _, True)
    (resumeFeatureWithContext sdk_query renderer feature projectPath context).
Proof.
  by apply (spec_resumeFeatureWithContext sdk_query renderer
              (persisted projectPath fid) (λ _, True) feature projectPath
              context (engine_invariant_persisted fid)).
Qed.

Lemma preserves_persisted_retry fid remaining attempts feature featureId res :
  spec (persisted projectPath fid) (λ _, True)
    (retry sdk_query renderer remaining attempts feature projectPath
       featureId res).
Proof.
  pose proof (stable_engine_persisted projectPath fid) as Hs.
  revert attempts res. induction remaining as [|remaining IH];
    intros attempts res; simpl; [apply spec_ret|].
  repeat first
    [ apply preserves_persisted_resumeFeatureWithContext
    | apply IH
    | apply spec_sendToRenderer; [apply Hs|done]
    | spec1 ].
Qed.

Lemma verifyFeature_resolved fid w r w' :
  persisted projectPath fid w →
  verifyFeature sdk_query renderer projectPath fid w = (Ok r, w') →
  ∃ feature w5 res w6,
    id feature = Some fid ∧
    verifyFeatureTests sdk_query renderer feature projectPath w5
      = (Ok res, w6) ∧
    invocation_result sdk_query renderer projectPath fid res w6 ∧
    result_passes r = passes res ∧
    stored_status projectPath fid w'
      = Some (if passes res then "verified" else "in_progress") ∧
    (passes res = false → contextFiles w' = contextFiles w6).
Proof.
  intros Hp H. unfold verifyFeature in H.
  apply bind_Ok in H as (running & w0 & Hget & H).
  apply get_Ok in Hget as [-> ->].
  destruct (has (Some fid) w); [discriminate|].
  apply bind_Ok in H as ([] & w1 & Hreg & H).
  assert (Hp1 : persisted projectPath fid w1) by (by injection Hreg as <-).
  apply try_finally_inv in H as (w2 & H & ->).
  apply report_Ok in H.
  apply bind_Ok in H as (features & w3 & Hload & H).
  destruct (loadFeatures_run projectPath w1) as (co & Hload').
  rewrite Hload in Hload'. injection Hload' as -> Hw3.
  assert (Hp3 : persisted projectPath fid w3) by (by subst w3).
  destruct (find_by_id fid (stored projectPath w1)) as [feature|] eqn:Hfind;
    [|discriminate].
  pose proof (find_by_id_id _ _ _ Hfind) as Hid.
  apply bind_Ok in H as ([] & w5 & Hsend & H).
  apply sendToRenderer_Ok in Hsend.
  assert (Hp5 : persisted projectPath fid w5) by (by subst w5).
  apply bind_Ok in H as (res & w6 & Hrun & H).
  assert (Hp6 : persisted projectPath fid w6).
  { pose proof (preserves_persisted_verifyFeatureTests fid feature w5 Hp5) as Hpres.
    by rewrite Hrun in Hpres. }
  destruct (resolve fid feature res "in_progress" w6 r w2 Hid) as
    (Hr & Hst & Hlog & _); [done|done|exact H|].
  exists feature, w5, res, w6. split; [done|]. split; [exact Hrun|].
  split; [by eapply verifyFeatureTests_result|]. split; [done|].
  split; [|done]. rewrite <- Hst. by apply stored_status_ext.
Qed.

Lemma resumeFeature_resolved fid w r w' :
  persisted projectPath fid w →
  resumeFeature sdk_query renderer projectPath fid w = (Ok r, w') →
  stored_status projectPath fid w'
    = Some (if result_passes r then "verified" else "in_progress").
Proof.
  intros Hp H. unfold resumeFeature in H.
  apply bind_Ok in H as (running & w0 & Hget & H).
  apply get_Ok in Hget as [-> ->].
  destruct (has (Some fid) w); [discriminate|].
  apply bind_Ok in H as ([] & w1 & Hreg & H).
  assert (Hp1 : persisted projectPath fid w1) by (by injection Hreg as <-).
  apply try_finally_inv in H as (w2 & H & ->).
  apply report_Ok in H.
  apply bind_Ok in H as (features & w3 & Hload & H).
  destruct (loadFeatures_run projectPath w1) as (co & Hload').
  rewrite Hload in Hload'. injection Hload' as -> Hw3.
  assert (Hp3 : persisted projectPath fid w3) by (by subst w3).
  destruct (find_by_id fid (stored projectPath w1)) as [feature|] eqn:Hfind;
    [|discriminate].
  pose proof (find_by_id_id _ _ _ Hfind) as Hid.
  apply bind_Ok in H as ([] & w5 & Hsend & H).
  apply sendToRenderer_Ok in Hsend.
  assert (Hp5 : persisted projectPath fid w5) by (by subst w5).
  apply bind_Ok in H as (context & w5' & Hread & H).
  destruct (readContextFile_run projectPath fid w5) as (c & Hread').
  rewrite Hread in Hread'. injection Hread' as -> ->.
  apply bind_Ok in H as (res & w6 & Hrun & H).
  assert (Hp6 : persisted projectPath fid w6).
  { pose proof (spec_preserves _ _ _
                  (preserves_persisted_resumeFeatureWithContext fid feature c)
                  w5 Hp5) as Hpres.
    by rewrite Hrun in Hpres. }
  apply bind_Ok in H as (final & w7 & Hretry & H).
  assert (Hp7 : persisted projectPath fid w7).
  { pose proof (spec_preserves _ _ _
                  (preserves_persisted_retry fid maxAttempts 0%nat feature fid
                     res) w6 Hp6) as Hpres.
    by rewrite Hretry in Hpres. }
  destruct (resolve fid feature final "in_progress" w7 r w2 Hid) as
    (Hr & Hst & _); [done|done|exact H|].
  rewrite Hr, <- Hst. by apply stored_status_ext.
Qed.

End Resolution.


(** C10: let the delegate change the list file through the status tool
    only.  A [resumeFeature] that returns a result that does not pass, for
    a feature whose record carries its id in the file, has stored
    "in_progress", whatever status the delegate stored during the run. *)
Theorem C10_resume_failure_stores_in_progress sdk_query renderer projectPath
    featureId w r w' :
  (∀ call w0 node,
     OverwriteFeatureList projectPath node
     ∉ stream_effects (sdk_query call w0)) →
  persisted projectPath featureId w →
  resumeFeature sdk_query renderer projectPath featureId w = (Ok r, w') →
  result_passes r = false →
  stored_status projectPath featureId w' = Some "in_progress".
Proof.
  intros Htool Hp Hrun Hr.
  rewrite (resumeFeature_resolved _ _ _ Htool _ _ _ _ Hp Hrun). by rewrite Hr.
Qed.

(** ** A delegate that does nothing *)

Lemma stable_engine_resumable pp fid : stable_engine (resumable pp fid).
Proof.
  split; [split|..]; intros f w H; apply (resumable_ext pp fid w); done.
Qed.

Lemma resumable_not_verified pp fid feature w :
  id feature = Some fid → resumable pp fid w →
  verified_in_store (id feature) pp w = false.
Proof.
  intros Hid (_ & _ & _ & Hst). rewrite Hid.
  destruct (verified_in_store (Some fid) pp w) eqn:E; [|done].
  apply verified_in_store_status in E. congruence.
Qed.

Section Quiet.

Variable sdk_query : QueryCall → World → Stream.
Variable renderer : Event → option JsError.
Variables (projectPath featureId : string) (feature : Feature).

Hypothesis renderer_takes_all : ∀ ev, renderer ev = None.
Hypothesis quiet : ∀ call w, sdk_query call w = mkStream [] [] Done.
Hypothesis feature_id : id feature = Some featureId.
Hypothesis feature_steps : is_Some (steps feature).

(** A delegate that ends at once, without a word or a tool call, leaves
    a feature in progress as it is. *)
Lemma quiet_delegate_stalls context w :
  resumable projectPath featureId w →
  ∃ res w',
    resumeFeatureWithContext sdk_query renderer feature projectPath context w
      = (Ok res, w') ∧
    passes res = false ∧ resumable projectPath featureId w'.
Proof.
  intros Hw.
  cut (triple (resumable projectPath featureId)
         (resumeFeatureWithContext sdk_query renderer feature projectPath
            context)
         (λ r w', (∃ res, r = Ok res ∧ passes res = false) ∧
                  resumable projectPath featureId w')).
  { intros H. specialize (H w Hw). simpl in H.
    destruct (resumeFeatureWithContext _ _ _ _ _ w) as [r w'].
    simpl in H. destruct H as [(res & -> & Hp) Hw']. by exists res, w'. }
  clear w Hw. unfold resumeFeatureWithContext.
  apply triple_bind_get. intros [execution|].
  2: { intros w [(Hreg & _) Hnone]. rewrite feature_id in Hnone.
       simpl in Hnone. rewrite Hnone in Hreg. by destruct Hreg. }
  eapply triple_conseq with (P' := resumable projectPath featureId);
    [|by intros w [? _]|intros ? ? H; exact H].
  pose proof (stable_engine_resumable projectPath featureId) as Hs.
  pose proof (renderer_never_throws _ renderer_takes_all) as Hr.
  assert (Ht : steps feature = None → ∀ m : string, False).
  { intros Hn. rewrite Hn in feature_steps. by destruct feature_steps. }
  eapply triple_try_catch
    with (R := λ r w', (∃ res, r = Ok res ∧ passes res = false) ∧
                       resumable projectPath featureId w').
  - repeat returns_step Hs Hr Ht.
    apply triple_bind_query.
    { intros f w H. by apply (resumable_ext projectPath featureId w). }
    intros q w0. simpl. rewrite quiet.
    repeat returns_step Hs Hr Ht.
    eapply triple_bind_spec with (φ := λ _, False); [|done|intros responseText].
    { apply spec_consume; [by intros x [] %elem_of_nil| |done].
      intros ? ?. apply spec_on_message; [apply Hs|apply Hr]. }
    repeat returns_step Hs Hr Ht.
    eapply triple_bind
      with (R := λ r w', r = Ok false ∧ resumable projectPath featureId w').
    { intros w Hw. destruct (reload_verified_run feature projectPath w) as (co & ->).
      simpl. split.
      - f_equal. by eapply resumable_not_verified.
      - by apply (resumable_ext projectPath featureId w). }
    { by intros e w [[=] _]. }
    intros b.
    eapply triple_conseq with (P' := λ w, b = false ∧
                                     resumable projectPath featureId w);
      [|intros w [[= ->] ?]; by split|intros ? ? H; exact H].
    intros w [-> Hw]. revert w Hw.
    change (triple (resumable projectPath featureId)
              (do! writeToContextFile projectPath (template (id feature))
                     ("⚠ Feature still in progress - may need additional work"
                      +:+ nl) in
               do! sendToRenderer renderer
                     (auto_mode_progress (id feature)
                        ("⚠ Feature still in progress - may need additional work"
                         +:+ nl)) in
               ret (mkPhaseResult false (substring 0 500 responseText)))
              (λ r w', (∃ res, r = Ok res ∧ passes res = false) ∧
                       resumable projectPath featureId w')).
    repeat returns_step Hs Hr Ht.
    apply triple_ret. intros w Hw. split; [|done]. by eexists.
  - intros res w H. exact H.
  - intros e w [(res & [=] & _) _].
Qed.

End Quiet.

(** ** The claims on concrete runs *)

Lemma C1_already_running_rejected_witness :
  is_Some (runningFeatures busy !! "f1") ∧
  runFeature does_nothing takes_all "/p" "f1" busy
    = (Throw (already_running "f1"), busy) ∧
  verifyFeature does_nothing takes_all "/p" "f1" busy
    = (Throw (already_running "f1"), busy) ∧
  resumeFeature does_nothing takes_all "/p" "f1" busy
    = (Throw (already_running "f1"), busy).
Proof.
  assert (H : is_Some (runningFeatures busy !! "f1")) by (by eexists).
  split; [exact H|].
  exact (C1_already_running_rejected does_nothing takes_all "/p" "f1" busy H).
Defined.

Lemma C7_stop_cancels_everything_witness :
  ∃ w', stop busy = (Ok true, w') ∧ autoLoopRunning w' = false ∧
        runningFeatures w' = ∅ ∧ controllers w' !! 0%nat = Some true.
Proof.
  destruct (C7_stop_cancels_everything busy)
    as (w' & Hrun & Hflag & Hreg & _ & Habort & _).
  exists w'. split; [exact Hrun|]. split; [exact Hflag|]. split; [exact Hreg|].
  apply (Habort "f1" 0%nat (mkExecution (Some 0%nat) (Some 0%nat) "/p") 0%nat);
    [reflexivity|reflexivity|reflexivity|simpl; lia].
Defined.

(** C8 fails as stated: a successful [start] opens no loop-level
    cancellation token. *)
Lemma C8_counterexample :
  (start "/p" (project [login])).1 = Ok true ∧
  ¬ ∃ c, autoLoopAbortController (start "/p" (project [login])).2 = Some c.
Proof. split; [reflexivity|]. by intros [c [=]]. Qed.

Lemma C8_start_witness :
  let started := (start "/p" (project [login])).2 in
  autoLoopRunning (project [login]) = false ∧
  (start "/p" (project [login])).1 = Ok true ∧
  autoLoopRunning started = true ∧ detached started = [LoopTask "/p"] ∧
  (runLoop does_nothing window_closed 1 "/p" started).1
    = Throw (Error "Object has been destroyed") ∧
  autoLoopRunning
    (run_task does_nothing window_closed 1 (LoopTask "/p") started).2 = false.
Proof.
  intros started.
  destruct (C8_start does_nothing window_closed "/p" (project [login]))
    as (_ & Hstart & _).
  destruct (C8_start does_nothing window_closed "/p" started)
    as (_ & _ & Htrap).
  split; [reflexivity|]. split; [reflexivity|]. split; [reflexivity|].
  split; [reflexivity|]. split; [by vm_compute|].
  rewrite (Htrap 1%nat (Error "Object has been destroyed")
             (runLoop does_nothing window_closed 1 "/p" started).2).
  - by rewrite stop_exact.
  - by vm_compute.
Defined.

Lemma C5_loadFeatures_total_witness :
  loadFeatures "/p" (project [mkFeature None None None None None []; login])
  = (Ok [mkFeature (Some "feature-0-1000") None None None None []; login],
     project [mkFeature None None None None None []; login]) ∧
  (loadFeatures "/q" (project [login])).1 = Ok [] ∧
  (loadFeatures "/p"
     (constructor {["/p" := FLFile true (Malformed "{")]} ∅ 0)).1 = Ok [].
Proof.
  split; [|split].
  - destruct (C5_loadFeatures_total "/p"
                (project [mkFeature None None None None None []; login]))
      as (l & co & Hrun & _ & Harray).
    destruct (Harray true [mkFeature None None None None None []; login]
                eq_refl) as (Hco & _ & _).
    by vm_compute.
  - destruct (C5_loadFeatures_total "/q" (project [login]))
      as (l & co & Hrun & Hfail & _).
    rewrite Hrun. simpl. f_equal. by apply Hfail.
  - destruct (C5_loadFeatures_total "/p"
                (constructor {["/p" := FLFile true (Malformed "{")]} ∅ 0))
      as (l & co & Hrun & Hfail & _).
    rewrite Hrun. simpl. f_equal. by apply Hfail.
Defined.

(** C4 fails as stated: for an id that the list file does not have,
    a status update to "verified" returns and leaves the context file of
    that id where it is. *)
Lemma C4_counterexample :
  (updateFeatureStatus "ghost" "verified" "/p" (project_with_logs [login])).1
    = Ok tt ∧
  contextFiles
    (updateFeatureStatus "ghost" "verified" "/p" (project_with_logs [login])).2
    !! ("/p", "ghost") = Some (CtxFile "log of ghost").
Proof. split; by vm_compute. Qed.

Lemma C4_log_deleted_when_verified_witness :
  ∃ w',
    updateFeatureStatus "f1" "verified" "/p" (project_with_logs [login])
      = (Ok tt, w') ∧
    stored_status "/p" "f1" w' = Some "verified" ∧
    contextFiles w' !! ("/p", "f1") = None.
Proof.
  destruct (C4_log_deleted_when_verified "f1" "verified" "/p"
              (project_with_logs [login])) as [Hfound _]; [done|].
  destruct (Hfound (FeatureArray [login])) as (w' & Hrun & Hst & Hdel & _).
  - reflexivity.
  - eexists. by vm_compute.
  - exists w'. split; [exact Hrun|]. split; [exact Hst|].
    by apply (Hdel "log of f1").
Defined.



Lemma C6_cancellation_is_a_result_witness :
  has (id login) busy = true ∧
  (implementFeature cancelled takes_all login "/p" busy).1
    = Ok (mkPhaseResult false "Auto mode aborted") ∧
  (verifyFeatureTests cancelled takes_all login "/p" busy).1
    = Ok (mkPhaseResult false "Verification aborted") ∧
  (resumeFeatureWithContext cancelled takes_all login "/p" None busy).1
    = Ok (mkPhaseResult false "Resume aborted").
Proof.
  split; [reflexivity|].
  apply (C6_cancellation_is_a_result cancelled takes_all login "/p" None busy).
  - reflexivity.
  - intros call w. exists AbortError. by split.
  - intros call w. simpl. apply not_elem_of_nil.
  - by eexists.
  - reflexivity.
Defined.

Lemma C2_resume_retries_bounded_witness :
  ∃ w' calls,
    resumeFeature does_nothing takes_all "/p" "f1" (project [login_in_progress])
      = (Ok (mkRunResult true false), w') ∧
    queries w' = calls ∧ length calls = 4%nat ∧
    stored_status "/p" "f1" w' = Some "in_progress".
Proof.
  destruct (C2_resume_retries_bounded does_nothing takes_all "/p" "f1"
              login_in_progress (project [login_in_progress]))
    as (w' & calls & Hrun & Hq & Hlen & _ & Hst).
  - reflexivity.
  - reflexivity.
  - by vm_compute.
  - split; [by eexists|]. split; [|by vm_compute].
    split; [done|]. exists true, [login_in_progress].
    split; [reflexivity|]. by apply list_elem_of_singleton.
  - apply quiet_delegate_stalls; [reflexivity|reflexivity|reflexivity|].
    by eexists.
  - exists w', calls. split; [exact Hrun|]. split; [exact Hq|].
    split; [exact Hlen|exact Hst].
Defined.


Lemma C10_resume_failure_stores_in_progress_witness :
  (resumeFeature gives_up takes_all "/p" "f1" (project [login_in_progress])).1
    = Ok (mkRunResult true false) ∧
  length
    (queries
       (resumeFeature gives_up takes_all "/p" "f1"
          (project [login_in_progress])).2) = 1%nat ∧
  stored_status "/p" "f1"
    (resumeFeature gives_up takes_all "/p" "f1" (project [login_in_progress])).2
    = Some "in_progress".
Proof.
  split; [by vm_compute|]. split; [by vm_compute|].
  apply (C10_resume_failure_stores_in_progress gives_up takes_all "/p" "f1"
           (project [login_in_progress]) (mkRunResult true false)).
  - by intros call w0 node [=]%list_elem_of_singleton.
  - split; [done|]. exists true, [login_in_progress].
    split; [reflexivity|]. by apply list_elem_of_singleton.
  - by vm_compute.
  - reflexivity.
Defined.

(** * Further properties of the engine *)

(** ** Choosing the next feature *)

(** X1: [selectNextFeature] returns the first record of the list whose
    status is not "verified" (a record without a status counts as not
    verified), and nothing exactly when every record is verified. *)
Theorem selectNextFeature_first_unverified features :
  match selectNextFeature features with
  | Some f =>
      ∃ i, features !! i = Some f ∧ status f ≠ Some "verified" ∧
           ∀ j g, (j < i)%nat → features !! j = Some g →
                  status g = Some "verified"
  | None => Forall (λ f, status f = Some "verified") features
  end.
Proof.
  unfold selectNextFeature, strict_eq.
  induction features as [|f l IH]; simpl; [done|].
  case_bool_decide as Hf; simpl.
  - destruct (List.find _ l) as [g|].
    + destruct IH as (i & Hi & Hg & Hbefore). exists (S i).
      split; [done|]. split; [done|].
      intros [|j] h Hj Hh; simpl in Hh; [by simplify_eq|].
      apply (Hbefore j); [lia|done].
    + by constructor.
  - exists 0%nat. split; [done|]. split; [done|]. intros j g Hj. lia.
Qed.

(** ** Generated ids *)

Lemma string_app_length (a b : string) :
  String.length (a +:+ b) = (String.length a + String.length b)%nat.
Proof. induction a as [|c a IH]; simpl; [done|]. by rewrite IH. Qed.

Lemma string_app_inj_r (a b s : string) : a +:+ s = b +:+ s → a = b.
Proof.
  revert b. induction a as [|c a IH]; intros [|d b] H.
  - done.
  - apply (f_equal String.length) in H.
    rewrite !string_app_length in H. simpl in H. lia.
  - apply (f_equal String.length) in H.
    rewrite !string_app_length in H. simpl in H. lia.
  - change (String c (a +:+ s) = String d (b +:+ s)) in H.
    injection H as -> H. f_equal. by apply IH.
Qed.

Lemma generated_id_inj (i j : nat) (t t' : Z) :
  "feature-" +:+ pretty i +:+ "-" +:+ pretty t
  = "feature-" +:+ pretty j +:+ "-" +:+ pretty t' →
  t = t' → i = j.
Proof.
  intros H ->. apply (inj (String.app "feature-")) in H.
  apply string_app_inj_r in H. by apply (inj pretty) in H.
Qed.

Lemma generated_id_clock (i : nat) (t t' : Z) :
  "feature-" +:+ pretty i +:+ "-" +:+ pretty t
  = "feature-" +:+ pretty i +:+ "-" +:+ pretty t' → t = t'.
Proof.
  intros H. apply (inj (String.app "feature-")) in H.
  apply (inj (String.app (pretty i))) in H.
  apply (inj (String.app "-")) in H. by apply (inj pretty) in H.
Qed.

Lemma loadFeatures_lookup projectPath w wr records l w' i r :
  featureLists w !! projectPath = Some (FLFile wr (FeatureArray records)) →
  loadFeatures projectPath w = (Ok l, w') →
  records !! i = Some r →
  l !! i = Some (with_id (clock w) i r).
Proof.
  intros Hfile Hload Hr.
  rewrite (loadFeatures_array _ _ _ _ Hfile) in Hload. injection Hload as <- _.
  by rewrite list_lookup_imap, Hr.
Qed.

(** X2: the ids [loadFeatures] gives to records that lack one are pairwise
    different within a load, and change with the clock: the same file
    loaded at another time gives such a record another id. *)
Theorem loadFeatures_generated_ids projectPath w wr records l w' i ri fi :
  featureLists w !! projectPath = Some (FLFile wr (FeatureArray records)) →
  loadFeatures projectPath w = (Ok l, w') →
  records !! i = Some ri → truthy (id ri) = false →
  l !! i = Some fi →
  (∀ j rj fj,
     records !! j = Some rj → truthy (id rj) = false → l !! j = Some fj →
     i ≠ j → id fi ≠ id fj) ∧
  (∀ w2 l2 w2' f2,
     featureLists w2 !! projectPath = featureLists w !! projectPath →
     clock w2 ≠ clock w →
     loadFeatures projectPath w2 = (Ok l2, w2') →
     l2 !! i = Some f2 → id f2 ≠ id fi).
Proof.
  intros Hfile Hload Hri Hni Hfi.
  rewrite (loadFeatures_lookup _ _ _ _ _ _ _ _ Hfile Hload Hri) in Hfi.
  injection Hfi as <-. split.
  - intros j rj fj Hrj Hnj Hfj Hij.
    rewrite (loadFeatures_lookup _ _ _ _ _ _ _ _ Hfile Hload Hrj) in Hfj.
    injection Hfj as <-. unfold with_id. simpl. rewrite Hni, Hnj.
    intros H%(inj Some). by apply Hij, (generated_id_inj _ _ _ _ H).
  - intros w2 l2 w2' f2 Hfile2 Hclock Hload2 Hf2. rewrite Hfile in Hfile2.
    rewrite (loadFeatures_lookup _ _ _ _ _ _ _ _ Hfile2 Hload2 Hri) in Hf2.
    injection Hf2 as <-. unfold with_id. simpl. rewrite Hni.
    intros H%(inj Some). by apply Hclock, (generated_id_clock i).
Qed.

(** ** Status updates *)

(** What a status update of a record that a load finds writes, the file
    being writable. *)
Lemma updateFeatureStatus_ok featureId status projectPath w c i f :
  featureLists w !! projectPath = Some (FLFile true c) →
  find_feature (Some featureId) (stored projectPath w) = Some (i, f) →
  ∃ w', updateFeatureStatus featureId status projectPath w = (Ok tt, w') ∧
        featureLists w' =
          <[projectPath :=
              FLFile true
                (FeatureArray (saved i status f (stored projectPath w)))]>
            (featureLists w) ∧
        clock w' = clock w ∧ queries w' = queries w ∧
        runningFeatures w' = runningFeatures w ∧ rendered w' = rendered w ∧
        autoLoopRunning w' = autoLoopRunning w.
Proof.
  intros Hfile Hf.
  pose proof (updateFeatureStatus_found _ status _ _ _ _ _ _ Hf Hfile) as Hrun.
  simpl in Hrun. rewrite Hrun. case_bool_decide; [|by eexists].
  rewrite deleteContextFile_exact. eexists. split; [reflexivity|].
  case_bool_decide; [done|]. simpl.
  by destruct (contextFiles w !! (projectPath, featureId)) as [[|?]|].
Qed.

Lemma reload_after_write projectPath (w' : World) l :
  featureLists w' !! projectPath = Some (FLFile true (FeatureArray l)) →
  identified l → reload projectPath w' = l.
Proof.
  intros Hfile Hid. rewrite reload_stored.
  by apply (stored_identified_file _ _ _ _ Hfile).
Qed.

Lemma saved_lookup_ne i j status feature (features : list Feature) f :
  j ≠ i → features !! j = Some f →
  saved i status feature features !! j = Some (toSave f).
Proof.
  intros Hne Hj. unfold saved.
  by rewrite list_lookup_fmap, list_lookup_insert_ne, Hj.
Qed.

Lemma saved_length i status feature (features : list Feature) :
  length (saved i status feature features) = length features.
Proof. unfold saved. by rewrite length_map, length_insert. Qed.

Lemma saved_transient i status feature (features : list Feature) :
  Forall (λ f, transient f = []) (saved i status feature features).
Proof.
  unfold saved. apply Forall_forall. intros f Hf.
  by apply list_elem_of_fmap in Hf as (g & -> & _).
Qed.

(** X3: a status update of a feature that a load finds, in a writable list
    file, changes the status of the first record with that id and of no
    other: the file keeps its records in their order, each with its id,
    category, description, steps and, but for that one record, status. *)
Theorem updateFeatureStatus_frame featureId newStatus projectPath w c i
    feature :
  featureLists w !! projectPath = Some (FLFile true c) →
  find_feature (Some featureId) (reload projectPath w) = Some (i, feature) →
  ∃ w', updateFeatureStatus featureId newStatus projectPath w = (Ok tt, w') ∧
    length (reload projectPath w') = length (reload projectPath w) ∧
    ∀ j f, reload projectPath w !! j = Some f →
      ∃ f', reload projectPath w' !! j = Some f' ∧
        id f' = id f ∧ category f' = category f ∧
        description f' = description f ∧ steps f' = steps f ∧
        status f' = (if decide (j = i) then Some newStatus else status f).
Proof.
  intros Hfile Hf. rewrite reload_stored in *.
  destruct (updateFeatureStatus_ok _ newStatus _ _ _ _ _ Hfile Hf)
    as (w' & Hrun & Hfl & _).
  exists w'. split; [exact Hrun|].
  pose proof (proj1 (find_feature_Some _ _ _ _) Hf) as (Hi & _ & _).
  assert (Hre : reload projectPath w'
                = saved i newStatus feature (stored projectPath w)).
  { apply reload_after_write.
    - by rewrite Hfl, lookup_insert_eq.
    - apply saved_identified; [done|apply stored_identified]. }
  rewrite Hre. split; [apply saved_length|].
  intros j f Hj. destruct (decide (j = i)) as [->|Hne].
  - rewrite Hi in Hj. injection Hj as <-.
    rewrite (saved_lookup _ _ _ _ Hi). by eexists.
  - rewrite (saved_lookup_ne _ _ _ _ _ _ Hne Hj). by eexists.
Qed.

(** X4: a successful status update rewrites the whole list file in its
    five-field form: every record then carries an id in the file (a
    generated one is stored) and no property other than id, category,
    description, steps and status, so that from then on a load returns
    the records of the file as they are, whatever the clock says. *)
Theorem updateFeatureStatus_normal_form featureId status projectPath w c i
    feature :
  featureLists w !! projectPath = Some (FLFile true c) →
  find_feature (Some featureId) (reload projectPath w) = Some (i, feature) →
  ∃ w' l, updateFeatureStatus featureId status projectPath w = (Ok tt, w') ∧
    featureLists w' !! projectPath = Some (FLFile true (FeatureArray l)) ∧
    Forall (λ f, truthy (id f) = true ∧ transient f = []) l ∧
    ∀ w2, featureLists w2 !! projectPath = featureLists w' !! projectPath →
          reload projectPath w2 = l.
Proof.
  intros Hfile Hf. rewrite reload_stored in Hf.
  destruct (updateFeatureStatus_ok _ status _ _ _ _ _ Hfile Hf)
    as (w' & Hrun & Hfl & _).
  pose proof (proj1 (find_feature_Some _ _ _ _) Hf) as (Hi & _ & _).
  assert (Hid : identified (saved i status feature (stored projectPath w)))
    by (apply saved_identified; [done|apply stored_identified]).
  exists w', (saved i status feature (stored projectPath w)).
  split; [exact Hrun|]. split; [by rewrite Hfl, lookup_insert_eq|]. split.
  - apply Forall_and. split; [exact Hid|apply saved_transient].
  - intros w2 H2. apply reload_after_write; [|done].
    by rewrite H2, Hfl, lookup_insert_eq.
Qed.


Lemma find_by_id_is_Some featureId l :
  is_Some (find_by_id featureId l) →
  ∃ i f, find_feature (Some featureId) l = Some (i, f).
Proof.
  unfold find_by_id. destruct (find_feature _ _) as [[i f]|]; [eauto|].
  by intros [? [=]].
Qed.


Lemma saved_saved i s1 s2 f (features : list Feature) :
  features !! i = Some f →
  saved i s2 (toSave (set_status s1 f)) (saved i s1 f features)
  = saved i s2 f features.
Proof.
  intros Hi. unfold saved. apply list_eq. intros j.
  rewrite !list_lookup_fmap. destruct (decide (j = i)) as [->|Hne].
  - rewrite !list_lookup_insert_eq; [done|..].
    + by apply lookup_lt_Some in Hi.
    + rewrite length_map, length_insert. by apply lookup_lt_Some in Hi.
  - rewrite !list_lookup_insert_ne by done.
    rewrite list_lookup_fmap, list_lookup_insert_ne by done.
    by destruct (features !! j).
Qed.

(** X6: two status updates of the same feature in a row leave the list
    file as the second one alone would have left it: the last status
    written is the one stored, and the records are not changed further
    by being saved twice. *)
Theorem updateFeatureStatus_last_wins featureId s1 s2 projectPath w c :
  featureLists w !! projectPath = Some (FLFile true c) →
  is_Some (find_by_id featureId (reload projectPath w)) →
  featureLists
    (updateFeatureStatus featureId s2 projectPath
       (updateFeatureStatus featureId s1 projectPath w).2).2
  = featureLists (updateFeatureStatus featureId s2 projectPath w).2.
Proof.
  intros Hfile Hsome. rewrite reload_stored in Hsome.
  destruct (find_by_id_is_Some _ _ Hsome) as (i & f & Hf).
  pose proof (proj1 (find_feature_Some _ _ _ _) Hf) as (Hi & Hid & Hfirst).
  destruct (updateFeatureStatus_ok _ s1 _ _ _ _ _ Hfile Hf)
    as (w1 & Hrun1 & Hfl1 & _).
  destruct (updateFeatureStatus_ok _ s2 _ _ _ _ _ Hfile Hf)
    as (w2 & Hrun2 & Hfl2 & _).
  rewrite Hrun1, Hrun2. simpl.
  assert (Hfile1 : featureLists w1 !! projectPath
                   = Some (FLFile true
                       (FeatureArray (saved i s1 f (stored projectPath w)))))
    by (by rewrite Hfl1, lookup_insert_eq).
  assert (Hst1 : stored projectPath w1 = saved i s1 f (stored projectPath w)).
  { apply (stored_identified_file _ _ _ _ Hfile1).
    apply saved_identified; [done|apply stored_identified]. }
  assert (Hf1 : find_feature (Some featureId) (stored projectPath w1)
                = Some (i, toSave (set_status s1 f))).
  { rewrite Hst1. apply find_feature_Some. split; [by apply saved_lookup|].
    split; [done|]. intros j y Hj Hlt.
    unfold saved in Hj. rewrite list_lookup_fmap in Hj.
    rewrite list_lookup_insert_ne in Hj by lia.
    destruct (stored projectPath w !! j) as [x|] eqn:Hx; [|done].
    injection Hj as <-. by apply (Hfirst j x). }
  destruct (updateFeatureStatus_ok _ s2 _ _ _ _ _ Hfile1 Hf1)
    as (w12 & Hrun12 & Hfl12 & _).
  rewrite Hrun12. simpl. rewrite Hfl12, Hfl2, Hfl1, Hst1.
  rewrite insert_insert_eq. by rewrite (saved_saved _ _ _ _ _ Hi).
Qed.

(** ** The context log *)


Lemma readContextFile_exact projectPath featureId w :
  readContextFile projectPath featureId w =
  (Ok match contextFiles w !! (projectPath, featureId) with
      | Some (CtxFile c) => Some c
      | _ => None
      end, w).
Proof.
  unfold readContextFile, try_catch, bind, readContext.
  by destruct (contextFiles w !! (projectPath, featureId)) as [[|c]|].
Qed.




(** ** Stopping, and the status report *)

Lemma abort_lookup_ne c c' (cs : list bool) :
  c ≠ c' → abort c' cs !! c = cs !! c.
Proof. intros H. unfold abort. by rewrite list_lookup_insert_ne. Qed.

Lemma abort_all_spares h refs (cs : list bool) c :
  (∀ r, r ∈ refs → h !! r ≫= abortController ≠ Some c) →
  foldr (abort_execution h) cs refs !! c = cs !! c.
Proof.
  induction refs as [|r refs IH]; intros H; simpl; [done|].
  unfold abort_execution at 1.
  destruct (h !! r ≫= abortController) as [c'|] eqn:E.
  - rewrite abort_lookup_ne.
    + apply IH. intros r' Hr'. apply H. by right.
    + intros ->. apply (H r); [by left|done].
  - apply IH. intros r' Hr'. apply H. by right.
Qed.

(** X10: [stop] aborts no controller but those of the registered
    executions and of the loop: a controller that no registered execution
    holds, and that is not the loop's, is after [stop] as it was
    before. *)
Theorem stop_spares_other_controllers w c :
  autoLoopAbortController w ≠ Some c →
  (∀ featureId execution e,
     runningFeatures w !! featureId = Some execution →
     executions w !! execution = Some e →
     abortController e ≠ Some c) →
  controllers (stop w).2 !! c = controllers w !! c.
Proof.
  intros Hloop Hregistry. rewrite stop_exact. simpl.
  rewrite abort_all_spares.
  - destruct (autoLoopAbortController w) as [c'|]; [|done].
    apply abort_lookup_ne. by intros ->.
  - intros r Hr He.
    apply list_elem_of_fmap in Hr as ([k ex] & -> & Hk).
    apply elem_of_map_to_list in Hk. simpl in He.
    destruct (executions w !! ex) as [e|] eqn:Hex; [|done].
    by apply (Hregistry k ex e).
Qed.

(** X11: [stop] is final and can be repeated.  A second [stop] changes
    nothing; a loop body that reaches its check of the flag after a
    [stop] ends there without an event, a delegate call or a write; and
    [start] is accepted again. *)
Theorem stop_is_final sdk_query renderer projectPath fuel w :
  stop (stop w).2 = (Ok true, (stop w).2) ∧
  runLoop sdk_query renderer (S fuel) projectPath (stop w).2
    = (Ok LoopEnded, (stop w).2) ∧
  (start projectPath (stop w).2).1 = Ok true.
Proof.
  rewrite !stop_exact. destruct w. simpl. split; [|split].
  - by rewrite map_to_list_empty.
  - done.
  - done.
Qed.

(** X12: the status report agrees with the registry: the count is the
    number of ids listed, no id is listed twice, an id is listed exactly
    when the registry has it, and after [stop] the report shows no loop
    and no running feature. *)
Theorem getStatus_consistent w :
  runningCount (getStatus w) = length (status_runningFeatures (getStatus w)) ∧
  NoDup (status_runningFeatures (getStatus w)) ∧
  (∀ featureId, featureId ∈ status_runningFeatures (getStatus w)
                ↔ has (Some featureId) w = true) ∧
  getStatus (stop w).2 = mkStatus false [] 0.
Proof.
  unfold getStatus. simpl. split; [|split; [|split]].
  - by rewrite length_fmap, length_map_to_list.
  - apply NoDup_fst_map_to_list.
  - intros k. unfold has. simpl. rewrite bool_decide_eq_true.
    rewrite list_elem_of_fmap. split.
    + intros ([k' ex] & -> & H%elem_of_map_to_list). by eexists.
    + intros [ex H]. exists (k, ex). split; [done|].
      by apply elem_of_map_to_list.
  - rewrite stop_exact. simpl. by rewrite map_to_list_empty, map_size_empty.
Qed.

(** ** The autonomous loop *)

Lemma stored_load_fails projectPath w :
  load_fails projectPath w → stored projectPath w = [].
Proof.
  unfold load_fails, stored.
  by destruct (featureLists w !! projectPath) as [[|? [| |]]|].
Qed.

Lemma selectNextFeature_all_verified l :
  Forall (λ f, status f = Some "verified") l → selectNextFeature l = None.
Proof.
  unfold selectNextFeature, strict_eq.
  induction 1 as [|f l Hf _ IH]; simpl; [done|].
  by rewrite bool_decide_eq_true_2.
Qed.

Lemma runLoop_idle sdk_query renderer projectPath fuel w :
  autoLoopRunning w = true →
  load_fails projectPath w ∨
    Forall (λ f, status f = Some "verified") (reload projectPath w) →
  renderer (auto_mode_complete "All features completed!") = None →
  ∃ co,
    runLoop sdk_query renderer (S fuel) projectPath w
    = (Ok LoopEnded,
       set_autoLoopRunning false
         (set_rendered
            (λ l, l ++ [auto_mode_complete "All features completed!"])
            (set_console (λ _, co) w))).
Proof.
  intros Hrun Hnone Hr.
  assert (Hsel : selectNextFeature (stored projectPath w) = None).
  { destruct Hnone as [Hfail|Hall].
    - by rewrite (stored_load_fails _ _ Hfail).
    - rewrite reload_stored in Hall. by apply selectNextFeature_all_verified. }
  destruct (loadFeatures_run projectPath w) as (co & Hload). exists co.
  simpl. unfold bind at 1, get. rewrite Hrun.
  unfold iteration, bind at 1, bind at 1, try_catch at 1, bind at 1.
  rewrite Hload, Hsel. unfold bind at 1, sendToRenderer. by rewrite Hr.
Qed.

(** X13: with nothing left to do the loop ends at once.  When the list
    file cannot be loaded (missing, unreadable, malformed) or every
    record is verified, and the renderer takes the event, [runLoop] emits
    "All features completed!" once, clears the loop flag and returns,
    without a delegate call and without touching a file or the
    registry. *)
Theorem runLoop_nothing_to_do sdk_query renderer projectPath fuel w :
  autoLoopRunning w = true →
  load_fails projectPath w ∨
    Forall (λ f, status f = Some "verified") (reload projectPath w) →
  renderer (auto_mode_complete "All features completed!") = None →
  ∃ w', runLoop sdk_query renderer (S fuel) projectPath w
        = (Ok LoopEnded, w') ∧
    autoLoopRunning w' = false ∧
    rendered w'
    = rendered w ++ [auto_mode_complete "All features completed!"] ∧
    queries w' = queries w ∧ featureLists w' = featureLists w ∧
    contextFiles w' = contextFiles w ∧
    runningFeatures w' = runningFeatures w.
Proof.
  intros Hrun Hnone Hr.
  destruct (runLoop_idle sdk_query renderer projectPath fuel w Hrun Hnone Hr)
    as (co & ->).
  eexists. split; [reflexivity|]. by destruct w.
Qed.

Lemma try_catch_returns {A} (body : M A) handler :
  (∀ e w, ∃ a w', handler e w = (Ok a, w')) →
  ∀ w, ∃ a w', try_catch body handler w = (Ok a, w').
Proof.
  intros H w. unfold try_catch. destruct (body w) as [[a|e] w1]; eauto.
Qed.

Section LoopErrors.

Variable sdk_query : QueryCall → World → Stream.
Variable renderer : Event → option JsError.

Hypothesis takes_errors :
  ∀ message featureId, renderer (auto_mode_error message featureId) = None.

Lemma iteration_failed_returns currentFeatureId error w :
  ∃ w', iteration_failed renderer currentFeatureId error w = (Ok Continue, w').
Proof.
  unfold iteration_failed, bind, console_error, modify, sendToRenderer.
  rewrite takes_errors. simpl.
  destruct currentFeatureId as [k|]; [destruct (truthy (Some k))|]; by eexists.
Qed.

Lemma iteration_returns projectPath w :
  ∃ s w', iteration sdk_query renderer projectPath w = (Ok s, w').
Proof.
  unfold iteration. unfold bind at 1.
  match goal with
  | |- context [try_catch ?body ?handler w] =>
      destruct (try_catch_returns body handler) with (w := w)
        as (selected & w1 & ->)
  end.
  { intros e w0. unfold bind.
    destruct (iteration_failed_returns None e w0) as (w' & ->). by eexists _, _. }
  destruct selected as [s|nextFeature]; [by eexists _, _|].
  apply try_catch_returns. intros e w0.
  destruct (iteration_failed_returns (id nextFeature) e w0) as (w' & ->).
  by eexists _, _.
Qed.

Lemma runLoop_returns fuel projectPath w :
  ∃ x w', runLoop sdk_query renderer fuel projectPath w = (Ok x, w').
Proof.
  revert w. induction fuel as [|fuel IH]; intros w; simpl;
    [by eexists _, _|].
  unfold bind at 1, get. destruct (autoLoopRunning w); [|by eexists _, _].
  unfold bind at 1.
  destruct (iteration_returns projectPath w) as (s & w1 & ->).
  destruct s; [by eexists _, _|apply IH].
Qed.

End LoopErrors.

(** X14: the loop outlives every failure of an iteration.  As long as
    the renderer takes the error events, [runLoop] never throws, whatever
    the delegate does, whatever the files hold and whichever other events
    the renderer refuses; the error trap of [start] is then never
    entered, and the launched task ends as the loop does. *)
Theorem runLoop_never_throws sdk_query renderer fuel projectPath w :
  (∀ message featureId,
     renderer (auto_mode_error message featureId) = None) →
  ∃ x w', runLoop sdk_query renderer fuel projectPath w = (Ok x, w') ∧
          run_task sdk_query renderer fuel (LoopTask projectPath) w
          = (Ok tt, w').
Proof.
  intros Hr.
  destruct (runLoop_returns sdk_query renderer Hr fuel projectPath w)
    as (x & w' & H).
  exists x, w'. split; [done|]. unfold run_task, try_catch, bind.
  by rewrite H.
Qed.

(** X15: the loop does not pass over a feature that is being run.  When
    the first record that is not verified is registered already, an
    iteration waits 3000 ms and goes round again: no event is emitted,
    no later feature is started, nothing but the clock changes. *)
Theorem iteration_waits_for_running_feature sdk_query renderer projectPath
    nextFeature w :
  selectNextFeature (reload projectPath w) = Some nextFeature →
  has (id nextFeature) w = true →
  iteration sdk_query renderer projectPath w
  = (Ok Continue, set_clock (λ t, t + 3000) w).
Proof.
  intros Hsel Hhas. rewrite reload_stored in Hsel.
  assert (Hfile : ∃ wr l, featureLists w !! projectPath
                          = Some (FLFile wr (FeatureArray l))).
  { unfold stored in Hsel.
    destruct (featureLists w !! projectPath) as [[|wr [| |l]]|]; try done.
    by eexists _, _. }
  destruct Hfile as (wr & l & Hfile).
  pose proof (loadFeatures_array _ _ _ _ Hfile) as Hload.
  rewrite <- (stored_array _ _ _ _ Hfile) in Hload.
  unfold iteration, bind at 1, try_catch at 1, bind at 1.
  rewrite Hload, Hsel. simpl.
  unfold try_catch, bind at 1, get. by rewrite Hhas.
Qed.

(** X30: started on a project with nothing to do, the service stops by
    itself.  When the loop flag is clear, the list file cannot be loaded
    or holds verified records only, and the renderer takes the event,
    [start] is accepted, the loop it launches emits "All features
    completed!" and ends with the flag cleared again, no call of the
    delegate made, and a new [start] is accepted. *)
Theorem start_with_nothing_to_do sdk_query renderer projectPath fuel w :
  autoLoopRunning w = false →
  load_fails projectPath w ∨
    Forall (λ f, status f = Some "verified") (reload projectPath w) →
  renderer (auto_mode_complete "All features completed!") = None →
  ∃ w1 w2,
    start projectPath w = (Ok true, w1) ∧
    detached w1 = detached w ++ [LoopTask projectPath] ∧
    run_task sdk_query renderer (S fuel) (LoopTask projectPath) w1
    = (Ok tt, w2) ∧
    autoLoopRunning w2 = false ∧
    rendered w2
    = rendered w ++ [auto_mode_complete "All features completed!"] ∧
    queries w2 = queries w ∧
    (start projectPath w2).1 = Ok true.
Proof.
  intros Hflag Hnone Hr.
  set (w1 := set_detached (λ l, l ++ [LoopTask projectPath])
               (set_autoLoopRunning true w)).
  assert (Hidle : load_fails projectPath w1 ∨
            Forall (λ f, status f = Some "verified") (reload projectPath w1)).
  { destruct Hnone as [Hfail|Hall]; [by left|right].
    by rewrite reload_stored in *. }
  destruct (runLoop_idle sdk_query renderer projectPath fuel w1 eq_refl
              Hidle Hr) as (co & Hloop).
  exists w1. eexists. split.
  { unfold start, bind, get, modify. by rewrite Hflag. }
  split; [done|].
  unfold run_task, try_catch, bind at 1. rewrite Hloop.
  split; [reflexivity|]. by destruct w.
Qed.

(** ** What the entry points keep *)

Lemma spec_True {A} I (m : M A) : preserves I m → spec I (λ _, True) m.
Proof. intros H w Hw. split; [by apply H|done]. Qed.

Section EntryInvariant.

Variable sdk_query : QueryCall → World → Stream.
Variable renderer : Event → option JsError.
Variables (projectPath featureId : string).
Variable I : World → Prop.

Hypothesis engine : engine_invariant sdk_query projectPath I.
Hypothesis clock_independent : clock_stable I.
Hypothesis status_updates :
  ∀ st, preserves I (updateFeatureStatus featureId st projectPath).
Hypothesis registering : ∀ w, I w → I (register featureId projectPath w).2.
Hypothesis unregistering : ∀ w, I w → I (unregister featureId w).

Lemma spec_report logged error :
  spec I (λ _, True) (report renderer logged featureId error).
Proof.
  destruct engine as (Hs & _). unfold report.
  repeat first
    [ apply spec_throw; done
    | apply spec_sendToRenderer; [apply Hs|done]
    | spec1 ].
Qed.

Lemma spec_implementFeature_True feature :
  spec I (λ _, True) (implementFeature sdk_query renderer feature projectPath).
Proof. by apply spec_implementFeature. Qed.

Lemma spec_verifyFeatureTests_True feature :
  spec I (λ _, True)
    (verifyFeatureTests sdk_query renderer feature projectPath).
Proof. by apply spec_verifyFeatureTests. Qed.

Lemma spec_resumeFeatureWithContext_True feature context :
  spec I (λ _, True)
    (resumeFeatureWithContext sdk_query renderer feature projectPath context).
Proof. by apply spec_resumeFeatureWithContext. Qed.

Lemma spec_retry_True remaining attempts feature res :
  spec I (λ _, True)
    (retry sdk_query renderer remaining attempts feature projectPath
       featureId res).
Proof.
  destruct engine as (Hs & _).
  revert attempts res. induction remaining as [|remaining IH];
    intros attempts res; simpl; [apply spec_ret|].
  repeat first
    [ apply spec_resumeFeatureWithContext_True
    | apply IH
    | apply spec_sendToRenderer; [apply Hs|done]
    | spec1 ].
Qed.

Ltac entry_invariant Hs :=
  repeat
    lazymatch goal with
    | |- spec _ _ (bind _ _) => apply spec_bind; [|intros ?]
    | |- spec _ _ (throw _) => by apply spec_throw
    | |- spec _ _ (register _ _) => apply spec_modify; exact registering
    | |- spec _ _ (try_finally _ _) =>
        apply spec_try_finally; [|exact unregistering]
    | |- spec _ _ (try_catch _ (report _ _ _)) =>
        apply spec_try_catch with (ψ := λ _, True);
        [|intros ? _; apply spec_report]
    | |- spec _ _ (match find_by_id ?k ?l with _ => _ end) =>
        let H := fresh "Hfind" in
        destruct (find_by_id k l) as [?feature|] eqn:H;
        [apply find_by_id_id in H; rewrite ?H; cbn [template default]|]
    | |- spec _ _ (updateFeatureStatus _ _ _) =>
        apply spec_True, status_updates
    | |- spec _ _ (implementFeature _ _ _ _) =>
        apply spec_implementFeature_True
    | |- spec _ _ (verifyFeatureTests _ _ _ _) =>
        apply spec_verifyFeatureTests_True
    | |- spec _ _ (resumeFeatureWithContext _ _ _ _ _) =>
        apply spec_resumeFeatureWithContext_True
    | |- spec _ _ (retry _ _ _ _ _ _ _ _) => apply spec_retry_True
    | |- spec _ _ (sendToRenderer _ _) =>
        apply spec_sendToRenderer; [apply Hs|done]
    | |- spec _ _ _ => spec1
    end.

Lemma preserves_runFeature :
  preserves I (runFeature sdk_query renderer projectPath featureId).
Proof.
  destruct engine as (Hs & _). apply spec_preserves with (φ := λ _, True).
  unfold runFeature. entry_invariant Hs.
Qed.

Lemma preserves_verifyFeature :
  preserves I (verifyFeature sdk_query renderer projectPath featureId).
Proof.
  destruct engine as (Hs & _). apply spec_preserves with (φ := λ _, True).
  unfold verifyFeature. entry_invariant Hs.
Qed.

Lemma preserves_resumeFeature :
  preserves I (resumeFeature sdk_query renderer projectPath featureId).
Proof.
  destruct engine as (Hs & _). apply spec_preserves with (φ := λ _, True).
  unfold resumeFeature. entry_invariant Hs.
Qed.

End EntryInvariant.

Lemma stable_engine_field {A} (field : World → A) (P : A → Prop) :
  (∀ f w, field (set_contextFiles f w) = field w) →
  (∀ f w, field (set_console f w) = field w) →
  (∀ f w, field (set_rendered f w) = field w) →
  (∀ f w, field (set_controllers f w) = field w) →
  (∀ f w, field (set_executions f w) = field w) →
  stable_engine (λ w, P (field w)).
Proof.
  intros H1 H2 H3 H4 H5.
  split; [split|..]; intros f w H; by rewrite ?H1, ?H2, ?H3, ?H4, ?H5.
Qed.

Lemma preserves_updateFeatureStatus_registry (P : gmap string nat → Prop)
    featureId status projectPath :
  preserves (λ w, P (runningFeatures w))
    (updateFeatureStatus featureId status projectPath).
Proof.
  apply preserves_updateFeatureStatus_log; [|done].
  by split.
Qed.

Lemma preserves_run_effect_unregistered k projectPath e :
  preserves (λ w, runningFeatures w !! k = None) (run_effect projectPath e).
Proof.
  destruct e as [fid st|ms| |pp node|pp fid node]; simpl.
  - apply preserves_bind; [|intros ?; apply preserves_ret].
    apply preserves_UpdateFeatureStatus; [by split|].
    apply (preserves_updateFeatureStatus_registry (λ m, m !! k = None)).
  - by apply preserves_modify.
  - apply preserves_bind; [|intros ?; apply preserves_ret].
    intros w _. destruct (stop_run w) as (cs & ->). simpl.
    apply lookup_empty.
  - by apply preserves_modify.
  - by apply preserves_modify.
Qed.

Lemma engine_invariant_unregistered sdk_query projectPath k :
  engine_invariant sdk_query projectPath (λ w, runningFeatures w !! k = None).
Proof.
  split; [by repeat split|]. split; [done|].
  intros call w e _. apply preserves_run_effect_unregistered.
Qed.

Lemma entry_unregisters {A} featureId projectPath (body : M A) w :
  runningFeatures
    ((let! running := get (has (Some featureId)) in
      if running then throw (already_running featureId)
      else
        do! register featureId projectPath in
        try_finally body (unregister featureId)) w).2 !! featureId
  = if has (Some featureId) w then runningFeatures w !! featureId else None.
Proof.
  unfold bind at 1, get. destruct (has (Some featureId) w); [done|].
  unfold bind, register, modify, try_finally.
  destruct (body _) as [r w']. simpl. apply lookup_delete_eq.
Qed.

(** X16: an entry point leaves no trace in the registry.  Whether
    [runFeature], [verifyFeature] or [resumeFeature] returns or throws,
    and whatever the delegate and the renderer do, an id that was not
    registered before the call is not registered after it: the feature
    of the call is unregistered again, and no other id is added. *)
Theorem entry_points_leave_registry sdk_query renderer projectPath featureId
    w k :
  runningFeatures w !! k = None →
  runningFeatures (runFeature sdk_query renderer projectPath featureId w).2
    !! k = None ∧
  runningFeatures (verifyFeature sdk_query renderer projectPath featureId w).2
    !! k = None ∧
  runningFeatures (resumeFeature sdk_query renderer projectPath featureId w).2
    !! k = None.
Proof.
  intros Hk. destruct (decide (k = featureId)) as [->|Hne].
  - assert (Hhas : has (Some featureId) w = false).
    { unfold has. simpl. rewrite Hk. apply bool_decide_eq_false_2.
      by intros [? [=]]. }
    unfold runFeature, verifyFeature, resumeFeature.
    rewrite !entry_unregisters. by rewrite Hhas.
  - pose proof (engine_invariant_unregistered sdk_query projectPath k) as He.
    assert (Hc : clock_stable (λ w, runningFeatures w !! k = None))
      by (by intros f w0 H0).
    assert (Hu : ∀ st,
               preserves (λ w, runningFeatures w !! k = None)
                 (updateFeatureStatus featureId st projectPath))
      by (intros; apply (preserves_updateFeatureStatus_registry
                           (λ m, m !! k = None))).
    assert (Hr : ∀ w, runningFeatures w !! k = None →
                 runningFeatures (register featureId projectPath w).2 !! k
                 = None)
      by (intros w0 H0; simpl; by rewrite lookup_insert_ne).
    assert (Hd : ∀ w, runningFeatures w !! k = None →
                 runningFeatures (unregister featureId w) !! k = None)
      by (intros w0 H0; simpl; by rewrite lookup_delete_ne).
    split; [|split].
    + by apply (preserves_runFeature sdk_query renderer projectPath featureId
                  _ He Hc Hu Hr Hd w).
    + by apply (preserves_verifyFeature sdk_query renderer projectPath
                  featureId _ He Hu Hr Hd w).
    + by apply (preserves_resumeFeature sdk_query renderer projectPath
                  featureId _ He Hu Hr Hd w).
Qed.

(** ** The status of the other features *)

Section OtherFeatures.

Variables (projectPath other : string) (s : option string).


Lemma keeps_ext w w' :
  featureLists w' !! projectPath = featureLists w !! projectPath →
  keeps_status projectPath other s w → keeps_status projectPath other s w'.
Proof.
  intros Hfl [(wr & l & Hfile & Hid) Hst].
  assert (Hfile' : featureLists w' !! projectPath
                   = Some (FLFile wr (FeatureArray l))) by (by rewrite Hfl).
  split; [by exists wr, l|].
  unfold stored_status in *. rewrite reload_stored in *.
  by rewrite (stored_identified_file _ _ _ _ Hfile' Hid),
    <- (stored_identified_file _ _ _ _ Hfile Hid).
Qed.

Lemma stable_engine_keeps : stable_engine (keeps_status projectPath other s).
Proof.
  split; [split|..]; intros f w H; by apply (keeps_ext w).
Qed.

Lemma keeps_updateFeatureStatus featureId status :
  featureId ≠ other →
  preserves (keeps_status projectPath other s)
    (updateFeatureStatus featureId status projectPath).
Proof.
  intros Hne w Hw.
  destruct (find_feature (Some featureId) (stored projectPath w))
    as [[j g]|] eqn:Hg.
  - pose proof Hw as [(wr & l & Hfile & Hid) Hst].
    destruct wr.
    + destruct (updateFeatureStatus_ok _ status _ _ _ _ _ Hfile Hg)
        as (w' & -> & Hfl & _). simpl.
      rewrite (stored_identified_file _ _ _ _ Hfile Hid) in Hg, Hfl.
      pose proof (proj1 (find_feature_Some _ _ _ _) Hg) as (Hj & Hgid & _).
      assert (Hfile' : featureLists w' !! projectPath
                       = Some (FLFile true (FeatureArray (saved j status g l))))
        by (by rewrite Hfl, lookup_insert_eq).
      assert (Hid' : identified (saved j status g l))
        by (by apply saved_identified).
      split; [by eexists _, _|].
      unfold stored_status in *. rewrite reload_stored in *.
      rewrite (stored_identified_file _ _ _ _ Hfile' Hid').
      rewrite (stored_identified_file _ _ _ _ Hfile Hid) in Hst.
      rewrite <- Hst. unfold find_by_id.
      destruct (find_feature (Some other) l) as [[i f]|] eqn:Hf.
      * pose proof (proj1 (find_feature_Some _ _ _ _) Hf) as (Hi & Hfid & _).
        assert (Hij : i ≠ j) by (intros ->; congruence).
        destruct (find_feature_ids (Some other) l (saved j status g l) i f)
          as (f' & Hf' & _); [by apply saved_ids|done|].
        rewrite Hf'. simpl.
        apply find_feature_Some in Hf' as (Hi' & _).
        rewrite (saved_lookup_ne _ _ _ _ _ _ Hij Hi) in Hi'.
        by injection Hi' as <-.
      * rewrite (find_feature_ids_None (Some other) l (saved j status g l));
          [done|by apply saved_ids|done].
    + rewrite (updateFeatureStatus_found _ status _ _ _ _ _ _ Hg Hfile).
      done.
  - destruct (updateFeatureStatus_missing _ status _ _ Hg) as (co & ->).
    by apply (keeps_ext w).
Qed.

Lemma keeps_run_effect featureId e :
  featureId ≠ other →
  (∀ node, e ≠ OverwriteFeatureList projectPath node) →
  (∀ fid st, e = CallUpdateFeatureStatus fid st → fid = featureId) →
  preserves (keeps_status projectPath other s) (run_effect projectPath e).
Proof.
  intros Hne Hnode Htool.
  destruct e as [fid st|ms| |pp node|pp fid node]; simpl.
  - apply preserves_bind; [|intros ?; apply preserves_ret].
    apply preserves_UpdateFeatureStatus; [apply stable_engine_keeps|].
    rewrite (Htool fid st eq_refl). by apply keeps_updateFeatureStatus.
  - apply preserves_modify. intros w Hw. by apply (keeps_ext w).
  - apply preserves_bind; [|intros ?; apply preserves_ret].
    intros w Hw. destruct (stop_run w) as (cs & ->). by apply (keeps_ext w).
  - apply preserves_modify. intros w Hw. apply (keeps_ext w); [|done].
    simpl. assert (pp ≠ projectPath) by (intros ->; by apply (Hnode node)).
    destruct node; by rewrite ?lookup_insert_ne, ?lookup_delete_ne.
  - apply preserves_modify. intros w Hw. by apply (keeps_ext w).
Qed.

Lemma engine_invariant_keeps sdk_query featureId :
  featureId ≠ other →
  tool_calls_only sdk_query projectPath featureId →
  engine_invariant sdk_query projectPath (keeps_status projectPath other s).
Proof.
  intros Hne Htool. split; [apply stable_engine_keeps|]. split.
  - intros f w Hw. by apply (keeps_ext w).
  - intros call w e He. destruct (Htool call w e He) as [H1 H2].
    by apply (keeps_run_effect featureId).
Qed.

Lemma entry_points_keep sdk_query renderer featureId w :
  featureId ≠ other →
  tool_calls_only sdk_query projectPath featureId →
  keeps_status projectPath other s w →
  keeps_status projectPath other s
    (runFeature sdk_query renderer projectPath featureId w).2 ∧
  keeps_status projectPath other s
    (verifyFeature sdk_query renderer projectPath featureId w).2 ∧
  keeps_status projectPath other s
    (resumeFeature sdk_query renderer projectPath featureId w).2.
Proof.
  intros Hne Htool Hw.
  pose proof (engine_invariant_keeps sdk_query featureId Hne Htool) as He.
  assert (Hc : clock_stable (keeps_status projectPath other s))
    by (intros f w0 H0; by apply (keeps_ext w0)).
  assert (Hu : ∀ st, preserves (keeps_status projectPath other s)
                       (updateFeatureStatus featureId st projectPath))
    by (intros; by apply keeps_updateFeatureStatus).
  assert (Hr : ∀ w, keeps_status projectPath other s w →
               keeps_status projectPath other s
                 (register featureId projectPath w).2)
    by (intros w0 H0; by apply (keeps_ext w0)).
  assert (Hd : ∀ w, keeps_status projectPath other s w →
               keeps_status projectPath other s (unregister featureId w))
    by (intros w0 H0; by apply (keeps_ext w0)).
  split; [|split].
  - by apply (preserves_runFeature sdk_query renderer projectPath featureId
                _ He Hc Hu Hr Hd w).
  - by apply (preserves_verifyFeature sdk_query renderer projectPath
                featureId _ He Hu Hr Hd w).
  - by apply (preserves_resumeFeature sdk_query renderer projectPath
                featureId _ He Hu Hr Hd w).
Qed.

End OtherFeatures.

(** X17: running, verifying or resuming a feature leaves the other
    features alone.  Let every record of the list file carry an id, and
    let the delegate call the status tool for the feature of the call
    only and not write the list file itself.  Then, whether the entry
    point returns or throws, the list file still holds records that all
    carry an id, and every other feature has the stored status it had
    before. *)
Theorem entry_points_keep_other_features sdk_query renderer projectPath
    featureId other w :
  other ≠ featureId →
  tool_calls_only sdk_query projectPath featureId →
  identified_file projectPath w →
  ∀ entry, entry ∈ [runFeature sdk_query renderer;
                    verifyFeature sdk_query renderer;
                    resumeFeature sdk_query renderer] →
    identified_file projectPath (entry projectPath featureId w).2 ∧
    stored_status projectPath other (entry projectPath featureId w).2
    = stored_status projectPath other w.
Proof.
  intros Hne Htool Hfile entry Hentry.
  destruct (entry_points_keep projectPath other
              (stored_status projectPath other w) sdk_query renderer
              featureId w) as (Hrun & Hverify & Hresume); [done|done|done|].
  repeat (apply elem_of_cons in Hentry as [->|Hentry]); try done.
  by apply elem_of_nil in Hentry.
Qed.

(** ** Errors of the entry points and of the invocations *)

Lemma entry_reports renderer logged featureId projectPath
    (body : M RunResult) w e w' :
  (∀ message, renderer (auto_mode_error message (Some featureId)) = None) →
  has (Some featureId) w = false →
  (let! running := get (has (Some featureId)) in
   if running then throw (already_running featureId)
   else
     do! register featureId projectPath in
     try_finally (try_catch body (report renderer logged featureId))
       (unregister featureId)) w = (Throw e, w') →
  ∃ w1 w2,
    body (register featureId projectPath w).2 = (Throw e, w2) ∧
    w1 = set_console (λ l, l ++ [logged]) w2 ∧
    w' = unregister featureId
           (set_rendered
              (λ l, l ++ [auto_mode_error (error_message e) (Some featureId)])
              w1).
Proof.
  intros Hr Hhas. unfold bind at 1, get. rewrite Hhas.
  unfold bind at 1, register at 1, modify, try_finally, try_catch.
  destruct (body _) as [[r|e0] w2] eqn:Hbody; [done|].
  unfold report, bind, console_error, modify, sendToRenderer.
  rewrite Hr. intros [= <- <-]. by eexists _, _.
Qed.

(** X18: every failure of an entry point is reported before it is thrown
    again.  When [runFeature], [verifyFeature] or [resumeFeature], called
    for a feature that is not running, throws, and the renderer takes the
    error event, the last event delivered is the error event with the
    message of the very error thrown and the id of the feature, and the
    feature is no longer registered.  The renderer is taken to accept
    the error events of the feature. *)
Theorem entry_points_report_errors sdk_query renderer projectPath featureId
    w entry e w' :
  runningFeatures w !! featureId = None →
  entry ∈ [runFeature sdk_query renderer;
           verifyFeature sdk_query renderer;
           resumeFeature sdk_query renderer] →
  entry projectPath featureId w = (Throw e, w') →
  (∀ message, renderer (auto_mode_error message (Some featureId)) = None) →
  last (rendered w')
  = Some (auto_mode_error (error_message e) (Some featureId)) ∧
  runningFeatures w' !! featureId = None.
Proof.
  intros Hk Hentry Hrun Hr.
  assert (Hhas : has (Some featureId) w = false).
  { unfold has. simpl. rewrite Hk. apply bool_decide_eq_false_2.
    by intros [? [=]]. }
  repeat (apply elem_of_cons in Hentry as [->|Hentry]);
    [..|by apply elem_of_nil in Hentry];
    (eapply entry_reports in Hrun as (w1 & w2 & _ & _ & ->);
     [|done|done]);
    (split; [simpl; by rewrite last_snoc|simpl; apply lookup_delete_eq]).
Qed.

(** X19: the state machine runs for registered features only.  Called
    for a feature that the registry does not have, [implementFeature],
    [verifyFeatureTests] and [resumeFeatureWithContext] throw the
    not-registered error at once: nothing is written, emitted or asked of
    the delegate. *)
Theorem invocations_need_registration sdk_query renderer feature projectPath
    context w :
  has (id feature) w = false →
  implementFeature sdk_query renderer feature projectPath w
  = (Throw (not_registered feature), w) ∧
  verifyFeatureTests sdk_query renderer feature projectPath w
  = (Throw (not_registered feature), w) ∧
  resumeFeatureWithContext sdk_query renderer feature projectPath context w
  = (Throw (not_registered feature), w).
Proof.
  intros Hhas. unfold has in Hhas. apply bool_decide_eq_false in Hhas.
  unfold implementFeature, verifyFeatureTests, resumeFeatureWithContext,
    bind, get.
  destruct (id feature ≫= λ k, runningFeatures w !! k) as [x|] eqn:E;
    [by destruct Hhas; eexists|done].
Qed.





Section WithoutSteps.

Variable sdk_query : QueryCall → World → Stream.
Variable renderer : Event → option JsError.
Variable feature : Feature.
Variable projectPath : string.
Variable I : World → Prop.

Hypothesis renderer_takes_all : ∀ ev, renderer ev = None.
Hypothesis no_steps : steps feature = None.
Hypothesis stable : stable_engine I.




End WithoutSteps.


Lemma has_registered featureId projectPath w :
  has (Some featureId) (register featureId projectPath w).2 = true.
Proof.
  unfold has. apply bool_decide_eq_true_2. simpl.
  rewrite lookup_insert_eq. by eexists.
Qed.

Lemma has_ext key w w' :
  runningFeatures w' = runningFeatures w → has key w' = has key w.
Proof. intros H. unfold has. by rewrite H. Qed.


Ltac body_fails e0 Hs Hr Ht Hitems Hend :=
  repeat returns_step Hs Hr Ht;
  apply triple_bind_query; [done|]; intros ? ?; simpl;
  repeat returns_step Hs Hr Ht;
  eapply triple_bind with (R := λ r _, r = Throw e0);
  [ unfold consume;
    match goal with
    | |- triple ?P (for_await _ _ _ (items (?sdk ?call ?w0)) _ _ _) _ =>
        rewrite (Hend call w0);
        apply for_await_raises with (I := P);
        [ apply registered_has
        | intros x Hx; apply preserves_run_effect_registered;
          intros ->; by apply (Hitems call w0)
        | intros ? ?;
          first [ apply spec_on_message; [apply Hs|apply Hr]
                | apply spec_on_message_implement; [apply Hs|apply Hr] ] ]
    end
  | intros ? ? Hraise; simpl in Hraise; by injection Hraise as ->
  | intros ? ? Hraise; simpl in Hraise; discriminate ].

Ltac fails feature e0 Hsteps Hrender Hitems Hend Hnon :=
  apply triple_bind_get; intros [execution|];
  [|intros ? [Hhas Hnone]; by destruct (has_not_registered _ _ Hhas)];
  eapply triple_conseq with (P' := registered (id feature) execution);
    [|by intros ? [_ ?]|intros ? ? H; exact H];
  pose proof (stable_engine_registered (id feature) execution) as Hs;
  pose proof (clock_stable_registered (id feature) execution) as Hc;
  pose proof (renderer_never_throws _ Hrender) as Hr;
  assert (Ht : steps feature = None → ∀ m : string, False)
    by (intros Hn; rewrite Hn in Hsteps; by destruct Hsteps);
  eapply triple_try_catch with (R := λ r _, r = Throw e0);
  [ body_fails e0 Hs Hr Ht Hitems Hend
  | by intros ? ? [=]
  | intros ? ? H; simpl in H; injection H as ->;
    unfold on_error; by rewrite Hnon ].

Section DelegateFails.

Variable sdk_query : QueryCall → World → Stream.
Variable renderer : Event → option JsError.
Variable error : JsError.

Hypothesis renderer_takes_all : ∀ ev, renderer ev = None.
Hypothesis streams_fail : ∀ call w, ending (sdk_query call w) = Raise error.
Hypothesis not_a_cancellation : is_abort error = false.
Hypothesis no_stop_before_items :
  ∀ call w, ConcurrentStop ∉ concat (fst <$> items (sdk_query call w)).

Lemma implementFeature_fails feature projectPath :
  is_Some (steps feature) →
  triple (λ w, has (id feature) w = true)
    (implementFeature sdk_query renderer feature projectPath)
    (λ r _, r = Throw error).
Proof.
  intros Hsteps. unfold implementFeature.
  fails feature error Hsteps renderer_takes_all no_stop_before_items
    streams_fail not_a_cancellation.
Qed.

Lemma verifyFeatureTests_fails feature projectPath :
  is_Some (steps feature) →
  triple (λ w, has (id feature) w = true)
    (verifyFeatureTests sdk_query renderer feature projectPath)
    (λ r _, r = Throw error).
Proof.
  intros Hsteps. unfold verifyFeatureTests.
  fails feature error Hsteps renderer_takes_all no_stop_before_items
    streams_fail not_a_cancellation.
Qed.

Lemma resumeFeatureWithContext_fails feature projectPath context :
  is_Some (steps feature) →
  triple (λ w, has (id feature) w = true)
    (resumeFeatureWithContext sdk_query renderer feature projectPath context)
    (λ r _, r = Throw error).
Proof.
  intros Hsteps. unfold resumeFeatureWithContext.
  fails feature error Hsteps renderer_takes_all no_stop_before_items
    streams_fail not_a_cancellation.
Qed.

End DelegateFails.

(** X21: an error of the delegate that is not a cancellation is thrown
    on.  When the stream of the delegate ends with such an error (the
    feature being registered and having steps, the renderer taking the
    events, the registry entry being there while the items arrive),
    [implementFeature], [verifyFeatureTests] and
    [resumeFeatureWithContext] throw that very error to their caller
    instead of returning a result. *)
Theorem delegate_errors_are_rethrown sdk_query renderer feature projectPath
    context error w :
  (∀ ev, renderer ev = None) →
  (∀ call w, ending (sdk_query call w) = Raise error) →
  is_abort error = false →
  (∀ call w, ConcurrentStop ∉ concat (fst <$> items (sdk_query call w))) →
  is_Some (steps feature) →
  has (id feature) w = true →
  (implementFeature sdk_query renderer feature projectPath w).1
    = Throw error ∧
  (verifyFeatureTests sdk_query renderer feature projectPath w).1
    = Throw error ∧
  (resumeFeatureWithContext sdk_query renderer feature projectPath context
     w).1 = Throw error.
Proof.
  intros Hr Hend Hnon Hitems Hsteps Hreg. split; [|split].
  - by apply (implementFeature_fails _ _ _ Hr Hend Hnon Hitems _ _ Hsteps w).
  - by apply (verifyFeatureTests_fails _ _ _ Hr Hend Hnon Hitems _ _ Hsteps w).
  - by apply (resumeFeatureWithContext_fails _ _ _ Hr Hend Hnon Hitems _ _ _
                Hsteps w).
Qed.

(** ** The message of a result *)




(** ** Project analysis *)

Section AnalysisResults.

Variable sdk_analysis : AnalysisCall → World → Stream.
Variable renderer : Event → option JsError.

Lemma on_analysis_error_returns execution error
    (Q : Res AnalysisResult → World → Prop) :
  (is_abort error = true →
   ∀ w, Q (Ok (mkAnalysisResult false "Analysis aborted")) w) →
  (is_abort error = false → ∀ w, Q (Throw error) w) →
  triple (λ _, True) (on_analysis_error execution error) Q.
Proof.
  intros Ha Hn w _. unfold on_analysis_error.
  destruct (is_abort error); [by apply Ha|by apply Hn].
Qed.

(** The two results [runProjectAnalysis] can return. *)
Lemma runProjectAnalysis_results projectPath analysisId :
  triple (λ _, True)
    (runProjectAnalysis sdk_analysis renderer projectPath analysisId)
    (λ r _, ∀ res, r = Ok res →
       res = mkAnalysisResult true "Project analyzed successfully" ∨
       res = mkAnalysisResult false "Analysis aborted").
Proof.
  unfold runProjectAnalysis. apply triple_skip; [done|].
  intros [execution|]; [|by apply triple_throw].
  eapply triple_try_catch
    with (R := λ r _, ∀ res, r = Ok res →
                 res = mkAnalysisResult true "Project analyzed successfully" ∨
                 res = mkAnalysisResult false "Analysis aborted").
  - repeat (cbv zeta; apply triple_skip; [by intros|intros ?]).
    apply triple_ret. intros ? _ ? [= <-]. by left.
  - intros ? ? H. exact H.
  - intros e. eapply triple_conseq;
      [ apply on_analysis_error_returns
          with (Q := λ r _, ∀ res, r = Ok res →
                  res = mkAnalysisResult true "Project analyzed successfully" ∨
                  res = mkAnalysisResult false "Analysis aborted")
      | done
      | intros ? ? H; exact H ].
    + intros _ ? ? [= <-]. by right.
    + done.
Qed.

Lemma report_analysis_Ok (body : M AnalysisResult) analysisId w r w' :
  try_catch body (report_analysis renderer analysisId) w = (Ok r, w') →
  body w = (Ok r, w').
Proof.
  unfold try_catch. destruct (body w) as [[a|e] w1]; [done|].
  unfold report_analysis, bind, console_error, modify, sendToRenderer.
  by destruct (renderer _).
Qed.

Lemma sendToRenderer_inv ev w w' :
  sendToRenderer renderer ev w = (Ok tt, w') →
  w' = set_rendered (λ l, l ++ [ev]) w.
Proof.
  unfold sendToRenderer. destruct (renderer ev); [done|]. by intros [= <-].
Qed.

End AnalysisResults.

(** X23: an analysis that returns reports success, also when it was
    cancelled.  A result of [analyzeProject] always has [success: true];
    its message is "Project analyzed successfully" or, after a
    cancellation, "Analysis aborted", and the completion event, the last
    one delivered, says [passes] in the first case only.  The id of
    the analysis, made of the clock, is not left in the registry; an
    analysis whose id is registered already is turned down with nothing
    changed. *)
Theorem analyzeProject_result sdk_analysis renderer projectPath w :
  let analysisId := "project-analysis-" +:+ pretty (clock w) in
  (∀ r w',
     analyzeProject sdk_analysis renderer projectPath w = (Ok r, w') →
     analysis_success r = true ∧
     ∃ completed : bool,
       analysis_message r
       = (if completed then "Project analyzed successfully"
          else "Analysis aborted") ∧
       last (rendered w')
       = Some (auto_mode_feature_complete (Some analysisId) completed
                 (analysis_message r))) ∧
  (runningFeatures w !! analysisId = None →
   runningFeatures (analyzeProject sdk_analysis renderer projectPath w).2
     !! analysisId = None) ∧
  (is_Some (runningFeatures w !! analysisId) →
   analyzeProject sdk_analysis renderer projectPath w
   = (Throw (Error "Project analysis is already running"), w)).
Proof.
  intros analysisId. unfold analyzeProject.
  rewrite (bind_run (get clock) _ w _ w eq_refl). cbv zeta. fold analysisId.
  rewrite (bind_run (get (has (Some analysisId))) _ w _ w eq_refl).
  split; [|split].
  - intros r w' H. destruct (has (Some analysisId) w); [done|].
    apply bind_Ok in H as ([] & w1 & _ & H).
    apply try_finally_inv in H as (w2 & H & ->).
    apply report_analysis_Ok in H.
    apply bind_Ok in H as ([] & w3 & _ & H).
    apply bind_Ok in H as (res & w4 & Hrun & H).
    apply bind_Ok in H as ([] & w5 & Hsend & H).
    apply sendToRenderer_inv in Hsend as ->. injection H as <- <-.
    split; [done|].
    pose proof (runProjectAnalysis_results sdk_analysis renderer projectPath
                  analysisId w3 Logic.I) as Hres.
    rewrite Hrun in Hres. destruct (Hres res eq_refl) as [->| ->].
    + exists true. split; [done|]. simpl. by rewrite last_snoc.
    + exists false. split; [done|]. simpl. by rewrite last_snoc.
  - intros Hnone.
    assert (Hhas : has (Some analysisId) w = false).
    { unfold has. simpl. rewrite Hnone. apply bool_decide_eq_false_2.
      by intros [? [=]]. }
    rewrite Hhas. unfold bind, register, modify, try_finally.
    match goal with |- context [try_catch ?b ?h ?x] =>
      destruct (try_catch b h x) as [r1 w1] end.
    simpl. apply lookup_delete_eq.
  - intros Hsome.
    assert (Hhas : has (Some analysisId) w = true)
      by (unfold has; by apply bool_decide_eq_true_2).
    by rewrite Hhas.
Qed.

Lemma triple_bind_query_analysis {B} sdk_analysis (I : World → Prop) call
    (k : nat * Stream → M B) (Q : Res B → World → Prop) :
  (∀ q w0, triple I (k (q, sdk_analysis call w0)) Q) →
  triple I (bind (query_analysis sdk_analysis call) k) Q.
Proof. intros Hk w Hw. unfold bind, query_analysis. by apply Hk. Qed.

Section AnalysisCancelled.

Variable sdk_analysis : AnalysisCall → World → Stream.
Variable renderer : Event → option JsError.

Hypothesis renderer_takes_all : ∀ ev, renderer ev = None.
Hypothesis streams_abort :
  ∀ call w, ∃ e, ending (sdk_analysis call w) = Raise e ∧ is_abort e = true.
Hypothesis no_stop_before_items :
  ∀ call w, ConcurrentStop ∉ concat (fst <$> items (sdk_analysis call w)).

Lemma spec_on_message_analysis I φ analysisId msg acc :
  stable_log I → renderer_throws renderer φ →
  spec I φ (on_message_analysis renderer analysisId msg acc).
Proof.
  intros Hs Hr. destruct msg as [content|]; simpl; [|apply spec_ret].
  apply spec_for_of. intros block a.
  destruct block; simpl;
    repeat first [apply spec_sendToRenderer; [apply Hs|apply Hr] | spec1].
Qed.

Lemma runProjectAnalysis_aborted projectPath analysisId :
  triple (λ w, has (Some analysisId) w = true)
    (runProjectAnalysis sdk_analysis renderer projectPath analysisId)
    (λ r _, r = Ok (mkAnalysisResult false "Analysis aborted")).
Proof.
  unfold runProjectAnalysis.
  apply triple_bind_get; intros [execution|];
    [|intros ? [Hhas Hnone];
      by destruct (has_not_registered (Some analysisId) _ Hhas)].
  eapply triple_conseq with (P' := registered (Some analysisId) execution);
    [|by intros ? [_ ?]|intros ? ? H; exact H].
  pose proof (stable_engine_registered (Some analysisId) execution) as Hs.
  pose proof (renderer_never_throws _ renderer_takes_all) as Hr.
  eapply triple_try_catch
    with (R := λ r _, ∃ e, r = Throw e ∧ is_abort e = true).
  - repeat lazymatch goal with
           | |- triple _ (bind (query_analysis _ _) _) _ => fail
           | |- _ => returns_step Hs Hr Hs
           end.
    apply triple_bind_query_analysis. intros q w0. simpl.
    repeat returns_step Hs Hr Hs.
    eapply triple_bind with (R := λ r _, ∃ e, r = Throw e ∧ is_abort e = true).
    + unfold consume.
      match goal with
      | |- context [ending (sdk_analysis ?call w0)] =>
          destruct (streams_abort call w0) as (error & Herr & Habort)
      end.
      rewrite Herr.
      eapply triple_conseq
        with (P' := registered (Some analysisId) execution);
        [ apply for_await_raises
            with (I := registered (Some analysisId) execution)
        | intros ? H; exact H
        | intros r ? Hraise; simpl in Hraise; subst r; by exists error ].
      * apply registered_has.
      * intros x Hx. apply preserves_run_effect_registered.
        intros ->. by apply no_stop_before_items in Hx.
      * intros msg acc. apply spec_on_message_analysis; [apply Hs|apply Hr].
    + intros e w (e' & Heq & Hab). exists e'. split; [by inversion Heq|done].
    + intros ? w (e' & Heq & _). discriminate.
  - intros ? w (e' & Heq & _). discriminate.
  - intros e w (e' & Heq & Hab). injection Heq as <-.
    unfold on_analysis_error. by rewrite Hab.
Qed.

End AnalysisCancelled.

(** X24: a cancelled analysis ends as a success.  When the stream of the
    delegate raises a cancellation (the renderer taking the events, the
    registry entry being there while the items arrive, no analysis with
    the same id running), [analyzeProject] returns [success: true] with
    the message "Analysis aborted", after a completion event that says
    [passes: false]. *)
Theorem cancelled_analysis_is_a_success sdk_analysis renderer projectPath w :
  (∀ ev, renderer ev = None) →
  (∀ call w,
     ∃ e, ending (sdk_analysis call w) = Raise e ∧ is_abort e = true) →
  (∀ call w, ConcurrentStop ∉ concat (fst <$> items (sdk_analysis call w))) →
  runningFeatures w !! ("project-analysis-" +:+ pretty (clock w)) = None →
  ∃ w', analyzeProject sdk_analysis renderer projectPath w
        = (Ok (mkAnalysisResult true "Analysis aborted"), w') ∧
    last (rendered w')
    = Some (auto_mode_feature_complete
              (Some ("project-analysis-" +:+ pretty (clock w))) false
              "Analysis aborted").
Proof.
  intros Hr Hend Hitems Hnone.
  set (analysisId := "project-analysis-" +:+ pretty (clock w)) in *.
  assert (Hhas : has (Some analysisId) w = false).
  { unfold has. simpl. rewrite Hnone. apply bool_decide_eq_false_2.
    by intros [? [=]]. }
  unfold analyzeProject.
  rewrite (bind_run (get clock) _ w _ w eq_refl). cbv zeta. fold analysisId.
  rewrite (bind_run (get (has (Some analysisId))) _ w _ w eq_refl), Hhas.
  unfold bind at 1, register at 1, modify.
  set (w1 := set_runningFeatures _ _).
  unfold try_finally, try_catch.
  rewrite (bind_run _ _ _ _ _ (sendToRenderer_run renderer Hr _ w1)).
  set (w2 := set_rendered _ w1).
  pose proof (runProjectAnalysis_aborted sdk_analysis renderer Hr Hend Hitems
                projectPath analysisId w2) as Hrun.
  unfold bind at 1.
  destruct (runProjectAnalysis sdk_analysis renderer projectPath analysisId w2)
    as [r3 w3].
  simpl in Hrun. rewrite Hrun; [|apply (has_registered analysisId projectPath w)].
  rewrite (bind_run _ _ _ _ _ (sendToRenderer_run renderer Hr _ w3)).
  eexists. split; [reflexivity|]. simpl. by rewrite last_snoc.
Qed.

(** ** A failing iteration of the loop *)

Lemma selectNextFeature_elem_of l f :
  selectNextFeature l = Some f → f ∈ l.
Proof.
  unfold selectNextFeature. intros H. apply find_some in H as [H _].
  by apply list_elem_of_In.
Qed.

(** X25: the loop reports a failure of the delegate and goes on.  When
    the stream of the delegate ends with an error that is not a
    cancellation (the renderer taking the events, the registry entry
    being there while the items arrive), an iteration that selects a
    feature with steps, not yet running, does not throw: it delivers the
    error event with the message of that error and the id of the
    feature as its last event, unregisters the feature, waits, and asks
    for another round. *)
Theorem iteration_reports_delegate_failure sdk_query renderer projectPath
    error nextFeature w :
  (∀ ev, renderer ev = None) →
  (∀ call w, ending (sdk_query call w) = Raise error) →
  is_abort error = false →
  (∀ call w, ConcurrentStop ∉ concat (fst <$> items (sdk_query call w))) →
  selectNextFeature (reload projectPath w) = Some nextFeature →
  is_Some (steps nextFeature) →
  has (id nextFeature) w = false →
  ∃ featureId w',
    id nextFeature = Some featureId ∧
    iteration sdk_query renderer projectPath w = (Ok Continue, w') ∧
    last (rendered w')
    = Some (auto_mode_error (error_message error) (Some featureId)) ∧
    runningFeatures w' !! featureId = None.
Proof.
  intros Hr Hend Hnon Hitems Hsel Hsteps Hhas. rewrite reload_stored in Hsel.
  assert (Hfile : ∃ wr l, featureLists w !! projectPath
                          = Some (FLFile wr (FeatureArray l))).
  { unfold stored in Hsel.
    destruct (featureLists w !! projectPath) as [[|wr [| |l]]|]; try done.
    by eexists _, _. }
  destruct Hfile as (wr & l & Hfile).
  pose proof (loadFeatures_array _ _ _ _ Hfile) as Hload.
  rewrite <- (stored_array _ _ _ _ Hfile) in Hload.
  assert (Hid : truthy (id nextFeature) = true).
  { pose proof (stored_identified projectPath w) as Hall.
    unfold identified in Hall. rewrite Forall_forall in Hall.
    by apply Hall, selectNextFeature_elem_of. }
  destruct (id nextFeature) as [featureId|] eqn:Eid; [|done].
  exists featureId.
  unfold iteration, bind at 1, try_catch at 1, bind at 1.
  rewrite Hload, Hsel. simpl. rewrite Eid.
  unfold try_catch, bind at 1, get. rewrite Hhas.
  rewrite (bind_run _ _ _ _ _ (sendToRenderer_run renderer Hr _ w)).
  set (w2 := set_rendered _ w).
  unfold bind at 1, register at 1, modify. simpl.
  set (w3 := set_runningFeatures _ _).
  pose proof (implementFeature_fails sdk_query renderer error Hr Hend Hnon
                Hitems nextFeature projectPath Hsteps w3) as Hrun.
  unfold bind at 1.
  destruct (implementFeature sdk_query renderer nextFeature projectPath w3)
    as [r4 w4].
  simpl in Hrun. rewrite Hrun.
  2:{ rewrite Eid. apply (has_registered featureId projectPath w2). }
  unfold iteration_failed, bind, console_error, modify, sendToRenderer, sleep.
  rewrite Hr. simpl. simpl in Hid. rewrite Hid. simpl.
  eexists. split; [done|]. split; [reflexivity|]. simpl.
  split; [by rewrite last_snoc|apply lookup_delete_eq].
Qed.

(** ** Releasing the controller *)

Lemma stable_log_released execution : stable_log (released execution).
Proof. split; intros f w H; exact H. Qed.

Lemma on_error_releases execution aborted logged error :
  triple (λ _, True) (on_error execution aborted logged error)
    (λ _ w, released execution w).
Proof.
  intros w _. unfold on_error.
  destruct (is_abort error);
    unfold bind, console_error, assign_abortController, assign_query, modify;
    intros e; unfold set_executions, set_console; simpl;
    rewrite !list_lookup_alter_eq;
    destruct (executions w !! execution); simpl; intros ?; by simplify_eq.
Qed.

Lemma on_analysis_error_releases execution error :
  triple (λ _, True) (on_analysis_error execution error)
    (λ _ w, released execution w).
Proof.
  intros w _. unfold on_analysis_error.
  destruct (is_abort error);
    unfold bind, console_error, assign_abortController, assign_query, modify;
    intros e; unfold set_executions, set_console; simpl;
    rewrite !list_lookup_alter_eq;
    destruct (executions w !! execution); simpl; intros ?; by simplify_eq.
Qed.

Lemma release_then {B} execution (rest : M B) (Q : Res B → World → Prop) :
  triple (released execution) rest Q →
  triple (λ _, True)
    (do! assign_query execution None in
     do! assign_abortController execution None in
     rest) Q.
Proof.
  intros H w _. unfold bind, assign_abortController, assign_query, modify.
  apply H. intros e. unfold set_executions. simpl.
  rewrite !list_lookup_alter_eq.
  destruct (executions w !! execution); simpl; intros ?; by simplify_eq.
Qed.

Ltac releases renderer execution :=
  apply triple_bind_get; intros [execution'|];
  [|intros ? [Hw Heq]; rewrite Hw in Heq; discriminate];
  intros w [Hw Heq]; rewrite Hw in Heq; injection Heq as <-;
  refine ((_ : triple (λ _, True) _ (λ _ w, released execution w))
            w Logic.I);
  clear w Hw;
  eapply triple_try_catch
    with (R := λ r w, (∀ e, r ≠ Throw e) → released execution w);
  [ repeat lazymatch goal with
           | |- triple _ (bind (assign_query _ None) _) _ => fail
           | |- triple _ (bind _ _) _ =>
               apply triple_skip;
               [intros ? ? Hok; by destruct (Hok _ eq_refl)|intros ?]
           end;
    apply release_then;
    eapply triple_conseq;
    [ apply spec_invariant with (φ := λ _, True);
      pose proof (stable_log_released execution) as Hs;
      repeat first
        [ apply (spec_sendToRenderer renderer); [apply Hs|done]
        | apply spec_reload_verified, Hs
        | spec1 ]
    | intros ? H; exact H
    | by intros ? ? H _ ]
  | intros ? ? H; by apply H
  | intros ?; eapply triple_conseq;
    [ first [apply on_error_releases|apply on_analysis_error_releases]
    | done
    | intros ? ? H; exact H ] ].

Section Release.

Variable sdk_query : QueryCall → World → Stream.
Variable sdk_analysis : AnalysisCall → World → Stream.
Variable renderer : Event → option JsError.

Lemma implementFeature_releases feature projectPath execution :
  triple (registered (id feature) execution)
    (implementFeature sdk_query renderer feature projectPath)
    (λ _ w, released execution w).
Proof. unfold implementFeature. releases renderer execution. Qed.

Lemma verifyFeatureTests_releases feature projectPath execution :
  triple (registered (id feature) execution)
    (verifyFeatureTests sdk_query renderer feature projectPath)
    (λ _ w, released execution w).
Proof. unfold verifyFeatureTests. releases renderer execution. Qed.

Lemma resumeFeatureWithContext_releases feature projectPath context
    execution :
  triple (registered (id feature) execution)
    (resumeFeatureWithContext sdk_query renderer feature projectPath context)
    (λ _ w, released execution w).
Proof. unfold resumeFeatureWithContext. releases renderer execution. Qed.

Lemma runProjectAnalysis_releases projectPath analysisId execution :
  triple (registered (Some analysisId) execution)
    (runProjectAnalysis sdk_analysis renderer projectPath analysisId)
    (λ _ w, released execution w).
Proof. unfold runProjectAnalysis. releases renderer execution. Qed.

End Release.

(** X26: no invocation keeps its controller.  When [implementFeature],
    [verifyFeatureTests], [resumeFeatureWithContext] or
    [runProjectAnalysis] ends, by a result or by an error, whatever the
    delegate and the renderer did, the execution object it was
    registered with refers to no abort controller and to no query any
    more. *)
Theorem invocations_release_the_controller sdk_query sdk_analysis renderer
    feature projectPath context analysisId execution w :
  (registered (id feature) execution w →
   released execution
     (implementFeature sdk_query renderer feature projectPath w).2 ∧
   released execution
     (verifyFeatureTests sdk_query renderer feature projectPath w).2 ∧
   released execution
     (resumeFeatureWithContext sdk_query renderer feature projectPath
        context w).2) ∧
  (registered (Some analysisId) execution w →
   released execution
     (runProjectAnalysis sdk_analysis renderer projectPath analysisId w).2).
Proof.
  split.
  - intros Hreg. split; [|split].
    + by apply (implementFeature_releases sdk_query renderer feature
                  projectPath execution w).
    + by apply (verifyFeatureTests_releases sdk_query renderer feature
                  projectPath execution w).
    + by apply (resumeFeatureWithContext_releases sdk_query renderer feature
                  projectPath context execution w).
  - intros Hreg.
    by apply (runProjectAnalysis_releases sdk_analysis renderer projectPath
                analysisId execution w).
Qed.

(** ** When the entry points return *)

Lemma writable_ext pp w w' :
  featureLists w' !! pp = featureLists w !! pp → writable pp w → writable pp w'.
Proof. intros H [c Hc]. exists c. by rewrite H. Qed.

Lemma preserves_updateFeatureStatus_writable pp featureId status projectPath :
  preserves (writable pp) (updateFeatureStatus featureId status projectPath).
Proof.
  intros w Hw.
  destruct (find_feature (Some featureId) (stored projectPath w))
    as [[i f]|] eqn:Hfound.
  - destruct (found_array _ _ _ _ _ Hfound) as (wr & l & Hfile).
    destruct wr.
    + destruct (updateFeatureStatus_ok _ status _ _ _ _ _ Hfile Hfound)
        as (w' & -> & Hfl & _). simpl.
      destruct (decide (projectPath = pp)) as [->|Hne].
      * eexists. by rewrite Hfl, lookup_insert_eq.
      * apply (writable_ext pp w); [|done].
        by rewrite Hfl, lookup_insert_ne.
    + by rewrite (updateFeatureStatus_found _ status _ _ _ _ _ _ Hfound Hfile).
  - destruct (updateFeatureStatus_missing _ status _ _ Hfound) as (co & ->).
    exact Hw.
Qed.

Lemma preserves_updateFeatureStatus_workable pp fid featureId status
    projectPath :
  preserves (workable pp fid)
    (updateFeatureStatus featureId status projectPath).
Proof.
  intros w [Hp Hw]. split.
  - by apply preserves_updateFeatureStatus_persisted.
  - by apply preserves_updateFeatureStatus_writable.
Qed.

Lemma stable_engine_workable pp fid : stable_engine (workable pp fid).
Proof. split; [split|..]; intros f w H; exact H. Qed.

Lemma preserves_run_effect_workable pp fid projectPath e :
  (∀ node, e ≠ OverwriteFeatureList pp node) →
  preserves (workable pp fid) (run_effect projectPath e).
Proof.
  intros Hne w [Hp Hw]. split.
  - by apply preserves_run_effect_persisted.
  - clear Hp. revert w Hw.
    destruct e as [featureId status|ms| |pp' node|pp' featureId node]; simpl.
    + apply preserves_bind; [|intros; apply preserves_ret].
      apply preserves_UpdateFeatureStatus; [by split|].
      apply preserves_updateFeatureStatus_writable.
    + by apply preserves_sleep.
    + apply preserves_bind; [|intros; apply preserves_ret].
      by apply preserves_stop.
    + apply preserves_modify. intros w Hw. apply (writable_ext pp w); [|done].
      simpl. destruct (decide (pp' = pp)) as [->|Hpp]; [by destruct (Hne node)|].
      destruct node; by rewrite ?lookup_insert_ne, ?lookup_delete_ne.
    + by apply preserves_modify.
Qed.

Section Completion.

Variable sdk_query : QueryCall → World → Stream.
Variable renderer : Event → option JsError.
Variable projectPath : string.
Variable I : World → Prop.
Variable feature : Feature.

Hypothesis renderer_takes_all : ∀ ev, renderer ev = None.
Hypothesis only_cancellations : ends_or_cancels sdk_query.
Hypothesis engine : engine_invariant sdk_query projectPath I.
Hypothesis clock_independent : clock_stable I.
Hypothesis has_steps : is_Some (steps feature).

Ltac invocation_returns :=
  destruct engine as (Hs & Hq & He);
  apply triple_bind_get; intros [execution|];
  [|intros ? [[_ Hhas] Hnone]; by destruct (has_not_registered _ _ Hhas)];
  eapply triple_conseq;
  [ apply (spec_try_catch I (λ _, False) (λ e, non_abort e → False))
  | by intros ? [[? _] _]
  | intros ? ? H; exact H ];
  [ assert (Hr : renderer_throws renderer (λ e, non_abort e → False))
      by (intros ev e; by rewrite renderer_takes_all);
    assert (Hd : delegate_raises sdk_query (λ e, non_abort e → False))
      by (intros call w e Hraise Hnon; unfold non_abort in Hnon;
          rewrite (only_cancellations call w e Hraise) in Hnon;
          discriminate);
    assert (Ht : steps feature = None →
                 ∀ m, non_abort (TypeError m) → False)
      by (intros Hn; rewrite Hn in has_steps; by destruct has_steps);
    spec_engine Hs Hq He Hr Hd Ht
  | intros e Hφ; by apply spec_on_error ].

Lemma implementFeature_returns :
  triple (λ w, I w ∧ has (id feature) w = true)
    (implementFeature sdk_query renderer feature projectPath)
    (λ r w, I w ∧ ∀ e, r = Throw e → False).
Proof. unfold implementFeature. invocation_returns. Qed.

Lemma verifyFeatureTests_returns :
  triple (λ w, I w ∧ has (id feature) w = true)
    (verifyFeatureTests sdk_query renderer feature projectPath)
    (λ r w, I w ∧ ∀ e, r = Throw e → False).
Proof. unfold verifyFeatureTests. invocation_returns. Qed.

Lemma resumeFeatureWithContext_returns context :
  triple (λ w, I w ∧ has (id feature) w = true)
    (resumeFeatureWithContext sdk_query renderer feature projectPath context)
    (λ r w, I w ∧ ∀ e, r = Throw e → False).
Proof. unfold resumeFeatureWithContext. invocation_returns. Qed.

End Completion.

Lemma engine_invariant_workable sdk_query projectPath featureId :
  (∀ call w node,
     OverwriteFeatureList projectPath node
     ∉ stream_effects (sdk_query call w)) →
  engine_invariant sdk_query projectPath (workable projectPath featureId).
Proof.
  intros Htool. split; [apply stable_engine_workable|]. split; [done|].
  intros call w e He. apply preserves_run_effect_workable.
  intros node ->. by apply (Htool call w node).
Qed.

Lemma engine_invariant_and sdk_query projectPath (I J : World → Prop) :
  engine_invariant sdk_query projectPath I →
  engine_invariant sdk_query projectPath J →
  engine_invariant sdk_query projectPath (λ w, I w ∧ J w).
Proof.
  intros ([[I1 I2 I3] I4 I5] & I6 & I7) ([[J1 J2 J3] J4 J5] & J6 & J7).
  split; [split; [split|..]|split].
  - intros f w [? ?]. split; [by apply I1|by apply J1].
  - intros f w [? ?]. split; [by apply I2|by apply J2].
  - intros f w [? ?]. split; [by apply I3|by apply J3].
  - intros f w [? ?]. split; [by apply I4|by apply J4].
  - intros f w [? ?]. split; [by apply I5|by apply J5].
  - intros f w [? ?]. split; [by apply I6|by apply J6].
  - intros call w e He w0 [? ?].
    split; [by apply (I7 call w e He)|by apply (J7 call w e He)].
Qed.

Lemma engine_invariant_registered sdk_query projectPath key execution :
  (∀ call w, ConcurrentStop ∉ stream_effects (sdk_query call w)) →
  engine_invariant sdk_query projectPath (registered key execution).
Proof.
  intros Hstop. split; [apply stable_engine_registered|]. split; [done|].
  intros call w e He. apply preserves_run_effect_registered.
  intros ->. by apply (Hstop call w).
Qed.

Section Retrying.

Variable sdk_query : QueryCall → World → Stream.
Variable renderer : Event → option JsError.
Variables (projectPath featureId : string) (feature : Feature).
Variable I : World → Prop.

Hypothesis renderer_takes_all : ∀ ev, renderer ev = None.
Hypothesis only_cancellations : ends_or_cancels sdk_query.
Hypothesis engine : engine_invariant sdk_query projectPath I.
Hypothesis has_steps : is_Some (steps feature).
Hypothesis stays_registered : ∀ w, I w → has (id feature) w = true.

Lemma spec_attempt context :
  spec I (λ _, False)
    (resumeFeatureWithContext sdk_query renderer feature projectPath context).
Proof.
  eapply triple_conseq;
    [ apply (resumeFeatureWithContext_returns sdk_query renderer projectPath I
               feature renderer_takes_all only_cancellations engine has_steps)
    | intros w Hw; split; [done|by apply stays_registered]
    | intros ? ? H; exact H ].
Qed.

Lemma spec_retry remaining attempts res :
  spec I (λ _, False)
    (retry sdk_query renderer remaining attempts feature projectPath
       featureId res).
Proof.
  destruct engine as (Hs & _).
  pose proof (renderer_never_throws _ renderer_takes_all) as Hr.
  revert attempts res. induction remaining as [|remaining IH];
    intros attempts res; simpl; [apply spec_ret|].
  repeat first
    [ apply spec_attempt
    | apply IH
    | apply spec_sendToRenderer; [apply Hs|apply Hr]
    | spec1 ].
Qed.

End Retrying.

Lemma workable_update projectPath featureId status w :
  workable projectPath featureId w →
  ∃ w', updateFeatureStatus featureId status projectPath w = (Ok tt, w') ∧
        workable projectPath featureId w' ∧
        runningFeatures w' = runningFeatures w.
Proof.
  intros [Hp [c Hfile]].
  destruct (persisted_found _ _ _ Hp) as (i & f & Hf).
  destruct (updateFeatureStatus_ok _ status _ _ _ _ _ Hfile Hf)
    as (w' & Hrun & _ & _ & _ & Hrf & _).
  exists w'. split; [done|]. split; [|done].
  pose proof (preserves_updateFeatureStatus_workable projectPath featureId
                featureId status projectPath w (conj Hp (ex_intro _ c Hfile)))
    as H.
  by rewrite Hrun in H.
Qed.

(** X27: when the entry points return.  Let the renderer take the
    events, let the streams of the delegate end normally or with a
    cancellation, and let the delegate not write the list file itself.
    For a feature that is not running, has steps, and whose record is
    in a writable list file under its id, [runFeature] and
    [verifyFeature] return a result, and the status then stored is
    "verified" if the result passes and otherwise "backlog" for a run,
    "in_progress" for a verification.  So does [resumeFeature], storing
    "verified" or "in_progress", if moreover nobody stops the service
    during the streams. *)
Theorem entry_points_return sdk_query renderer projectPath featureId feature
    w :
  (∀ ev, renderer ev = None) →
  ends_or_cancels sdk_query →
  (∀ call w node,
     OverwriteFeatureList projectPath node
     ∉ stream_effects (sdk_query call w)) →
  workable projectPath featureId w →
  runningFeatures w !! featureId = None →
  find_by_id featureId (reload projectPath w) = Some feature →
  is_Some (steps feature) →
  (∃ r w', runFeature sdk_query renderer projectPath featureId w = (Ok r, w') ∧
     stored_status projectPath featureId w'
     = Some (if result_passes r then "verified" else "backlog")) ∧
  (∃ r w',
     verifyFeature sdk_query renderer projectPath featureId w = (Ok r, w') ∧
     stored_status projectPath featureId w'
     = Some (if result_passes r then "verified" else "in_progress")) ∧
  ((∀ call w, ConcurrentStop ∉ stream_effects (sdk_query call w)) →
   ∃ r w',
     resumeFeature sdk_query renderer projectPath featureId w = (Ok r, w') ∧
     stored_status projectPath featureId w'
     = Some (if result_passes r then "verified" else "in_progress")).
Proof.
  intros Hr Hend Htool Hwork Hk Hfind Hsteps. rewrite reload_stored in Hfind.
  assert (Hhas : has (Some featureId) w = false).
  { unfold has. simpl. rewrite Hk. apply bool_decide_eq_false_2.
    by intros [? [=]]. }
  pose proof (find_by_id_id _ _ _ Hfind) as Hid.
  pose proof Hwork as [Hp [c Hfile]].
  destruct (persisted_found _ _ _ Hp) as (i & f & Hf).
  destruct (found_array _ _ _ _ _ Hf) as (wr & l & Hfile').
  rewrite Hfile in Hfile'. injection Hfile' as <- ->.
  set (w1 := (register featureId projectPath w).2).
  assert (Hfile1 : featureLists w1 !! projectPath
                   = Some (FLFile true (FeatureArray l))) by done.
  pose proof (loadFeatures_array _ _ _ _ Hfile1) as Hload.
  rewrite <- (stored_array _ _ _ _ Hfile1) in Hload.
  change (stored projectPath w1) with (stored projectPath w) in Hload.
  assert (Hhas1 : has (id feature) w1 = true)
    by (rewrite Hid; apply has_registered).
  assert (Hwork1 : workable projectPath featureId w1) by exact Hwork.
  pose proof (engine_invariant_workable sdk_query projectPath featureId Htool)
    as Hengine.
  assert (Hclock : clock_stable (workable projectPath featureId))
    by (by intros ? ? ?).
  split; [|split].
  - assert (∃ r w', runFeature sdk_query renderer projectPath featureId w
                    = (Ok r, w')) as (r & w' & Hrun).
    { unfold runFeature.
      rewrite (bind_run (get (has (Some featureId))) _ w _ w eq_refl), Hhas.
      unfold bind at 1, register at 1, modify. fold w1.
      unfold try_finally, try_catch.
      rewrite (bind_run _ _ _ _ _ Hload), Hfind.
      destruct (workable_update projectPath featureId "in_progress" w1 Hwork1)
        as (w2 & Hupd & Hwork2 & Hrf2).
      rewrite (bind_run _ _ _ _ _ Hupd).
      rewrite (bind_run _ _ _ _ _ (sendToRenderer_run renderer Hr _ w2)).
      set (w3 := set_rendered _ w2).
      pose proof (implementFeature_returns sdk_query renderer projectPath _
                    feature Hr Hend Hengine Hclock Hsteps w3) as Himpl.
      destruct Himpl as [Hwork4 Hok].
      { split; [exact Hwork2|]. rewrite <- Hhas1. apply has_ext.
        by rewrite <- Hrf2. }
      unfold bind at 1.
      destruct (implementFeature sdk_query renderer feature projectPath w3)
        as [[res|e] w4]; [|by destruct (Hok e)].
      simpl in Hwork4. rewrite Hid. simpl.
      destruct (workable_update projectPath featureId
                  (if passes res then "verified" else "backlog") w4 Hwork4)
        as (w5 & Hupd5 & _).
      rewrite (bind_run _ _ _ _ _ Hupd5).
      rewrite (bind_run _ _ _ _ _ (sendToRenderer_run renderer Hr _ w5)).
      by eexists _, _. }
    exists r, w'. split; [done|].
    destruct (runFeature_resolved sdk_query renderer projectPath Htool
                featureId w r w' Hrun)
      as (? & ? & res & ? & _ & _ & _ & Hres & Hst & _).
    by rewrite Hres.
  - assert (∃ r w', verifyFeature sdk_query renderer projectPath featureId w
                    = (Ok r, w')) as (r & w' & Hrun).
    { unfold verifyFeature.
      rewrite (bind_run (get (has (Some featureId))) _ w _ w eq_refl), Hhas.
      unfold bind at 1, register at 1, modify. fold w1.
      unfold try_finally, try_catch.
      rewrite (bind_run _ _ _ _ _ Hload), Hfind.
      rewrite (bind_run _ _ _ _ _ (sendToRenderer_run renderer Hr _ w1)).
      set (w3 := set_rendered _ w1).
      pose proof (verifyFeatureTests_returns sdk_query renderer projectPath _
                    feature Hr Hend Hengine Hsteps w3) as Himpl.
      destruct Himpl as [Hwork4 Hok]; [by split|].
      unfold bind at 1.
      destruct (verifyFeatureTests sdk_query renderer feature projectPath w3)
        as [[res|e] w4]; [|by destruct (Hok e)].
      simpl in Hwork4.
      destruct (workable_update projectPath featureId
                  (if passes res then "verified" else "in_progress") w4 Hwork4)
        as (w5 & Hupd5 & _).
      rewrite (bind_run _ _ _ _ _ Hupd5).
      rewrite (bind_run _ _ _ _ _ (sendToRenderer_run renderer Hr _ w5)).
      by eexists _, _. }
    exists r, w'. split; [done|].
    destruct (verifyFeature_resolved sdk_query renderer projectPath Htool
                featureId w r w' Hp Hrun)
      as (? & ? & res & ? & _ & _ & _ & Hres & Hst & _).
    by rewrite Hres.
  - intros Hstop.
    assert (∃ r w', resumeFeature sdk_query renderer projectPath featureId w
                    = (Ok r, w')) as (r & w' & Hrun).
    { unfold resumeFeature.
      rewrite (bind_run (get (has (Some featureId))) _ w _ w eq_refl), Hhas.
      unfold bind at 1, register at 1, modify. fold w1.
      unfold try_finally, try_catch.
      rewrite (bind_run _ _ _ _ _ Hload), Hfind.
      rewrite (bind_run _ _ _ _ _ (sendToRenderer_run renderer Hr _ w1)).
      set (w3 := set_rendered _ w1).
      rewrite (bind_run _ _ _ _ _
                 (readContextFile_exact projectPath featureId w3)).
      set (execution := length (executions w)).
      set (J := λ w0, workable projectPath featureId w0 ∧
                      registered (id feature) execution w0).
      assert (HJ : engine_invariant sdk_query projectPath J).
      { apply engine_invariant_and; [done|].
        by apply engine_invariant_registered. }
      assert (HJhas : ∀ w0, J w0 → has (id feature) w0 = true)
        by (intros w0 [_ H0]; by apply (registered_has _ execution)).
      assert (HJ3 : J w3).
      { split; [done|]. unfold registered. rewrite Hid. simpl.
        by rewrite lookup_insert_eq. }
      match goal with
      | |- context [resumeFeatureWithContext _ _ _ _ ?context] =>
          pose proof (spec_attempt sdk_query renderer projectPath feature J
                        Hr Hend HJ Hsteps HJhas context w3 HJ3) as Hfirst;
          unfold bind at 1;
          destruct (resumeFeatureWithContext sdk_query renderer feature
                      projectPath context w3) as [[res|e] w4]
      end; [|by destruct (proj2 Hfirst e)].
      destruct Hfirst as [HJ4 _]. simpl in HJ4.
      pose proof (spec_retry sdk_query renderer projectPath featureId feature
                    J Hr Hend HJ Hsteps HJhas maxAttempts 0%nat res w4 HJ4)
        as Hretry.
      unfold bind at 1.
      destruct (retry sdk_query renderer maxAttempts 0 feature projectPath
                  featureId res w4) as [[final|e] w5];
        [|by destruct (proj2 Hretry e)].
      destruct Hretry as [[Hwork5 _] _]. simpl in Hwork5.
      destruct (workable_update projectPath featureId
                  (if passes final then "verified" else "in_progress") w5
                  Hwork5) as (w6 & Hupd6 & _).
      rewrite (bind_run _ _ _ _ _ Hupd6).
      rewrite (bind_run _ _ _ _ _ (sendToRenderer_run renderer Hr _ w6)).
      by eexists _, _. }
    exists r, w'. split; [done|].
    by apply (resumeFeature_resolved sdk_query renderer projectPath Htool
                featureId w r w' Hp Hrun).
Qed.

(** ** An iteration of the loop that runs a feature *)

Lemma workable_update_status projectPath featureId status w :
  workable projectPath featureId w →
  ∃ w', updateFeatureStatus featureId status projectPath w = (Ok tt, w') ∧
        runningFeatures w' = runningFeatures w ∧
        rendered w' = rendered w ∧
        autoLoopRunning w' = autoLoopRunning w ∧
        ∀ w2, featureLists w2 !! projectPath = featureLists w' !! projectPath →
              stored_status projectPath featureId w2 = Some status.
Proof.
  intros [Hp [c Hfile]].
  destruct (persisted_found _ _ _ Hp) as (i & f & Hf).
  destruct (updateFeatureStatus_ok _ status _ _ _ _ _ Hfile Hf)
    as (w' & Hrun & Hfl & _ & _ & Hrf & Hre & Hloop).
  exists w'. split; [done|]. split; [done|]. split; [done|]. split; [done|].
  pose proof (proj1 (find_feature_Some _ _ _ _) Hf) as (Hi & _ & _).
  assert (Hid : identified (saved i status f (stored projectPath w)))
    by (apply saved_identified; [done|apply stored_identified]).
  assert (Hst : stored_status projectPath featureId w' = Some status).
  { eapply updateFeatureStatus_status; [|exact Hrun]. rewrite Hf. by eexists. }
  intros w2 H2. rewrite <- Hst. unfold stored_status.
  rewrite (reload_after_write projectPath w2
             (saved i status f (stored projectPath w)));
    [|by rewrite H2, Hfl, lookup_insert_eq|done].
  by rewrite (reload_after_write projectPath w'
                (saved i status f (stored projectPath w)));
    [|by rewrite Hfl, lookup_insert_eq|done].
Qed.

(** X28: an iteration that runs a feature settles it.  Let the renderer
    take the events, let the streams of the delegate end normally or
    with a cancellation, and let the delegate not write the list file
    itself.  When the first record that is not verified is not running,
    has steps and is stored under its id in a writable list file, the
    iteration runs it and asks for another round: the completion event
    is the last one delivered, the status then stored is "verified" if
    that event says [passes] and "backlog" if not, and the feature is
    unregistered again. *)
Theorem iteration_settles_the_feature sdk_query renderer projectPath
    nextFeature featureId w :
  (∀ ev, renderer ev = None) →
  ends_or_cancels sdk_query →
  (∀ call w node,
     OverwriteFeatureList projectPath node
     ∉ stream_effects (sdk_query call w)) →
  selectNextFeature (reload projectPath w) = Some nextFeature →
  id nextFeature = Some featureId →
  workable projectPath featureId w →
  is_Some (steps nextFeature) →
  runningFeatures w !! featureId = None →
  ∃ w' passed message,
    iteration sdk_query renderer projectPath w = (Ok Continue, w') ∧
    last (rendered w')
    = Some (auto_mode_feature_complete (Some featureId) passed message) ∧
    stored_status projectPath featureId w'
    = Some (if passed then "verified" else "backlog") ∧
    runningFeatures w' !! featureId = None.
Proof.
  intros Hr Hend Htool Hsel Hid Hwork Hsteps Hk. rewrite reload_stored in Hsel.
  assert (Hhas : has (Some featureId) w = false).
  { unfold has. simpl. rewrite Hk. apply bool_decide_eq_false_2.
    by intros [? [=]]. }
  pose proof Hwork as [Hp [c Hfile]].
  destruct (persisted_found _ _ _ Hp) as (i & f & Hf).
  destruct (found_array _ _ _ _ _ Hf) as (wr & l & Hfile').
  rewrite Hfile in Hfile'. injection Hfile' as <- ->.
  pose proof (loadFeatures_array _ _ _ _ Hfile) as Hload.
  rewrite <- (stored_array _ _ _ _ Hfile) in Hload.
  pose proof (engine_invariant_workable sdk_query projectPath featureId Htool)
    as Hengine.
  assert (Hclock : clock_stable (workable projectPath featureId))
    by (by intros ? ? ?).
  unfold iteration, bind at 1, try_catch at 1, bind at 1.
  rewrite Hload, Hsel. simpl. rewrite Hid.
  unfold try_catch, bind at 1, get. rewrite Hhas.
  rewrite (bind_run _ _ _ _ _ (sendToRenderer_run renderer Hr _ w)).
  set (w2 := set_rendered _ w).
  unfold bind at 1, register at 1, modify. simpl.
  set (w3 := set_runningFeatures _ _).
  pose proof (implementFeature_returns sdk_query renderer projectPath _
                nextFeature Hr Hend Hengine Hclock Hsteps w3) as Himpl.
  destruct Himpl as [Hwork4 Hok].
  { split; [exact Hwork|]. rewrite Hid.
    apply (has_registered featureId projectPath w2). }
  unfold bind at 1.
  destruct (implementFeature sdk_query renderer nextFeature projectPath w3)
    as [[res|e] w4]; [|by destruct (Hok e)].
  simpl in Hwork4.
  destruct (workable_update_status projectPath featureId
              (if passes res then "verified" else "backlog") w4 Hwork4)
    as (w5 & Hupd5 & _ & Hre5 & _ & Hst5).
  rewrite (bind_run _ _ _ _ _ Hupd5).
  rewrite (bind_run _ _ _ _ _ (sendToRenderer_run renderer Hr _ w5)).
  unfold bind, modify, get, sleep. simpl.
  exists (if autoLoopRunning w5
          then set_clock (λ t, t + 3000)
                 (unregister featureId
                    (set_rendered
                       (λ l0, l0 ++ [auto_mode_feature_complete
                                       (Some featureId) (passes res)
                                       (message res)]) w5))
          else unregister featureId
                 (set_rendered
                    (λ l0, l0 ++ [auto_mode_feature_complete
                                    (Some featureId) (passes res)
                                    (message res)]) w5)),
    (passes res), (message res).
  destruct (autoLoopRunning w5); simpl;
    (split; [reflexivity|]); (split; [by rewrite last_snoc|]);
    (split; [by apply Hst5|apply lookup_delete_eq]).
Qed.

(** ** What a resume hands to the delegate *)

Lemma stable_engine_calls calls : stable_engine (calls_begin_with calls).
Proof. split; [split|..]; intros f w H; exact H. Qed.

Lemma preserves_run_effect_calls calls projectPath e :
  preserves (calls_begin_with calls) (run_effect projectPath e).
Proof.
  destruct e as [featureId status|ms| |pp' node|pp' featureId node]; simpl;
    [|by apply preserves_modify| |by apply preserves_modify..].
  - apply preserves_bind; [|intros; apply preserves_ret].
    apply preserves_UpdateFeatureStatus; [by split|].
    by apply preserves_updateFeatureStatus_log; [split|].
  - apply preserves_bind; [|intros; apply preserves_ret].
    by apply preserves_stop.
Qed.

Lemma spec_bind_query_append {B} sdk_query I φ call
    (k : nat * Stream → M B) :
  (∀ w, I w → I (set_queries (λ l, l ++ [call]) w)) →
  (∀ q w0, spec I φ (k (q, sdk_query call w0))) →
  spec I φ (bind (query_sdk sdk_query call) k).
Proof. intros Hq Hk w Hw. unfold bind, query_sdk. by apply Hk, Hq. Qed.

Lemma calls_begin_with_append calls call w :
  calls_begin_with calls w →
  calls_begin_with calls (set_queries (λ l, l ++ [call]) w).
Proof.
  intros [rest H]. exists (rest ++ [call]). simpl. by rewrite H, app_assoc.
Qed.

Section Context.

Variable sdk_query : QueryCall → World → Stream.
Variable renderer : Event → option JsError.
Variables (projectPath featureId : string) (feature : Feature).
Variable calls : list QueryCall.

Lemma spec_attempt_calls context :
  spec (calls_begin_with calls) (λ _, True)
    (resumeFeatureWithContext sdk_query renderer feature projectPath context).
Proof.
  pose proof (stable_engine_calls calls) as Hs.
  unfold resumeFeatureWithContext.
  apply spec_bind; [apply spec_get|]. intros [execution|];
    [|by apply spec_throw].
  apply spec_try_catch with (ψ := λ _, True).
  - repeat first
      [ apply spec_bind_query_append;
        [apply calls_begin_with_append | intros ? ?; simpl]
      | spec1
      | apply spec_sendToRenderer; [apply Hs|done]
      | apply spec_new_AbortController, Hs
      | by apply spec_numbered_steps
      | apply spec_reload_verified, Hs
      | apply spec_consume;
        [intros ? ?; apply preserves_run_effect_calls|intros ? ?|done]
      | apply spec_on_message; [apply Hs|done] ].
  - intros e _. by apply spec_on_error.
Qed.

Lemma spec_retry_calls remaining attempts res :
  spec (calls_begin_with calls) (λ _, True)
    (retry sdk_query renderer remaining attempts feature projectPath
       featureId res).
Proof.
  pose proof (stable_engine_calls calls) as Hs.
  revert attempts res. induction remaining as [|remaining IH];
    intros attempts res; simpl; [apply spec_ret|].
  repeat first
    [ apply spec_attempt_calls
    | apply IH
    | apply spec_sendToRenderer; [apply Hs|done]
    | spec1 ].
Qed.

End Context.

(** X29: a resume hands the saved log to the delegate.  With a renderer
    that takes the events, a [resumeFeature] that returns has called
    the delegate first of all with a resume request for the feature of
    the call, and the context of that request is what [readContextFile]
    gave when [resumeFeature] was called: the execution log as it was,
    or nothing. *)
Theorem resumeFeature_passes_the_log sdk_query renderer projectPath featureId
    w r w' :
  (∀ ev, renderer ev = None) →
  resumeFeature sdk_query renderer projectPath featureId w = (Ok r, w') →
  ∃ call rest,
    queries w' = queries w ++ call :: rest ∧
    q_kind call = Resume ∧
    id (q_feature call) = Some featureId ∧
    (readContextFile projectPath featureId w).1 = Ok (q_context call).
Proof.
  intros Hr H. unfold resumeFeature in H.
  apply bind_Ok in H as (running & w0 & Hget & H).
  apply get_Ok in Hget as [-> ->].
  destruct (has (Some featureId) w); [discriminate|].
  apply bind_Ok in H as ([] & w1 & Hreg & H). injection Hreg as <-.
  apply try_finally_inv in H as (w2 & H & ->).
  apply report_Ok in H.
  apply bind_Ok in H as (features & w3 & Hload & H).
  match type of Hload with loadFeatures _ ?w1 = _ =>
    destruct (loadFeatures_run projectPath w1) as (co & Hload')
  end.
  rewrite Hload in Hload'. injection Hload' as -> ->.
  match type of H with context [find_by_id featureId ?l] =>
    destruct (find_by_id featureId l) as [feature|] eqn:Hfind; [|discriminate]
  end.
  pose proof (find_by_id_id _ _ _ Hfind) as Hid.
  apply bind_Ok in H as ([] & w5 & Hsend & H).
  apply sendToRenderer_Ok in Hsend as ->.
  rewrite (bind_run _ _ _ _ _ (readContextFile_exact projectPath featureId _))
    in H.
  apply bind_Ok in H as (res & w6 & Hrun & H).
  match type of Hrun with
  | resumeFeatureWithContext _ _ _ _ ?context ?w5 = _ =>
      pose proof (resumeFeatureWithContext_one_query sdk_query renderer Hr
                    feature projectPath context (queries w5) w5 eq_refl)
        as Hone
  end.
  rewrite Hrun in Hone. destruct (Hone res eq_refl)
    as (call & Hq6 & Hkind & Hfeature & Hcontext).
  simpl in Hq6.
  apply bind_Ok in H as (final & w7 & Hretry & H).
  pose proof (spec_retry_calls sdk_query renderer projectPath featureId
                feature (queries w ++ [call]) maxAttempts 0%nat res w6) as H7.
  destruct H7 as [H7 _]; [exists []; by rewrite app_nil_r|].
  rewrite Hretry in H7. simpl in H7.
  apply bind_Ok in H as ([] & w8 & Hupd & H).
  pose proof (preserves_updateFeatureStatus_log
                (calls_begin_with (queries w ++ [call])) featureId
                (if passes final then "verified" else "in_progress")
                projectPath (stable_engine_log _ (stable_engine_calls _))
                (λ _ _ Hw, Hw) w7 H7) as H8.
  rewrite Hupd in H8. simpl in H8. destruct H8 as [rest H8].
  apply bind_Ok in H as ([] & w9 & Hsend & H).
  apply sendToRenderer_Ok in Hsend as ->. injection H as _ <-.
  exists call, rest. split; [|split; [|split]].
  - simpl. by rewrite H8, <- app_assoc.
  - done.
  - by rewrite Hfeature.
  - rewrite readContextFile_exact. simpl. by rewrite Hcontext.
Qed.

(** ** The further properties on concrete runs *)

Lemma loadFeatures_generated_ids_witness :
  ∃ f0 f1,
    (loadFeatures "/p" (project [untitled; untitled])).1 = Ok [f0; f1] ∧
    id f0 ≠ id f1.
Proof.
  set (w := project [untitled; untitled]).
  set (f0 := with_id 1000 0 untitled). set (f1 := with_id 1000 1 untitled).
  exists f0, f1. split; [by vm_compute|].
  assert (Hload : loadFeatures "/p" w = (Ok [f0; f1], w)) by (by vm_compute).
  destruct (loadFeatures_generated_ids "/p" w true [untitled; untitled]
              [f0; f1] w 0%nat untitled f0) as [Hdistinct _];
    [by vm_compute|exact Hload|reflexivity|reflexivity|reflexivity|].
  apply (Hdistinct 1%nat untitled f1); [reflexivity|reflexivity|reflexivity|lia].
Defined.

Lemma updateFeatureStatus_frame_witness :
  ∃ w',
    updateFeatureStatus "f2" "verified" "/p" (project [login; signup])
    = (Ok tt, w') ∧
    (status <$> reload "/p" w') = [Some "backlog"; Some "verified"].
Proof.
  destruct (updateFeatureStatus_frame "f2" "verified" "/p"
              (project [login; signup]) (FeatureArray [login; signup])
              1%nat signup) as (w' & Hrun & Hlen & Hframe);
    [by vm_compute|by vm_compute|].
  exists w'. split; [exact Hrun|].
  destruct (Hframe 0%nat login) as (f0 & H0 & _ & _ & _ & _ & Hs0);
    [by vm_compute|].
  destruct (Hframe 1%nat signup) as (f1 & H1 & _ & _ & _ & _ & Hs1);
    [by vm_compute|].
  destruct (reload "/p" w') as [|g0 [|g1 [|g2 rest]]]; try discriminate.
  simpl in H0, H1. simplify_eq. simpl. by rewrite Hs0, Hs1.
Defined.

Lemma updateFeatureStatus_normal_form_witness :
  ∃ w' l,
    updateFeatureStatus "f1" "in_progress" "/p" (project [untitled; login])
    = (Ok tt, w') ∧
    featureLists w' !! "/p" = Some (FLFile true (FeatureArray l)) ∧
    Forall (λ f, truthy (id f) = true ∧ transient f = []) l.
Proof.
  destruct (updateFeatureStatus_normal_form "f1" "in_progress" "/p"
              (project [untitled; login]) (FeatureArray [untitled; login])
              1%nat login) as (w' & l & Hrun & Hfile & Hall & _);
    [by vm_compute|by vm_compute|].
  by exists w', l.
Defined.

Lemma updateFeatureStatus_last_wins_witness :
  featureLists
    (updateFeatureStatus "f1" "verified" "/p"
       (updateFeatureStatus "f1" "in_progress" "/p" (project [login])).2).2
  = featureLists (updateFeatureStatus "f1" "verified" "/p" (project [login])).2.
Proof.
  apply (updateFeatureStatus_last_wins "f1" "in_progress" "verified" "/p"
           (project [login]) (FeatureArray [login])).
  - by vm_compute.
  - eexists. by vm_compute.
Defined.



Lemma stop_spares_other_controllers_witness :
  controllers
    (stop (set_controllers (λ cs, cs ++ [false]) busy)).2 !! 1%nat
  = Some false.
Proof.
  rewrite (stop_spares_other_controllers
             (set_controllers (λ cs, cs ++ [false]) busy) 1%nat).
  - reflexivity.
  - done.
  - intros featureId execution e Hk He.
    change (({["f1" := 0%nat]} : gmap string nat) !! featureId
            = Some execution) in Hk.
    apply lookup_singleton_Some in Hk as [<- <-]. simpl in He.
    injection He as <-. done.
Defined.

Lemma runLoop_nothing_to_do_witness :
  ∃ w', runLoop does_nothing takes_all 1 "/q" (started "/q" [login])
        = (Ok LoopEnded, w') ∧
    autoLoopRunning w' = false ∧
    rendered w' = [auto_mode_complete "All features completed!"] ∧
    queries w' = [].
Proof.
  destruct (runLoop_nothing_to_do does_nothing takes_all "/q" 0%nat
              (started "/q" [login]))
    as (w' & Hrun & Hflag & Hev & Hq & _);
    [reflexivity|left; by vm_compute|reflexivity|].
  by exists w'.
Defined.

Lemma runLoop_never_throws_witness :
  ∃ x w', runLoop crashes takes_all 3 "/p" (started "/p" [login])
          = (Ok x, w') ∧
    run_task crashes takes_all 3 (LoopTask "/p") (started "/p" [login])
    = (Ok tt, w').
Proof.
  apply (runLoop_never_throws crashes takes_all 3 "/p" (started "/p" [login])).
  reflexivity.
Defined.

Lemma iteration_waits_for_running_feature_witness :
  iteration does_nothing takes_all "/p" busy
  = (Ok Continue, set_clock (λ t, t + 3000) busy).
Proof.
  apply (iteration_waits_for_running_feature does_nothing takes_all "/p"
           login busy); by vm_compute.
Defined.

Lemma entry_points_leave_registry_witness :
  runningFeatures (runFeature crashes takes_all "/p" "f1" (project [login])).2
    !! "f1" = None ∧
  runningFeatures
    (verifyFeature crashes takes_all "/p" "f1" (project [login])).2
    !! "f1" = None ∧
  runningFeatures
    (resumeFeature crashes takes_all "/p" "f1" (project [login])).2
    !! "f1" = None.
Proof.
  apply (entry_points_leave_registry crashes takes_all "/p" "f1"
           (project [login]) "f1").
  reflexivity.
Defined.

Lemma entry_points_keep_other_features_witness :
  stored_status "/p" "f2"
    (runFeature verifies takes_all "/p" "f1" (project [login; signup])).2
  = Some "backlog" ∧
  stored_status "/p" "f1"
    (runFeature verifies takes_all "/p" "f1" (project [login; signup])).2
  = Some "verified".
Proof.
  split; [|by vm_compute].
  destruct (entry_points_keep_other_features verifies takes_all "/p" "f1"
              "f2" (project [login; signup])) with
    (entry := runFeature verifies takes_all) as [_ Hkeep].
  - done.
  - intros call w e He. apply list_elem_of_singleton in He as ->.
    split; [done|]. by intros fid st [= <- _].
  - exists true, [login; signup]. split; [by vm_compute|].
    by repeat constructor.
  - by left.
  - rewrite Hkeep. by vm_compute.
Defined.

Lemma entry_points_report_errors_witness :
  (runFeature crashes takes_all "/p" "f1" (project [login])).1
  = Throw (Error "overloaded") ∧
  last (rendered (runFeature crashes takes_all "/p" "f1" (project [login])).2)
  = Some (auto_mode_error "overloaded" (Some "f1")).
Proof.
  split; [by vm_compute|].
  apply (entry_points_report_errors crashes takes_all "/p" "f1"
           (project [login]) (runFeature crashes takes_all)
           (Error "overloaded")
           (runFeature crashes takes_all "/p" "f1" (project [login])).2).
  - reflexivity.
  - by left.
  - by vm_compute.
  - reflexivity.
Defined.

Lemma invocations_need_registration_witness :
  implementFeature does_nothing takes_all login "/p" (project [login])
  = (Throw (not_registered login), project [login]).
Proof.
  apply (invocations_need_registration does_nothing takes_all login "/p" None
           (project [login])).
  by vm_compute.
Defined.


Lemma delegate_errors_are_rethrown_witness :
  (implementFeature crashes takes_all login "/p" busy).1
  = Throw (Error "overloaded") ∧
  (verifyFeatureTests crashes takes_all login "/p" busy).1
  = Throw (Error "overloaded") ∧
  (resumeFeatureWithContext crashes takes_all login "/p" None busy).1
  = Throw (Error "overloaded").
Proof.
  apply (delegate_errors_are_rethrown crashes takes_all login "/p" None
           (Error "overloaded") busy).
  - reflexivity.
  - reflexivity.
  - reflexivity.
  - intros call w. simpl. apply not_elem_of_nil.
  - by eexists.
  - by vm_compute.
Defined.


Lemma cancelled_analysis_is_a_success_witness :
  ∃ w', analyzeProject analysis_cancelled takes_all "/p" (project [login])
        = (Ok (mkAnalysisResult true "Analysis aborted"), w') ∧
    last (rendered w')
    = Some (auto_mode_feature_complete (Some "project-analysis-1000") false
              "Analysis aborted").
Proof.
  apply (cancelled_analysis_is_a_success analysis_cancelled takes_all "/p"
           (project [login])).
  - reflexivity.
  - intros call w. exists AbortError. by split.
  - intros call w. simpl. apply not_elem_of_nil.
  - by vm_compute.
Defined.

Lemma iteration_reports_delegate_failure_witness :
  ∃ w', iteration crashes takes_all "/p" (started "/p" [login])
        = (Ok Continue, w') ∧
    last (rendered w') = Some (auto_mode_error "overloaded" (Some "f1")) ∧
    runningFeatures w' !! "f1" = None.
Proof.
  destruct (iteration_reports_delegate_failure crashes takes_all "/p"
              (Error "overloaded") login (started "/p" [login]))
    as (featureId & w' & Hid & Hrun & Hev & Hreg).
  - reflexivity.
  - reflexivity.
  - reflexivity.
  - intros call w. simpl. apply not_elem_of_nil.
  - by vm_compute.
  - by eexists.
  - by vm_compute.
  - injection Hid as <-. by exists w'.
Defined.

Lemma entry_points_return_witness :
  ∃ r w', runFeature verifies takes_all "/p" "f1" (project [login])
          = (Ok r, w') ∧
    stored_status "/p" "f1" w'
    = Some (if result_passes r then "verified" else "backlog").
Proof.
  destruct (entry_points_return verifies takes_all "/p" "f1" login
              (project [login])) as [Hrun _].
  - reflexivity.
  - intros call w e [=].
  - by intros call w node [=]%list_elem_of_singleton.
  - split.
    + split; [done|]. exists true, [login]. split; [by vm_compute|].
      by apply list_elem_of_singleton.
    + eexists. by vm_compute.
  - reflexivity.
  - by vm_compute.
  - by eexists.
  - exact Hrun.
Defined.

Lemma iteration_settles_the_feature_witness :
  ∃ w', iteration verifies takes_all "/p" (started "/p" [login])
        = (Ok Continue, w') ∧
    last (rendered w')
    = Some (auto_mode_feature_complete (Some "f1") true "All tests pass.") ∧
    stored_status "/p" "f1" w' = Some "verified".
Proof.
  destruct (iteration_settles_the_feature verifies takes_all "/p" login "f1"
              (started "/p" [login]))
    as (w' & passed & message & Hrun & Hev & Hst & _).
  - reflexivity.
  - intros call w e [=].
  - by intros call w node [=]%list_elem_of_singleton.
  - by vm_compute.
  - reflexivity.
  - split.
    + split; [done|]. exists true, [login]. split; [by vm_compute|].
      by apply list_elem_of_singleton.
    + eexists. by vm_compute.
  - by eexists.
  - reflexivity.
  - exists w'. split; [exact Hrun|].
    assert (Hlast : last (rendered w')
                    = Some (auto_mode_feature_complete (Some "f1") true
                              "All tests pass.")).
    { assert (Hw : w' = (iteration verifies takes_all "/p"
                           (started "/p" [login])).2) by (by rewrite Hrun).
      rewrite Hw. by vm_compute. }
    split; [exact Hlast|]. rewrite Hev in Hlast. injection Hlast as -> _.
    exact Hst.
Defined.

Lemma resumeFeature_passes_the_log_witness :
  ∃ call rest,
    queries
      (resumeFeature does_nothing takes_all "/p" "f1"
         (project_with_logs [login_in_progress])).2 = call :: rest ∧
    q_kind call = Resume ∧ q_context call = Some "log of f1".
Proof.
  destruct (resumeFeature_passes_the_log does_nothing takes_all "/p" "f1"
              (project_with_logs [login_in_progress])
              (mkRunResult true false)
              (resumeFeature does_nothing takes_all "/p" "f1"
                 (project_with_logs [login_in_progress])).2)
    as (call & rest & Hq & Hkind & _ & Hcontext);
    [reflexivity|by vm_compute|].
  exists call, rest. split; [exact Hq|]. split; [exact Hkind|].
  by injection Hcontext as <-.
Defined.

Lemma start_with_nothing_to_do_witness :
  ∃ w1 w2,
    start "/q" (project [login]) = (Ok true, w1) ∧
    run_task does_nothing takes_all 1 (LoopTask "/q") w1 = (Ok tt, w2) ∧
    autoLoopRunning w2 = false ∧
    rendered w2 = [auto_mode_complete "All features completed!"] ∧
    (start "/q" w2).1 = Ok true.
Proof.
  destruct (start_with_nothing_to_do does_nothing takes_all "/q" 0%nat
              (project [login]))
    as (w1 & w2 & Hstart & _ & Hrun & Hflag & Hev & _ & Hagain);
    [reflexivity|left; by vm_compute|reflexivity|].
  by exists w1, w2.
Defined.



Lemma analyzeProject_result_witness :
  ∃ r w', analyzeProject analysis_done takes_all "/p" (project [login])
          = (Ok r, w') ∧
    analysis_success r = true ∧
    analysis_message r = "Project analyzed successfully" ∧
    runningFeatures w' !! "project-analysis-1000" = None.
Proof.
  destruct (analyzeProject_result analysis_done takes_all "/p"
              (project [login])) as (Hresult & Hclean & _).
  eexists _, _. split; [by vm_compute|].
  match goal with |- analysis_success ?r = _ ∧ _ =>
    destruct (Hresult r
                (analyzeProject analysis_done takes_all "/p"
                   (project [login])).2) as [Hsuccess _]; [by vm_compute|]
  end.
  split; [exact Hsuccess|]. split; [reflexivity|].
  apply Hclean. reflexivity.
Defined.

Lemma invocations_release_the_controller_witness :
  abortController <$> executions busy !! 0%nat = Some (Some 0%nat) ∧
  released 0 (implementFeature crashes takes_all login "/p" busy).2 ∧
  released 0 (implementFeature cancelled takes_all login "/p" busy).2.
Proof.
  split; [reflexivity|].
  destruct (invocations_release_the_controller crashes analysis_done takes_all
              login "/p" None "a" 0%nat busy) as [Hcrash _].
  destruct (invocations_release_the_controller cancelled analysis_done
              takes_all login "/p" None "a" 0%nat busy) as [Hcancel _].
  split.
  - by apply Hcrash.
  - by apply Hcancel.
Defined.
